(** * smallsh: the command interpreter of the repository

    A shallow embedding of [seiferjo.smallsh.c] (the shell component) and the
    properties of its parser, its built-in commands and its launch/wait logic.

    Conventions.
    - C strings are [string]; a nullable [char *] is [option string].
    - The "Bool value" [int] fields of [struct job] ([isInput], [isOutput],
      [isBackground]) only ever hold 0 or 1 and are modelled as [bool].
    - The wait status is the [int] written by [waitpid], a [Z], decoded with the
      bit operations of the C library's status macros.
    - The operating system is an explicit environment: what [fork] and
      [waitpid] answer is supplied to the functions, and what the shell prints
      and which calls it makes are recorded in a [world].
    - What C leaves undefined (a store outside an array, an [int] that
      overflows) ends the run in the model, with a result of its own
      ([PastArray], [Undefined], [None]); nothing is stated of what the
      program does from there on. *)

From Stdlib Require Import ZArith String Ascii List Bool Lia DecimalString Permutation.
Import ListNotations.

Local Open Scope string_scope.
Local Open Scope list_scope.

(** ** Constants of the source *)

Definition COMMAND_LINE_BUFFER : nat := 2048.
Definition COMMAND_LINE_ARG : nat := 512.

(** [" \t\r\n\a"]: space, tab, carriage return, newline, bell. *)
Definition TOKEN_DELIMITERS : string :=
  String " " (String "009" (String "013" (String "010" (String "007" EmptyString)))).

(** ** [strtok]

    The C library keeps a saved pointer into the buffer between calls; the
    model passes it explicitly.  [strtok(rawInput, d)] is [strtok d rawInput];
    [strtok(NULL, d)] is [strtok d save] on the pointer the previous call
    left. *)

Fixpoint strchr (delims : string) (c : ascii) : bool :=
  match delims with
  | EmptyString => false
  | String d delims' => if Ascii.eqb c d then true else strchr delims' c
  end.

(** Skip the leading delimiters ([s += strspn(s, delims)]). *)
Fixpoint skip_delims (delims s : string) : string :=
  match s with
  | EmptyString => EmptyString
  | String c s' => if strchr delims c then skip_delims delims s' else s
  end.

(** Cut the token that starts at [s]: the characters up to the next delimiter,
    and the pointer just past that delimiter (or the end of the buffer). *)
Fixpoint scan_token (delims s : string) : string * string :=
  match s with
  | EmptyString => (EmptyString, EmptyString)
  | String c s' =>
      if strchr delims c then (EmptyString, s')
      else let (tok, save) := scan_token delims s' in (String c tok, save)
  end.

Definition strtok (delims save : string) : option string * string :=
  match skip_delims delims save with
  | EmptyString => (None, EmptyString)
  | String c s' =>
      let (tok, save') := scan_token delims (String c s') in (Some tok, save')
  end.

(** ** [struct job] *)

Record job := mkJob {
  args : nat -> option string;   (* char *args[COMMAND_LINE_ARG] *)
  isInput : bool;
  inFile : option string;
  isOutput : bool;
  outFile : option string;
  isBackground : bool;
  argCount : nat;
  exitStatus : string            (* char exitStatus[100] *)
}.

Definition set_args (f : nat -> option string) (j : job) : job :=
  mkJob f (isInput j) (inFile j) (isOutput j) (outFile j) (isBackground j)
        (argCount j) (exitStatus j).
Definition set_isInput (b : bool) (j : job) : job :=
  mkJob (args j) b (inFile j) (isOutput j) (outFile j) (isBackground j)
        (argCount j) (exitStatus j).
Definition set_inFile (p : option string) (j : job) : job :=
  mkJob (args j) (isInput j) p (isOutput j) (outFile j) (isBackground j)
        (argCount j) (exitStatus j).
Definition set_isOutput (b : bool) (j : job) : job :=
  mkJob (args j) (isInput j) (inFile j) b (outFile j) (isBackground j)
        (argCount j) (exitStatus j).
Definition set_outFile (p : option string) (j : job) : job :=
  mkJob (args j) (isInput j) (inFile j) (isOutput j) p (isBackground j)
        (argCount j) (exitStatus j).
Definition set_isBackground (b : bool) (j : job) : job :=
  mkJob (args j) (isInput j) (inFile j) (isOutput j) (outFile j) b
        (argCount j) (exitStatus j).
Definition set_argCount (n : nat) (j : job) : job :=
  mkJob (args j) (isInput j) (inFile j) (isOutput j) (outFile j)
        (isBackground j) n (exitStatus j).
Definition set_exitStatus (s : string) (j : job) : job :=
  mkJob (args j) (isInput j) (inFile j) (isOutput j) (outFile j)
        (isBackground j) (argCount j) s.

(** [args] has [COMMAND_LINE_ARG] cells.  A store at an index it does not
    have is undefined in C (the bytes after the array are the other fields of
    [struct job]): the parser's result is then [PastArray], with the index,
    and nothing is said of what follows. *)
Definition array_store (i : nat) (v : option string) (a : nat -> option string)
  : nat -> option string :=
  fun k => if Nat.eqb k i then v else a k.

Inductive parsed :=
| Stored (j : job)           (* every store fell inside [args] *)
| PastArray (i : nat).       (* a store at [args[i]], outside the array *)

(** [parsedInput->args[i] = v]. *)
Definition store_arg (i : nat) (v : option string) (j : job) : parsed :=
  if (i <? COMMAND_LINE_ARG)%nat
  then Stored (set_args (array_store i v (args j)) j)
  else PastArray i.

Definition on_parsed (f : job -> job) (p : parsed) : parsed :=
  match p with
  | Stored j => Stored (f j)
  | PastArray i => PastArray i
  end.

(** What [execvp] reads: the cells from index 0 up to the first null one. *)
Fixpoint read_argv (a : nat -> option string) (i n : nat) : list string :=
  match n with
  | 0 => []
  | S n' => match a i with
            | None => []
            | Some s => s :: read_argv a (S i) n'
            end
  end.

Definition arguments (j : job) : list string :=
  read_argv (args j) 0 COMMAND_LINE_ARG.

(** ** [parseCommandLine] *)

(** One pass through the body of [while (token != NULL)], the final
    [token = strtok(NULL, TOKEN_DELIMITERS)] included. *)
Definition parse_body (token save : string) (parsedInput : job)
  : option string * string * parsed :=
  if token =? "<" then
    let j1 := set_isInput true parsedInput in
    let (token1, save1) := strtok TOKEN_DELIMITERS save in
    let j2 := set_inFile token1 j1 in
    let (token2, save2) := strtok TOKEN_DELIMITERS save1 in
    (token2, save2, Stored j2)
  else if token =? ">" then
    let j1 := set_isOutput true parsedInput in
    let (token1, save1) := strtok TOKEN_DELIMITERS save in
    let j2 := set_outFile token1 j1 in
    let (token2, save2) := strtok TOKEN_DELIMITERS save1 in
    (token2, save2, Stored j2)
  else if token =? "&" then
    let j1 := set_isBackground true parsedInput in
    let (token2, save2) := strtok TOKEN_DELIMITERS save in
    (token2, save2, Stored j1)
  else
    match store_arg (argCount parsedInput) (Some token) parsedInput with
    | Stored j1 =>
        let j2 := set_argCount (S (argCount j1)) j1 in
        let (token2, save2) := strtok TOKEN_DELIMITERS save in
        (token2, save2, Stored j2)
    | PastArray i => (None, save, PastArray i)
    end.

(** The loop; [None] when the fuel is spent before the loop is left.  It is
    not followed beyond a store outside the array. *)
Fixpoint parse_loop (fuel : nat) (token : option string) (save : string)
                    (parsedInput : job) : option parsed :=
  match token with
  | None => Some (Stored parsedInput)
  | Some t =>
      match fuel with
      | 0 => None
      | S fuel' =>
          match parse_body t save parsedInput with
          | (token', save', Stored j') => parse_loop fuel' token' save' j'
          | (_, _, PastArray i) => Some (PastArray i)
          end
      end
  end.

(** [parsedInput->args[parsedInput->argCount] = NULL]. *)
Definition cap_args (parsedInput : job) : parsed :=
  store_arg (argCount parsedInput) None parsedInput.

Definition then_cap (p : parsed) : parsed :=
  match p with
  | Stored j => cap_args j
  | PastArray i => PastArray i
  end.

Definition parseCommandLine (rawInput : string) (parsedInput : job)
  : option parsed :=
  let (token, save) := strtok TOKEN_DELIMITERS rawInput in
  match parse_loop (String.length rawInput) token save parsedInput with
  | Some p => Some (then_cap p)
  | None => None
  end.

(** The reset at the top of the loop of [main]. *)
Definition main_reset (j : job) : job :=
  set_argCount 0 (set_isBackground false (set_isOutput false (set_isInput false j))).

(** The job [main] starts from: only [exitStatus] is initialised. *)
Definition job_init (garbage : job) : job := set_exitStatus "none" garbage.

Definition empty_job : job :=
  mkJob (fun _ => None) false None false None false 0 EmptyString.

(** ** Wait status

    The status macros are those of the C library ([bits/waitstatus.h]):
    the low seven bits hold the terminating signal (0 for a normal exit, 127
    for a stopped child), bits 8 to 15 the exit code. *)

Local Open Scope Z_scope.

Definition WNOHANG : Z := 1.
Definition WUNTRACED : Z := 2.

Definition WEXITSTATUS (status : Z) : Z := Z.shiftr (Z.land status 65280) 8.
Definition WTERMSIG (status : Z) : Z := Z.land status 127.
Definition WIFEXITED (status : Z) : bool := WTERMSIG status =? 0.

(** The cast [(signed char)] of a value in 0..255. *)
Definition signed_char (x : Z) : Z := if x <? 128 then x else x - 256.

Definition WIFSIGNALED (status : Z) : bool :=
  Z.shiftr (signed_char (Z.land status 127 + 1)) 1 >? 0.
Definition WIFSTOPPED (status : Z) : bool := Z.land status 255 =? 127.

(** [printf("%d", n)]. *)
Definition dec (n : Z) : string := NilZero.string_of_int (Z.to_int n).

Definition newline : string := String "010" EmptyString.

(** ** The world of the shell process *)

Inductive syscall :=
| SysFork (ret : Z)
| SysWaitpid (pid options : Z).

(** [dir_of w cwd path] is the directory [path] names when looked up from
    [cwd], [None] when [chdir] on it fails. *)
Record world := mkWorld {
  stdout : string;
  cwd : string;
  HOME : option string;
  dir_of : string -> string -> option string;
  calls : list syscall
}.

Definition printf (s : string) (w : world) : world :=
  mkWorld (stdout w ++ s)%string (cwd w) (HOME w) (dir_of w) (calls w).
Definition set_cwd (d : string) (w : world) : world :=
  mkWorld (stdout w) d (HOME w) (dir_of w) (calls w).
Definition call (c : syscall) (w : world) : world :=
  mkWorld (stdout w) (cwd w) (HOME w) (dir_of w) (calls w ++ [c]).

Definition getenv_HOME (w : world) : option string := HOME w.

(** [chdir]: 0 and the new directory, or -1 and nothing changed (a null or
    unresolvable path). *)
Definition chdir (path : option string) (w : world) : Z * world :=
  match path with
  | None => (-1, w)
  | Some p =>
      match dir_of w (cwd w) p with
      | Some d => (0, set_cwd d w)
      | None => (-1, w)
      end
  end.

(** [strcmp(p, s) == 0] for a pointer [p] of the argument array. *)
Definition strcmp0 (p : option string) (s : string) : bool :=
  match p with
  | Some t => (t =? s)%string
  | None => false
  end.

(** ** [runBuiltIn] *)

Definition runBuiltIn (parsedInput : job) (w : world) : job * world :=
  if strcmp0 (args parsedInput 0%nat) "status" then
    let w1 := printf (exitStatus parsedInput ++ newline) w in
    (set_exitStatus "exit value 0" parsedInput, w1)
  else
    match args parsedInput 1%nat with
    | Some path =>
        let (r, w1) := chdir (Some path) w in
        if r =? 0 then (set_exitStatus "exit value 0" parsedInput, w1)
        else
          let w2 := printf (path ++ ": no such file or directory" ++ newline) w1 in
          (set_exitStatus "exit value 1" parsedInput, w2)
    | None =>
        let (_, w1) := chdir (getenv_HOME w) w in
        (set_exitStatus "exit value 0" parsedInput, w1)
    end.

(** ** Signal dispositions *)

Inductive handler := SIG_DFL | SIG_IGN.

(** The two global [struct sigaction]. *)
Record sigactions := mkSigactions {
  foreground : handler;
  background : handler
}.

(** [init]: the globals as set, and the disposition of SIGINT the shell runs
    under from then on. *)
Definition init : sigactions * handler :=
  let g := mkSigactions SIG_DFL SIG_IGN in
  (g, background g).

(** ** [runCommand]: the forked child *)

(** What the system answers to the calls of the child. *)
Record child_env := mkChildEnv {
  open_ret : option string -> Z;     (* descriptor, or -1 *)
  dup2_ret : Z -> Z -> Z;            (* -1 on failure *)
  execvp_fails : bool
}.

Record child := mkChild {
  c_sigint : handler;                (* disposition of SIGINT *)
  c_stdout : string;                 (* printed by the child itself *)
  c_opened : list (option string);   (* paths passed to open *)
  c_dups : list (Z * Z);             (* dup2 calls that succeeded *)
  c_closed : list Z
}.

Inductive child_end :=
| Execed (c : child) (file : option string) (argv : list string)
| Exited (c : child) (code : Z).

Definition c_sigaction (h : handler) (c : child) : child :=
  mkChild h (c_stdout c) (c_opened c) (c_dups c) (c_closed c).
Definition c_printf (s : string) (c : child) : child :=
  mkChild (c_sigint c) (c_stdout c ++ s)%string (c_opened c) (c_dups c) (c_closed c).
Definition c_open (e : child_env) (path : option string) (c : child) : Z * child :=
  (open_ret e path,
   mkChild (c_sigint c) (c_stdout c) (c_opened c ++ [path]) (c_dups c) (c_closed c)).
Definition c_dup2 (e : child_env) (oldfd newfd : Z) (c : child) : Z * child :=
  let r := dup2_ret e oldfd newfd in
  (r, if r =? -1 then c
      else mkChild (c_sigint c) (c_stdout c) (c_opened c)
                   (c_dups c ++ [(oldfd, newfd)]) (c_closed c)).
Definition c_close (fd : Z) (c : child) : child :=
  mkChild (c_sigint c) (c_stdout c) (c_opened c) (c_dups c) (c_closed c ++ [fd]).

(** [printf("%s", p)]; the C library prints a null pointer as [(null)]. *)
Definition opt_str (p : option string) : string :=
  match p with Some s => s | None => "(null)" end.

(** The input part of the child: [inr c] to go on, [inl e] when it exits. *)
Definition child_input (e : child_env) (parsedInput : job) (c : child)
  : child_end + child :=
  if isInput parsedInput then
    let (saveIn, c1) := c_open e (inFile parsedInput) c in
    if saveIn =? -1 then
      inl (Exited (c_printf ("smallsh: cannot open " ++ opt_str (inFile parsedInput)
                             ++ " for input" ++ newline) c1) 1)
    else
      let (r, c2) := c_dup2 e saveIn 0 c1 in
      if r =? -1 then
        inr (c_close saveIn (c_printf ("Error dup2 input file..." ++ newline) c2))
      else inr c2
  else if isBackground parsedInput then
    let (saveIn, c1) := c_open e (Some "/dev/null") c in
    let c2 := if saveIn =? -1
              then c_printf ("Error opening input file..." ++ newline) c1 else c1 in
    let (r, c3) := c_dup2 e saveIn 0 c2 in
    if r =? -1 then inr (c_printf ("Error copying file descriptor." ++ newline) c3)
    else inr c3
  else inr c.

Definition child_output (e : child_env) (parsedInput : job) (c : child) : child :=
  if isOutput parsedInput then
    let (saveOut, c1) := c_open e (outFile parsedInput) c in
    let c2 := if saveOut =? -1
              then c_printf ("Error opening output file..." ++ newline) c1 else c1 in
    let (r, c3) := c_dup2 e saveOut 1 c2 in
    if r =? -1
    then c_close saveOut (c_printf ("Error copying file descriptor." ++ newline) c3)
    else c3
  else c.

(** The branch [pid == 0].  The child starts with the disposition it inherits
    from the shell. *)
Definition runCommand_child (g : sigactions) (inherited : handler)
                            (e : child_env) (parsedInput : job) : child_end :=
  let c0 := mkChild inherited EmptyString [] [] [] in
  let c1 := c_sigaction (foreground g) c0 in
  match child_input e parsedInput c1 with
  | inl ended => ended
  | inr c2 =>
      let c3 := child_output e parsedInput c2 in
      if execvp_fails e then
        Exited (c_printf (opt_str (args parsedInput 0%nat)
                          ++ ": no such file or directory" ++ newline) c3) 1
      else Execed c3 (args parsedInput 0%nat) (arguments parsedInput)
  end.

Definition child_of (r : child_end) : child :=
  match r with Execed c _ _ => c | Exited c _ => c end.

(** ** [runCommand]: the parent *)

(** What the kernel answers to one [waitpid]: a child that changed state, with
    the status it writes; 0 (nothing changed, with [WNOHANG]); or -1.  The
    status is written in the first case only. *)
Inductive wait_answer :=
| Reaped (pid status : Z)
| NoChange
| WaitFailed.

Definition wait_ret (a : wait_answer) : Z :=
  match a with Reaped p _ => p | NoChange => 0 | WaitFailed => -1 end.
Definition wait_status (a : wait_answer) (status : Z) : Z :=
  match a with Reaped _ s => s | _ => status end.

(** The loop is left ([LoopDone], with the answers not yet used), or the
    answers ran out while the shell was still in it ([LoopPending]). *)
Inductive loop_result :=
| LoopDone (answers : list wait_answer) (status : Z) (j : job) (w : world)
| LoopPending (status : Z) (j : job) (w : world).

(** [do { ... } while (!WIFEXITED(status) && !WIFSIGNALED(status))]: every pass
    makes one [waitpid] and uses one answer. *)
Fixpoint wait_loop (pid : Z) (answers : list wait_answer) (status : Z)
                   (parsedInput : job) (w : world) : loop_result :=
  match answers with
  | [] => LoopPending status parsedInput w
  | a :: rest =>
      let '(status1, j1, w1) :=
        if negb (isBackground parsedInput) then
          let w' := call (SysWaitpid pid WUNTRACED) w in
          let status' := wait_status a status in
          (status',
           set_exitStatus ("exit value " ++ dec (WEXITSTATUS status')) parsedInput,
           w')
        else
          let w' := call (SysWaitpid (-1) WNOHANG) w in
          (wait_status a status, parsedInput, w')
      in
      if negb (WIFEXITED status1) && negb (WIFSIGNALED status1)
      then wait_loop pid rest status1 j1 w1
      else LoopDone rest status1 j1 w1
  end.

Inductive run_result :=
| Returned (j : job) (w : world)     (* back in [main] *)
| Pending (j : job) (w : world)      (* still waiting: no further answer *)
| InChild (e : child_end).           (* the forked child: never back in [main] *)

(** What the run of one [runCommand] meets: the value [fork] returns, the
    content of the uninitialised [int status], the answers to its [waitpid]
    calls in order, and (in the child) the answers to the child's calls. *)
Record run_env := mkRunEnv {
  fork_ret : Z;
  status_garbage : Z;
  wait_answers : list wait_answer;
  child_os : child_env
}.

(** The closing [if ((pid = waitpid(-1, &status, WNOHANG)) > 0) ...]. *)
Definition reap_poll (a : wait_answer) (status : Z) (w : world) : world :=
  let w4 := call (SysWaitpid (-1) WNOHANG) w in
  let pid' := wait_ret a in
  let status' := wait_status a status in
  if pid' >? 0 then
    let w5 := if WIFEXITED status'
              then printf ("background pid " ++ dec pid' ++ " is done: exit value "
                           ++ dec (WEXITSTATUS status') ++ "." ++ newline) w4
              else w4 in
    if WIFSIGNALED status'
    then printf ("background pid " ++ dec pid' ++ " is done: terminated by signal "
                 ++ dec (WTERMSIG status') ++ "." ++ newline) w5
    else w5
  else w4.

Definition runCommand_parent (pid : Z) (e : run_env) (parsedInput : job)
                             (w : world) : run_result :=
  let w1 := if isBackground parsedInput
            then printf ("background pid is " ++ dec pid ++ newline) w else w in
  match wait_loop pid (wait_answers e) (status_garbage e) parsedInput w1 with
  | LoopPending _ j w2 => Pending j w2
  | LoopDone rest status j w2 =>
      let (j3, w3) :=
        if WIFSIGNALED status then
          (set_exitStatus ("terminated by signal " ++ dec (WTERMSIG status) ++ ".") j,
           printf ("terminated by signal " ++ dec (WTERMSIG status) ++ "." ++ newline) w2)
        else (j, w2) in
      match rest with
      | [] => Pending j3 w3
      | a :: _ => Returned j3 (reap_poll a status w3)
      end
  end.

Definition runCommand (g : sigactions) (shell_sigint : handler) (e : run_env)
                      (parsedInput : job) (w : world) : run_result :=
  let pid := fork_ret e in
  let w0 := call (SysFork pid) w in
  if pid =? 0 then InChild (runCommand_child g shell_sigint (child_os e) parsedInput)
  else if pid <? 0 then Returned parsedInput (printf "Forking error..." w0)
  else runCommand_parent pid e parsedInput w0.

(** ** [main] *)

Inductive step :=
| Next (j : job) (w : world)         (* [continue], or the end of the loop body *)
| Halt (w : world)                   (* [break]: the shell exits *)
| Waits (j : job) (w : world)        (* inside [runCommand], still waiting *)
| Child (e : child_end)              (* this process is the forked child *)
| Undefined                          (* the parser stored outside [args] *)
| NoFuel.                            (* the parser's fuel ran out: never the case,
                                        see [parseCommandLine_total] *)

(** One pass through the body of [while (1)], on the line [readCommandLine]
    returned. *)
Definition main_iteration (g : sigactions) (shell_sigint : handler)
                          (rawInput : string) (e : run_env)
                          (parsedInput : job) (w : world) : step :=
  let j0 := main_reset parsedInput in
  let w0 := printf ": " w in
  match rawInput with
  | EmptyString => Halt w0
  | String c _ =>
      if (Ascii.eqb c "010" || Ascii.eqb c "#")%bool then Next j0 w0
      else
        match parseCommandLine rawInput j0 with
        | None => NoFuel
        | Some (PastArray _) => Undefined
        | Some (Stored j1) =>
            if (argCount j1 =? 0)%nat then Next j1 w0
            else if strcmp0 (args j1 0%nat) "exit" then Halt w0
            else if (strcmp0 (args j1 0%nat) "cd" || strcmp0 (args j1 0%nat) "status")%bool
            then let (j2, w2) := runBuiltIn j1 w0 in Next j2 w2
            else
              match runCommand g shell_sigint e j1 w0 with
              | Returned j2 w2 => Next j2 w2
              | Pending j2 w2 => Waits j2 w2
              | InChild ce => Child ce
              end
        end
  end.

(** The loop of [main] on the lines typed so far, each with what the system
    answers while it is handled. *)
Fixpoint main_loop (g : sigactions) (shell_sigint : handler)
                   (input : list (string * run_env))
                   (parsedInput : job) (w : world) : step :=
  match input with
  | [] => Next parsedInput w
  | (rawInput, e) :: rest =>
      match main_iteration g shell_sigint rawInput e parsedInput w with
      | Next j w' => main_loop g shell_sigint rest j w'
      | r => r
      end
  end.

Definition main (input : list (string * run_env)) (garbage : job) (w : world) : step :=
  let (g, shell_sigint) := init in
  main_loop g shell_sigint input (job_init garbage) w.

(** ** The token sequence of a line

    What the successive calls of [strtok] return on a buffer, as a list, and
    the parser's loop read on that list.  Both are tied to the loop above by
    [parse_loop_tokens] and [parseCommandLine_tokens]. *)

Local Open Scope nat_scope.

Fixpoint tokens_from (fuel : nat) (save : string) : list string :=
  match fuel with
  | 0 => []
  | S fuel' =>
      match strtok TOKEN_DELIMITERS save with
      | (None, _) => []
      | (Some t, save') => t :: tokens_from fuel' save'
      end
  end.

Definition tokenize (rawInput : string) : list string :=
  tokens_from (S (String.length rawInput)) rawInput.

Definition is_redirect (t : string) : bool := ((t =? "<") || (t =? ">"))%string.

Fixpoint parse_tokens (toks : list string) (j : job) : parsed :=
  match toks with
  | [] => Stored j
  | t :: rest =>
      if (t =? "<")%string then
        match rest with
        | [] => Stored (set_inFile None (set_isInput true j))
        | p :: rest' => parse_tokens rest' (set_inFile (Some p) (set_isInput true j))
        end
      else if (t =? ">")%string then
        match rest with
        | [] => Stored (set_outFile None (set_isOutput true j))
        | p :: rest' => parse_tokens rest' (set_outFile (Some p) (set_isOutput true j))
        end
      else if (t =? "&")%string then
        parse_tokens rest (set_isBackground true j)
      else
        match store_arg (argCount j) (Some t) j with
        | Stored j1 => parse_tokens rest (set_argCount (S (argCount j1)) j1)
        | PastArray i => PastArray i
        end
  end.

(** The tokens the parser stores in [args]: those that are neither an operator
    nor the token right after a redirection operator. *)
Fixpoint arg_tokens (toks : list string) : list string :=
  match toks with
  | [] => []
  | t :: rest =>
      if is_redirect t then
        match rest with
        | [] => []
        | _ :: rest' => arg_tokens rest'
        end
      else if (t =? "&")%string then arg_tokens rest
      else t :: arg_tokens rest
  end.

(** The tokens end in a redirection operator that still waits for its path:
    whatever token comes next is taken as that path. *)
Fixpoint awaiting_path (toks : list string) : bool :=
  match toks with
  | [] => false
  | t :: rest =>
      if is_redirect t then
        match rest with
        | [] => true
        | _ :: rest' => awaiting_path rest'
        end
      else awaiting_path rest
  end.

(** The redirection as the launcher reads it: the path, when the flag is set. *)
Definition input_redirect (j : job) : option string :=
  if isInput j then inFile j else None.
Definition output_redirect (j : job) : option string :=
  if isOutput j then outFile j else None.

(** The effect of a redirection operator that no token follows. *)
Definition dangling_redirect (op : string) (j : job) : job :=
  if (op =? "<")%string then set_inFile None (set_isInput true j)
  else set_outFile None (set_isOutput true j).

(** What the line [ls -l > out.txt &] is to be parsed into. *)
Definition parsed_as_ls (r : option parsed) : Prop :=
  exists jp,
    r = Some (Stored jp)
    /\ arguments jp = ["ls"; "-l"] /\ argCount jp = 2
    /\ isOutput jp = true /\ outFile jp = Some "out.txt"
    /\ output_redirect jp = Some "out.txt"
    /\ isBackground jp = true
    /\ isInput jp = false /\ input_redirect jp = None.

(** The job [parseCommandLine] leaves for a line with these tokens. *)
Definition job_of_tokens (toks : list string) : job :=
  match then_cap (parse_tokens toks (main_reset empty_job)) with
  | Stored j => j
  | PastArray _ => empty_job
  end.

(** Several calls recorded at once. *)
Definition add_calls (l : list syscall) (w : world) : world :=
  mkWorld (stdout w) (cwd w) (HOME w) (dir_of w) (calls w ++ l).

(** A well-formed token: not empty, and without a delimiter in it. *)
Fixpoint token_chars (t : string) : bool :=
  match t with
  | EmptyString => true
  | String c t' => negb (strchr TOKEN_DELIMITERS c) && token_chars t'
  end.

Definition token_ok (t : string) : bool :=
  match t with
  | EmptyString => false
  | String _ _ => token_chars t
  end.

(** The line made of the tokens, a space after each. *)
Fixpoint join_tokens (toks : list string) : string :=
  match toks with
  | [] => EmptyString
  | t :: rest => (t ++ String " " (join_tokens rest))%string
  end.

(** The line holds delimiters only. *)
Fixpoint all_delims (s : string) : bool :=
  match s with
  | EmptyString => true
  | String c s' => strchr TOKEN_DELIMITERS c && all_delims s'
  end.

(** A line of [n] one-letter arguments. *)
Fixpoint many_args (n : nat) : string :=
  match n with
  | 0 => newline
  | S n' => String "a" (String " " (many_args n'))
  end.

(** [W_EXITCODE(ret, sig)] of the C library: the status the kernel reports. *)
Definition W_EXITCODE (ret sig : Z) : Z := Z.lor (Z.shiftl ret 8) sig.

(** A status is terminal when the wait loop stops on it. *)
Definition terminal (status : Z) : bool := WIFEXITED status || WIFSIGNALED status.

(** A world to run examples in: the only directory [chdir] finds is [/home]. *)
Definition example_world : world :=
  mkWorld EmptyString "/" (Some "/home")
          (fun _ p => if (p =? "/home")%string then Some p else None) [].
Definition example_child_env : child_env :=
  mkChildEnv (fun _ => 3%Z) (fun _ _ => 0%Z) false.

(** * The one-time pad programs

    [char] values are signed bytes, kept as [Z]; a buffer is the list of its
    cells.  A load or a store outside a buffer is undefined in C: the model
    gives [None] for it. *)

Module Buf.

Local Open Scope Z_scope.

(** Integer arithmetic stored back into a [char]. *)
Definition to_char (x : Z) : Z := signed_char (x mod 256).

Definition load (i : Z) (buf : list Z) : option Z :=
  if i <? 0 then None else nth_error buf (Z.to_nat i).

Fixpoint store_nat (i : nat) (v : Z) (buf : list Z) : option (list Z) :=
  match buf, i with
  | [], _ => None
  | _ :: rest, O => Some (v :: rest)
  | x :: rest, S i' =>
      match store_nat i' v rest with
      | Some rest' => Some (x :: rest')
      | None => None
      end
  end.

Definition store (i : Z) (v : Z) (buf : list Z) : option (list Z) :=
  if i <? 0 then None else store_nat (Z.to_nat i) v buf.

(** The buffer with cell [i] replaced, when there is such a cell. *)
Fixpoint upd (i : nat) (v : Z) (buf : list Z) : list Z :=
  match buf, i with
  | [], _ => []
  | _ :: rest, O => v :: rest
  | x :: rest, S i' => x :: upd i' v rest
  end.

Definition bind {A B} (m : option A) (f : A -> option B) : option B :=
  match m with
  | Some a => f a
  | None => None
  end.

End Buf.

Module OtpDecD.

Import Buf.
Local Open Scope Z_scope.
Local Notation "x <- m ;; k" := (bind m (fun x => k))
  (at level 61, m at next level, right associativity).

(** The body of the loop of [encrypt], for the index [i]; [ciphertext] and
    [key] are two separate buffers. *)
Definition encrypt_at (i : Z) (st : list Z * list Z) : option (list Z * list Z) :=
  let (ciphertext, key) := st in
  c <- load i ciphertext ;;
  ciphertext <- (if c =? 32 then store i 26 ciphertext
                 else store i (to_char (c - 65)) ciphertext) ;;
  k <- load i key ;;
  key <- (if k =? 32 then store i 26 key else store i (to_char (k - 65)) key) ;;
  c <- load i ciphertext ;;
  k <- load i key ;;
  ciphertext <- store i (to_char (Z.rem (c - k + 27) 27)) ciphertext ;;
  c <- load i ciphertext ;;
  ciphertext <- (if c =? 26 then store i 32 ciphertext
                 else store i (to_char (c + 65)) ciphertext) ;;
  Some (ciphertext, key).

(** [for (i = 0; i < length; i++)], with [n] passes left. *)
Fixpoint encrypt_loop (n : nat) (i : Z) (st : list Z * list Z)
  : option (list Z * list Z) :=
  match n with
  | O => Some st
  | S n' => st' <- encrypt_at i st ;; encrypt_loop n' (i + 1) st'
  end.

(** [encrypt]: the buffers as the call leaves them (the returned pointer is
    [ciphertext]). *)
Definition encrypt (ciphertext key : list Z) (length : Z)
  : option (list Z * list Z) :=
  st <- encrypt_loop (Z.to_nat length) 0 (ciphertext, key) ;;
  let i := Z.max length 0 in
  ciphertext' <- store (i - 1) 10 (fst st) ;;
  Some (ciphertext', snd st).

(** What one pass of the loop leaves in the cell of the text and in the cell
    of the key, from what they held. *)
Definition key_code (k : Z) : Z := if k =? 32 then 26 else to_char (k - 65).
Definition decode_char (c k : Z) : Z :=
  let c2 := to_char (Z.rem (key_code c - key_code k + 27) 27) in
  if c2 =? 26 then 32 else to_char (c2 + 65).

(** The index [j] is one of the [n] indices from [i] on. *)
Definition in_range (i n j : nat) : bool := (Nat.leb i j && Nat.ltb j (i + n))%bool.

(** The letters of the pad: [A] to [Z] and the space; their numbers 0 to 26. *)
Definition in_alphabet (c : Z) : Prop := 65 <= c <= 90 \/ c = 32.
Definition code (c : Z) : Z := if c =? 32 then 26 else c - 65.
Definition letter (n : Z) : Z := if n =? 26 then 32 else n + 65.

End OtpDecD.

Module OtpDec.

Local Open Scope Z_scope.

(** An open file: its bytes and the offset of the next read. *)
Record file := mkFile {
  content : list Z;
  offset : nat
}.

(** The test of [validateInput] for a bad character. *)
Definition bad_char (c : Z) : bool :=
  ((c <? 65) || (c >? 90)) && negb (c =? 32) && negb (c =? 10).

(** The largest [int]. *)
Definition INT_MAX : Z := 2147483647.

(** The loop of [validateInput] on the bytes not yet read, each pass one
    [read] of one byte; at the end of the file [lseek] sets the offset to 0.
    [fileLength] is an [int]: [fileLength++] at [INT_MAX] overflows, which is
    undefined in C, and the model gives [None] for it. *)
Fixpoint validate_loop (unread : list Z) (off : nat) (fileLength : Z)
  : option (Z * nat) :=
  match unread with
  | [] => Some (fileLength, O)
  | c :: rest =>
      if bad_char c then Some (-1, S off)
      else if fileLength <? INT_MAX then validate_loop rest (S off) (fileLength + 1)
      else None
  end.

Definition validateInput (inputFile : file) : option (Z * file) :=
  match validate_loop (skipn (offset inputFile) (content inputFile))
                      (offset inputFile) 0 with
  | Some (r, off) => Some (r, mkFile (content inputFile) off)
  | None => None
  end.

(** How [main] ends before it turns to the network, or that it goes on. *)
Inductive checked :=
| OpenFailed                 (* [perror("open")], exit 1 *)
| BadCharacters              (* "... error: input contains bad characters", exit 1 *)
| KeyTooShort                (* "Error: key '...' is too short", exit 1 *)
| Connects (ciphertext key : file)
| Undefined.                 (* [fileLength] overflowed in [validateInput] *)

(** The start of [main]: the files are opened ([None]: [open] returns -1),
    both are validated, then the lengths are compared. *)
Definition check_files (ciphertextFile keyFile : option (list Z)) : checked :=
  match ciphertextFile with
  | None => OpenFailed
  | Some ctext =>
      match keyFile with
      | None => OpenFailed
      | Some ktext =>
          match validateInput (mkFile ctext O), validateInput (mkFile ktext O) with
          | Some (ciphertextLength, ciphertext), Some (keyLength, key) =>
              if (ciphertextLength =? -1) || (keyLength =? -1) then BadCharacters
              else if ciphertextLength >? keyLength then KeyTooShort
              else Connects ciphertext key
          | _, _ => Undefined
          end
      end
  end.

End OtpDec.

Module Keygen.

Local Open Scope Z_scope.

(** The loop of [main]: [n] passes left, [i] the number of calls of [rand]
    made so far; [rand k] is what the [k]-th call returns.  The result is what
    is printed. *)
Fixpoint key_loop (n : nat) (i : nat) (rand : nat -> Z) : list Z :=
  match n with
  | O => []
  | S n' =>
      let randomNum := Z.rem (rand i) 27 in
      (if randomNum =? 26 then 32 else randomNum + 65) :: key_loop n' (S i) rand
  end.

(** [main] with the right number of arguments, [keyLength] being
    [atoi(argv[1])]: the key and the closing newline. *)
Definition keygen (keyLength : Z) (rand : nat -> Z) : list Z :=
  key_loop (Z.to_nat keyLength) O rand ++ [10].

(** What [main] prints and the code it exits with; [argv] includes the name of
    the program. *)
Definition main (atoi : string -> Z) (rand : nat -> Z) (argv : list string)
  : (string + list Z) * Z :=
  match argv with
  | [_; arg] => (inr (keygen (atoi arg) rand), 0)
  | _ => (inl ("Usage: keygen keylength" ++ newline)%string, 1)
  end.

End Keygen.

(** * The adventure game: [createRooms]

    [rand()] never returns a negative number: its results are [nat].  The
    memory [malloc] returns is not initialised: what the cells of
    [adjacentRooms] hold at first is a parameter.  The loops that roll again
    until a number fits use up a list of random numbers, and [NeedsRand] is the
    outcome when the list ends inside one of them. *)

Module Adventure.

Local Open Scope nat_scope.

Inductive outcome (A : Type) :=
| Done (a : A)
| NeedsRand
| OutOfBounds.     (* a store outside [adjacentRooms] *)

Arguments Done {A} a.
Arguments NeedsRand {A}.
Arguments OutOfBounds {A}.

Record room := mkRoom {
  id : nat;
  name : string;
  roomType : string;
  adjacentRooms : list Z;     (* int adjacentRooms[6] *)
  counter : nat
}.

Definition roomNames : list string :=
  ["Ankh-Morpork"; "Pseudopolis"; "Klatch"; "Uberwald"; "Ramtops"; "The Rim";
   "Ephebe"; "Great Nef"; "Krull"; "Borogravia"]%string.

(** A room of the array as [malloc] leaves it, its counter set to 0 by the
    first loop. *)
Definition fresh_room (cells : nat -> Z) : room :=
  mkRoom 0 EmptyString EmptyString (map cells (seq 0 6)) 0.

Definition fresh_rooms (garbage : nat -> nat -> Z) : list room :=
  map (fun j => fresh_room (garbage j)) (seq 0 7).

Definition no_room : room := mkRoom 0 EmptyString EmptyString [] 0.

(** [roomArray[j]] and [roomArray[j] = r]. *)
Definition get (j : nat) (rooms : list room) : room := nth j rooms no_room.

Fixpoint set (j : nat) (r : room) (rooms : list room) : list room :=
  match rooms, j with
  | [], _ => []
  | _ :: rest, O => r :: rest
  | x :: rest, S j' => x :: set j' r rest
  end.

(** [while (roomNameAvailable[roomNameNum] == 0) roomNameNum = rand() % 10]. *)
Fixpoint reroll_name (avail : list bool) (rands : list nat) (roomNameNum : nat)
  : option (nat * list nat) :=
  if nth roomNameNum avail false then Some (roomNameNum, rands)
  else match rands with
       | [] => None
       | x :: rest => reroll_name avail rest (x mod 10)
       end.

Fixpoint set_flag (i : nat) (b : bool) (l : list bool) : list bool :=
  match l, i with
  | [], _ => []
  | _ :: rest, O => b :: rest
  | x :: rest, S i' => x :: set_flag i' b rest
  end.

(** The second loop, for the rooms [ids]: id, name and type. *)
Fixpoint name_rooms (ids : list nat) (st : list room * list bool * list nat)
  : outcome (list room * list bool * list nat) :=
  match ids with
  | [] => Done st
  | i :: ids' =>
      let '(rooms, avail, rands) := st in
      match rands with
      | [] => NeedsRand
      | x :: rest =>
          match reroll_name avail rest (x mod 10) with
          | None => NeedsRand
          | Some (roomNameNum, rest') =>
              let r := get i rooms in
              let r' := mkRoom i (nth roomNameNum roomNames EmptyString) "MID_ROOM"
                               (adjacentRooms r) (counter r) in
              name_rooms ids' (set i r' rooms, set_flag roomNameNum false avail, rest')
          end
      end
  end.

(** The connections a room has: the cells below its counter. *)
Definition adj (r : room) : list Z := firstn (counter r) (adjacentRooms r).

(** The [do ... while] of the connection loop for the room [r]: the number
    kept, whether it is new to the room, and the random numbers left. *)
Fixpoint roll (r : room) (rands : list nat) : option (nat * bool * list nat) :=
  match rands with
  | [] => None
  | x :: rest =>
      let connection := x mod 7 in
      let unique := negb (existsb (Z.eqb (Z.of_nat connection)) (adj r)) in
      if (connection =? id r)
         || (Z.of_nat connection =? nth 0 (adjacentRooms r) 0%Z)%Z
         || (Z.of_nat connection =? nth 1 (adjacentRooms r) 0%Z)%Z
      then roll r rest
      else Some (connection, unique, rest)
  end.

(** [r.adjacentRooms[r.counter] = to; r.counter++]. *)
Definition add_connection (to : nat) (r : room) : option room :=
  match Buf.store_nat (counter r) (Z.of_nat to) (adjacentRooms r) with
  | Some cells => Some (mkRoom (id r) (name r) (roomType r) cells (S (counter r)))
  | None => None
  end.

Definition link (j connection : nat) (rooms : list room) : option (list room) :=
  match add_connection connection (get j rooms) with
  | None => None
  | Some rj =>
      let rooms1 := set j rj rooms in
      match add_connection j (get connection rooms1) with
      | None => None
      | Some rc => Some (set connection rc rooms1)
      end
  end.

(** One pass of the body of [for (j = 0; j < 7; j++)]. *)
Definition connect_room (j : nat) (st : list room * list nat)
  : outcome (list room * list nat) :=
  let (rooms, rands) := st in
  match roll (get j rooms) rands with
  | None => NeedsRand
  | Some (connection, unique, rest) =>
      if unique then
        match link j connection rooms with
        | Some rooms' => Done (rooms', rest)
        | None => OutOfBounds
        end
      else Done (rooms, rest)
  end.

Fixpoint connect_rooms (js : list nat) (st : list room * list nat)
  : outcome (list room * list nat) :=
  match js with
  | [] => Done st
  | j :: js' =>
      match connect_room j st with
      | Done st' => connect_rooms js' st'
      | NeedsRand => NeedsRand
      | OutOfBounds => OutOfBounds
      end
  end.

(** [for (i = 0; i < 3; i++) for (j = 0; j < 7; j++)]. *)
Definition connect_all (st : list room * list nat) : outcome (list room * list nat) :=
  connect_rooms (seq 0 7 ++ seq 0 7 ++ seq 0 7) st.

(** [while (endRoom == startRoom) endRoom = rand() % 7]. *)
Fixpoint reroll_end (startRoom : nat) (rands : list nat) (endRoom : nat)
  : option (nat * list nat) :=
  if endRoom =? startRoom then
    match rands with
    | [] => None
    | x :: rest => reroll_end startRoom rest (x mod 7)
    end
  else Some (endRoom, rands).

Definition set_type (t : string) (r : room) : room :=
  mkRoom (id r) (name r) t (adjacentRooms r) (counter r).

Definition pick_ends (st : list room * list nat) : outcome (list room * list nat) :=
  let (rooms, rands) := st in
  match rands with
  | x :: y :: rest =>
      let startRoom := x mod 7 in
      match reroll_end startRoom rest (y mod 7) with
      | None => NeedsRand
      | Some (endRoom, rest') =>
          let rooms1 := set startRoom (set_type "START_ROOM" (get startRoom rooms)) rooms in
          Done (set endRoom (set_type "END_ROOM" (get endRoom rooms1)) rooms1, rest')
      end
  | _ => NeedsRand
  end.

(** The array of rooms as [createRooms] has it when it starts to write the
    files. *)
Definition build_rooms (garbage : nat -> nat -> Z) (rands : list nat)
  : outcome (list room * list nat) :=
  match name_rooms (seq 0 7) (fresh_rooms garbage, repeat true 10, rands) with
  | Done (rooms, _, rands1) =>
      match connect_all (rooms, rands1) with
      | Done st => pick_ends st
      | NeedsRand => NeedsRand
      | OutOfBounds => OutOfBounds
      end
  | NeedsRand => NeedsRand
  | OutOfBounds => OutOfBounds
  end.

(** What [fprintf] writes for the room [r]. *)
Fixpoint connection_lines (rooms : list room) (j : nat) (cells : list Z) : string :=
  match cells with
  | [] => EmptyString
  | c :: cells' =>
      ("CONNECTION " ++ dec (Z.of_nat j + 1) ++ ": "
       ++ name (get (Z.to_nat c) rooms) ++ newline
       ++ connection_lines rooms (S j) cells')%string
  end.

Definition room_file (rooms : list room) (r : room) : string :=
  ("ROOM NAME: " ++ name r ++ newline
   ++ connection_lines rooms 0 (adj r)
   ++ "ROOM TYPE: " ++ roomType r ++ newline ++ newline)%string.

(** The files written: the path of each and what it holds, in the order of
    the array. *)
Definition room_files (roomDir : string) (rooms : list room) : list (string * string) :=
  map (fun r => ((roomDir ++ name r)%string, room_file rooms r)) rooms.

(** The rooms are linked as the header of [createRooms] says: every room
    carries its own number and six cells; its connections are distinct rooms
    other than itself, and each of them is connected back. *)
Definition well_linked (rooms : list room) : Prop :=
  length rooms = 7
  /\ forall a, a < 7 ->
       id (get a rooms) = a
       /\ length (adjacentRooms (get a rooms)) = 6
       /\ counter (get a rooms) <= 6
       /\ NoDup (adj (get a rooms))
       /\ forall x, In x (adj (get a rooms)) ->
            exists b, b < 7 /\ b <> a /\ x = Z.of_nat b
                      /\ In (Z.of_nat a) (adj (get b rooms)).

(** What a link adds to the connections of the room [a]. *)
Definition linked_to (j connection a : nat) : list Z :=
  if a =? j then [Z.of_nat connection]
  else if a =? connection then [Z.of_nat j] else [].

(** The rooms below [m] are named, with different names that are marked as
    taken; every room still has no connection. *)
Definition named (m : nat) (rooms : list room) (avail : list bool) : Prop :=
  length rooms = 7 /\ length avail = 10
  /\ (forall a, a < 7 ->
        counter (get a rooms) = 0
        /\ length (adjacentRooms (get a rooms)) = 6)
  /\ (forall a, a < m ->
        id (get a rooms) = a
        /\ roomType (get a rooms) = "MID_ROOM"%string
        /\ exists k, k < 10
             /\ name (get a rooms)
                = nth k roomNames EmptyString
             /\ nth k avail false = false)
  /\ (forall a b, a < m -> b < m -> a <> b ->
        name (get a rooms) <> name (get b rooms)).

Definition example_rands : list nat :=
  [0; 1; 2; 3; 4; 5; 6;
   1; 2; 3; 4; 5; 6; 0;
   2; 3; 4; 5; 6; 0; 1;
   3; 4; 5; 6; 0; 1; 2;
   0; 0; 6].

End Adventure.

(** * The adventure game: [playGame]

    The room directory is the list of its regular files, name and content, in
    the order [readdir] gives them.  What the player types is the list of the
    lines [fgets] returns from the terminal.  A copy that does not fit its
    array, a read before or after the cells of an array, or a pointer past the
    end of the line read are undefined in C: the outcome is [Undefined]. *)

Module Game.

Local Open Scope nat_scope.
Local Open Scope string_scope.

(** [strstr(hay, needle) != NULL]. *)
Fixpoint strstr (hay needle : string) : bool :=
  if String.prefix needle hay then true
  else match hay with
       | EmptyString => false
       | String _ hay' => strstr hay' needle
       end.

(** The strings the successive [fgets(line, 100, f)] return on what is left
    of a file: each one ends with the first newline or after 99 characters.
    [left] is the room left in the current line, [acc] what it holds. *)
Fixpoint fgets_lines (left : nat) (acc : string) (s : string) : list string :=
  match s with
  | EmptyString => match acc with EmptyString => [] | _ => [acc] end
  | String c s' =>
      if Ascii.eqb c "010" then (acc ++ String c EmptyString) :: fgets_lines 99 EmptyString s'
      else match left with
           | 0 | 1 => (acc ++ String c EmptyString) :: fgets_lines 99 EmptyString s'
           | S left' => fgets_lines left' (acc ++ String c EmptyString) s'
           end
  end.

Definition file_lines (content : string) : list string :=
  fgets_lines 99 EmptyString content.

(** [if (s[strlen(s) - 1] == '\n') s[strlen(s) - 1] = 0], for a string that is
    not empty. *)
Fixpoint chomp (s : string) : string :=
  match s with
  | EmptyString => EmptyString
  | String c EmptyString => if Ascii.eqb c "010" then EmptyString else s
  | String c s' => String c (chomp s')
  end.

(** [&line[n]]: [None] when it points past the end of the string. *)
Fixpoint from (n : nat) (line : string) : option string :=
  match n, line with
  | 0, _ => Some line
  | S _, EmptyString => None
  | S n', String _ line' => from n' line'
  end.

(** The details of the current room, as read from its file. *)
Record details := mkDetails {
  roomName : string;               (* char roomName[20] *)
  roomConnections : list string;   (* the first numConnections rows of
                                      char roomConnections[6][20] *)
  roomType : string                (* char roomType[20] *)
}.

(** [strcpy] into an array of 20 characters. *)
Definition fits (s : string) : bool := (String.length s <? 20)%nat.

(** One pass of the loop that reads the room file, on the line [fgets]
    returned; [None] for undefined behaviour. *)
Definition read_line (line : string) (d : details) : option details :=
  let line := chomp line in
  let d1 :=
    if strstr line "ROOM NAME" then
      match from 11 line with
      | Some s => if fits s then Some (mkDetails s (roomConnections d) (roomType d))
                  else None
      | None => None
      end
    else Some d in
  let d2 :=
    match d1 with
    | None => None
    | Some d1 =>
        if strstr line "CONNECTION" then
          match from 14 line with
          | Some s =>
              if fits s && (List.length (roomConnections d1) <? 6)%nat
              then Some (mkDetails (roomName d1) (roomConnections d1 ++ [s])%list (roomType d1))
              else None
          | None => None
          end
        else Some d1
    end in
  match d2 with
  | None => None
  | Some d2 =>
      if strstr line "ROOM TYPE" then
        match from 11 line with
        | Some s => if fits s then Some (mkDetails (roomName d2) (roomConnections d2) s)
                    else None
        | None => None
        end
      else Some d2
  end.

Fixpoint read_lines (lines : list string) (d : details) : option details :=
  match lines with
  | [] => Some d
  | line :: rest =>
      match read_line line d with
      | Some d' => read_lines rest d'
      | None => None
      end
  end.

(** Reading the file of the current room: [numConnections = 0], then every
    line. *)
Definition read_room (content : string) (d : details) : option details :=
  read_lines (file_lines content) (mkDetails (roomName d) [] (roomType d)).

Definition lookup (name : string) (files : list (string * string)) : option string :=
  match find (fun f => (fst f =? name)%string) files with
  | Some f => Some (snd f)
  | None => None
  end.

(** The search for the start room: the name kept is that of the last file with
    a line holding [START_ROOM]; [None] for a name that does not fit. *)
Fixpoint find_start (files : list (string * string)) (name : string) : option string :=
  match files with
  | [] => Some name
  | (d_name, content) :: rest =>
      if existsb (fun line => strstr line "START_ROOM") (file_lines content)
      then if fits d_name then find_start rest d_name else None
      else find_start rest name
  end.

Inductive outcome :=
| Won (out : string)            (* [playGame] returns from the end room *)
| OpenError (out : string)      (* a room file cannot be opened: returns *)
| AwaitsInput (out : string)    (* waits for the player *)
| Undefined.

(** The prompt for the room. *)
Fixpoint connections_text (conns : list string) : string :=
  match conns with
  | [] => EmptyString
  | [c] => " " ++ c ++ "." ++ newline
  | c :: rest => " " ++ c ++ "," ++ connections_text rest
  end.

Definition prompt_text (d : details) : string :=
  newline ++ "CURRENT LOCATION: " ++ roomName d ++ newline
  ++ "POSSIBLE CONNECTIONS:" ++ connections_text (roomConnections d)
  ++ "WHERE TO? >".

Fixpoint path_text (path : list string) : string :=
  match path with
  | [] => EmptyString
  | r :: rest => r ++ newline ++ path_text rest
  end.

(** [path] holds the rooms entered, the start room first. *)
Definition win_text (path : list string) : string :=
  newline ++ "YOU HAVE FOUND THE END ROOM. CONGRATULATIONS!" ++ newline
  ++ "YOU TOOK " ++ dec (Z.of_nat (List.length path) - 1)
  ++ " STEPS. YOUR PATH TO VICTORY WAS:" ++ newline
  ++ path_text (tl path).

(** The top of the game loop, from the name of the room to enter: the file is
    read and the room recorded in [path]; [inl] when the game is over. *)
Definition enter_room (files : list (string * string)) (d : details)
                      (path : list string) (out : string)
  : outcome + details * list string :=
  match lookup (roomName d) files with
  | None => inl (OpenError (out ++ "Error: Unable to open file"))
  | Some content =>
      match read_room content d with
      | None => inl Undefined
      | Some d' =>
          if (List.length path <? 30)%nat then
            let path' := (path ++ [roomName d'])%list in
            if (roomType d' =? "END_ROOM")%string then inl (Won (out ++ win_text path'))
            else inr (d', path')
          else inl Undefined
      end
  end.

(** The game from the prompt of a room on, on the lines the player types. *)
Fixpoint prompts (files : list (string * string)) (inputs : list string)
                 (d : details) (path : list string) (out : string) : outcome :=
  match roomConnections d with
  | [] => Undefined     (* roomConnections[numConnections - 1] with no row *)
  | _ :: _ =>
      let out1 := out ++ prompt_text d in
      match inputs with
      | [] => AwaitsInput out1
      | typed :: rest =>
          let whereTo := chomp typed in
          if existsb (String.eqb whereTo) (roomConnections d) then
            match enter_room files (mkDetails whereTo (roomConnections d) (roomType d))
                             path out1 with
            | inl o => o
            | inr (d', path') => prompts files rest d' path' out1
            end
          else
            prompts files rest d path
              (out1 ++ newline ++ "HUH? I DON'T UNDERSTAND THAT ROOM. TRY AGAIN." ++ newline)
      end
  end.

(** [playGame] on a directory that opens; [garbage] is what the arrays
    [roomName] and [roomType] hold before anything is copied into them. *)
Definition playGame (files : list (string * string)) (inputs : list string)
                    (garbage : details) : outcome :=
  match find_start files (roomName garbage) with
  | None => Undefined
  | Some start =>
      match enter_room files (mkDetails start [] (roomType garbage)) [] EmptyString with
      | inl o => o
      | inr (d, path) => prompts files inputs d path EmptyString
      end
  end.

(** The room directory after [createRooms]: a file per room, under its name. *)
Definition directory (rooms : list Adventure.room) : list (string * string) :=
  map (fun r => (Adventure.name r, Adventure.room_file rooms r)) rooms.

(** The names of the rooms the cells stand for. *)
Definition connection_names (rooms : list Adventure.room) (cells : list Z) : list string :=
  map (fun c => Adventure.name (Adventure.get (Z.to_nat c) rooms)) cells.

Definition roomTypes : list string := ["MID_ROOM"; "START_ROOM"; "END_ROOM"].

(** A line of a room file without its newline: it is one [fgets] long, and
    [read_line] takes from it its kind and the text after its label. *)
Fixpoint no_newline (s : string) : bool :=
  match s with
  | EmptyString => true
  | String c s' => negb (Ascii.eqb c "010") && no_newline s'
  end.

Definition line_reads (line : string) (is_name is_connection is_type : bool)
                      (label : nat) (text : string) : bool :=
  no_newline line && (String.length line <? 99)%nat
  && Bool.eqb (strstr line "ROOM NAME") is_name
  && Bool.eqb (strstr line "CONNECTION") is_connection
  && Bool.eqb (strstr line "ROOM TYPE") is_type
  && match from label line with
     | Some s => (s =? text)%string
     | None => false
     end
  && fits text
  && Bool.eqb (strstr (line ++ newline) "START_ROOM") (text =? "START_ROOM")%string.

Definition name_line (n : string) : string := "ROOM NAME: " ++ n.
Definition connection_line (j : nat) (n : string) : string :=
  "CONNECTION " ++ dec (Z.of_nat j + 1) ++ ": " ++ n.
Definition type_line (t : string) : string := "ROOM TYPE: " ++ t.

(** What the game loop holds for the room [a] once it has read its file. *)
Definition details_of (rooms : list Adventure.room) (a : nat) : details :=
  let r := Adventure.get a rooms in
  mkDetails (Adventure.name r) (connection_names rooms (Adventure.adj r))
            (Adventure.roomType r).

(** The lines a player types to go through the rooms [w]. *)
Definition typed (rooms : list Adventure.room) (w : list nat) : list string :=
  map (fun b => Adventure.name (Adventure.get b rooms) ++ newline) w.

(** Every move of [w], from the room [a] on, leaves a room that is not the end
    room for one of its connections. *)
Fixpoint moves (rooms : list Adventure.room) (a : nat) (w : list nat) : Prop :=
  match w with
  | [] => True
  | b :: w' =>
      Adventure.roomType (Adventure.get a rooms) <> "END_ROOM"
      /\ (b < 7)%nat
      /\ In (Z.of_nat b) (Adventure.adj (Adventure.get a rooms))
      /\ moves rooms b w'
  end.

(** The prompts of the rooms left by the moves [w], from the room [a] on. *)
Fixpoint walk_text (rooms : list Adventure.room) (a : nat) (w : list nat) : string :=
  match w with
  | [] => EmptyString
  | b :: w' => prompt_text (details_of rooms a) ++ walk_text rooms b w'
  end.

(** The game from the top of the game loop on, [roomName] holding [name]. *)
Definition arrive (files : list (string * string)) (name : string) (inputs : list string)
                  (path : list string) (out : string) : outcome :=
  match enter_room files (mkDetails name [] EmptyString) path out with
  | inl o => o
  | inr (d, p) => prompts files inputs d p out
  end.

(** The array [createRooms] writes to the files, with the start room [s] and
    the end room [e]. *)
Definition built (rooms : list Adventure.room) (s e : nat) : Prop :=
  Adventure.well_linked rooms
  /\ (forall a, (a < 7)%nat -> (3 <= Adventure.counter (Adventure.get a rooms) <= 6)%nat)
  /\ (forall a b, (a < 7)%nat -> (b < 7)%nat -> a <> b ->
        Adventure.name (Adventure.get a rooms) <> Adventure.name (Adventure.get b rooms))
  /\ (forall a, (a < 7)%nat ->
        In (Adventure.name (Adventure.get a rooms)) Adventure.roomNames)
  /\ (s < 7)%nat /\ (e < 7)%nat /\ s <> e
  /\ forall a, (a < 7)%nat ->
       Adventure.roomType (Adventure.get a rooms)
       = if (a =? e)%nat then "END_ROOM"
         else if (a =? s)%nat then "START_ROOM" else "MID_ROOM".

(** The rooms of a run of [createRooms] that ends. *)
Definition example_rooms : list Adventure.room :=
  Eval vm_compute in
  match Adventure.build_rooms (fun _ _ => 0%Z) Adventure.example_rands with
  | Adventure.Done (rooms, _) => rooms
  | _ => []
  end.



End Game.

(** * Properties *)

(** ** [strtok] and the token sequence *)

Lemma skip_delims_length d s :
  String.length (skip_delims d s) <= String.length s.
Proof.
  induction s as [|c s IH]; simpl; [lia|].
  destruct (strchr d c); simpl; lia.
Qed.

Lemma scan_token_length d s :
  String.length (snd (scan_token d s)) <= String.length s.
Proof.
  induction s as [|c s IH]; simpl; [lia|].
  destruct (strchr d c); simpl; [lia|].
  destruct (scan_token d s) as [tok save]; simpl in *; lia.
Qed.

Lemma strtok_shorter d s t r :
  strtok d s = (Some t, r) -> String.length r < String.length s.
Proof.
  unfold strtok. pose proof (skip_delims_length d s) as Hs.
  destruct (skip_delims d s) as [|c s'] eqn:E; [discriminate|].
  pose proof (scan_token_length d (String c s')) as Hl.
  simpl in Hl. simpl.
  destruct (strchr d c).
  - intros H. inversion H; subst. simpl in *. lia.
  - destruct (scan_token d s') as [tok save] eqn:E2. intros H.
    inversion H; subst. pose proof (scan_token_length d s') as H2.
    rewrite E2 in H2. simpl in *. lia.
Qed.

Lemma strtok_none d s r : strtok d s = (None, r) -> r = EmptyString.
Proof.
  unfold strtok. destruct (skip_delims d s) as [|c s'].
  - intros H. inversion H. reflexivity.
  - destruct (scan_token d (String c s')). discriminate.
Qed.

Lemma strtok_empty d : strtok d EmptyString = (None, EmptyString).
Proof. reflexivity. Qed.

Lemma tokens_from_fuel f1 : forall f2 s,
  String.length s < f1 -> String.length s < f2 ->
  tokens_from f1 s = tokens_from f2 s.
Proof.
  induction f1 as [|f1 IH]; intros f2 s H1 H2; [lia|].
  destruct f2 as [|f2]; [lia|]. simpl.
  destruct (strtok TOKEN_DELIMITERS s) as [[t|] r] eqn:E; [|reflexivity].
  apply strtok_shorter in E. f_equal. apply IH; lia.
Qed.

Lemma tokens_from_S fuel s :
  tokens_from (S fuel) s =
  match strtok TOKEN_DELIMITERS s with
  | (None, _) => []
  | (Some t, save') => t :: tokens_from fuel save'
  end.
Proof. reflexivity. Qed.

Lemma tokenize_unfold s :
  tokenize s =
  match strtok TOKEN_DELIMITERS s with
  | (None, _) => []
  | (Some t, r) => t :: tokenize r
  end.
Proof.
  unfold tokenize. rewrite tokens_from_S.
  destruct (strtok TOKEN_DELIMITERS s) as [[t|] r] eqn:E; [|reflexivity].
  apply strtok_shorter in E. f_equal. apply tokens_from_fuel; lia.
Qed.

(** ** The parser's loop, read on the token sequence *)

Lemma parse_tokens_cons t rest j :
  parse_tokens (t :: rest) j =
  if (t =? "<")%string then
    match rest with
    | [] => Stored (set_inFile None (set_isInput true j))
    | p :: rest' => parse_tokens rest' (set_inFile (Some p) (set_isInput true j))
    end
  else if (t =? ">")%string then
    match rest with
    | [] => Stored (set_outFile None (set_isOutput true j))
    | p :: rest' => parse_tokens rest' (set_outFile (Some p) (set_isOutput true j))
    end
  else if (t =? "&")%string then
    parse_tokens rest (set_isBackground true j)
  else
    match store_arg (argCount j) (Some t) j with
    | Stored j1 => parse_tokens rest (set_argCount (S (argCount j1)) j1)
    | PastArray i => PastArray i
    end.
Proof. reflexivity. Qed.

(** One pass of the loop body consumes the tokens the list reading consumes,
    and leaves a shorter buffer whenever it leaves a token. *)
Lemma parse_body_tokens t save j :
  match parse_body t save j with
  | (Some t', save', Stored j') =>
      parse_tokens (t :: tokenize save) j = parse_tokens (t' :: tokenize save') j'
      /\ String.length save' < String.length save
  | (None, _, Stored j') => parse_tokens (t :: tokenize save) j = Stored j'
  | (_, _, PastArray i) => parse_tokens (t :: tokenize save) j = PastArray i
  end.
Proof.
  rewrite parse_tokens_cons. unfold parse_body.
  rewrite (tokenize_unfold save).
  destruct (t =? "<")%string; [|destruct (t =? ">")%string; [|destruct (t =? "&")%string]].
  1,2: destruct (strtok TOKEN_DELIMITERS save) as [[p|] save1] eqn:E1;
       [ pose proof (strtok_shorter _ _ _ _ E1);
         rewrite (tokenize_unfold save1);
         destruct (strtok TOKEN_DELIMITERS save1) as [[t2|] save2] eqn:E2;
         [ pose proof (strtok_shorter _ _ _ _ E2); split; [reflexivity | lia]
         | reflexivity ]
       | apply strtok_none in E1; subst save1; rewrite strtok_empty; reflexivity ].
  - destruct (strtok TOKEN_DELIMITERS save) as [[t2|] save2] eqn:E2;
      [ pose proof (strtok_shorter _ _ _ _ E2); split; [reflexivity | lia]
      | reflexivity ].
  - destruct (store_arg (argCount j) (Some t) j) as [j1|i]; [|reflexivity].
    destruct (strtok TOKEN_DELIMITERS save) as [[t2|] save2] eqn:E2;
      [ pose proof (strtok_shorter _ _ _ _ E2); split; [reflexivity | lia]
      | reflexivity ].
Qed.

Lemma parse_loop_tokens fuel : forall t save j,
  String.length save < fuel ->
  parse_loop fuel (Some t) save j = Some (parse_tokens (t :: tokenize save) j).
Proof.
  induction fuel as [|fuel IH]; intros t save j Hlen; [lia|].
  cbn [parse_loop].
  pose proof (parse_body_tokens t save j) as Hb.
  destruct (parse_body t save j) as [[[t'|] save'] [j'|i]].
  - destruct Hb as [Heq Hlt]. rewrite Heq. apply IH. lia.
  - rewrite Hb. reflexivity.
  - rewrite Hb. destruct fuel; reflexivity.
  - rewrite Hb. reflexivity.
Qed.

(** The parser is the list reading of the line's tokens, capped. *)
Lemma parseCommandLine_tokens rawInput j :
  parseCommandLine rawInput j = Some (then_cap (parse_tokens (tokenize rawInput) j)).
Proof.
  unfold parseCommandLine. rewrite (tokenize_unfold rawInput).
  destruct (strtok TOKEN_DELIMITERS rawInput) as [[t|] save] eqn:E.
  - apply strtok_shorter in E. rewrite parse_loop_tokens by exact E. reflexivity.
  - destruct (String.length rawInput); reflexivity.
Qed.

(** The loop is always left within the fuel [parseCommandLine] gives it. *)
Lemma parseCommandLine_total rawInput j :
  exists p, parseCommandLine rawInput j = Some p.
Proof. rewrite parseCommandLine_tokens. eexists. reflexivity. Qed.

(** Induction on a token list along the parser's own recursion: a redirection
    operator takes the token after it, any other token stands alone. *)
Lemma token_ind (P : list string -> Prop) :
  P [] ->
  (forall t, is_redirect t = true -> P [t]) ->
  (forall t p rest, is_redirect t = true -> P rest -> P (t :: p :: rest)) ->
  (forall t rest, is_redirect t = false -> P rest -> P (t :: rest)) ->
  forall toks, P toks.
Proof.
  intros Hnil Hlast Hredir Hother.
  assert (H : forall toks, P toks /\ forall t, P (t :: toks)).
  { induction toks as [|p rest [IH1 IH2]].
    - split; [exact Hnil|]. intros t.
      destruct (is_redirect t) eqn:E; [apply Hlast | apply Hother]; assumption.
    - split; [apply IH2|]. intros t.
      destruct (is_redirect t) eqn:E; [apply Hredir | apply Hother]; auto. }
  intros toks. apply H.
Qed.

Lemma is_redirect_false t :
  is_redirect t = false -> (t =? "<")%string = false /\ (t =? ">")%string = false.
Proof. unfold is_redirect. apply orb_false_elim. Qed.

Lemma is_redirect_true t :
  is_redirect t = true -> t = "<" \/ t = ">".
Proof.
  unfold is_redirect. intros H. apply orb_true_iff in H.
  destruct H as [H|H]; apply String.eqb_eq in H; auto.
Qed.

Lemma store_arg_in i v j :
  i < COMMAND_LINE_ARG ->
  store_arg i v j = Stored (set_args (array_store i v (args j)) j).
Proof.
  intros H. unfold store_arg. apply Nat.ltb_lt in H. rewrite H. reflexivity.
Qed.

Lemma store_arg_out i v j :
  COMMAND_LINE_ARG <= i -> store_arg i v j = PastArray i.
Proof.
  intros H. unfold store_arg. apply Nat.ltb_ge in H. rewrite H. reflexivity.
Qed.

Lemma arg_tokens_redirect t p rest :
  is_redirect t = true -> arg_tokens (t :: p :: rest) = arg_tokens rest.
Proof. intros Ht. cbn [arg_tokens]. rewrite Ht. reflexivity. Qed.

Lemma arg_tokens_last t : is_redirect t = true -> arg_tokens [t] = [].
Proof. intros Ht. cbn [arg_tokens]. rewrite Ht. reflexivity. Qed.

Lemma arg_tokens_other t rest :
  is_redirect t = false ->
  arg_tokens (t :: rest)
  = if (t =? "&")%string then arg_tokens rest else t :: arg_tokens rest.
Proof. intros Ht. cbn [arg_tokens]. rewrite Ht. reflexivity. Qed.

(** As long as the arguments fit the array, the parser stores them at the
    successive indices from [argCount] on, one per argument token, and counts
    them: cell [argCount + k] holds the [k]-th argument token, the cells
    outside are left as they were, and so is the stored status. *)
Lemma parse_tokens_stored toks : forall j,
  argCount j + length (arg_tokens toks) <= COMMAND_LINE_ARG ->
  exists jp,
    parse_tokens toks j = Stored jp
    /\ argCount jp = argCount j + length (arg_tokens toks)
    /\ (forall k,
          args jp k
          = if (k <? argCount j) then args j k
            else match nth_error (arg_tokens toks) (k - argCount j) with
                 | Some t => Some t
                 | None => args j k
                 end)
    /\ exitStatus jp = exitStatus j.
Proof.
  induction toks as [|t Ht|t p rest Ht IH|t rest Ht IH] using token_ind; intros j Hb.
  - exists j. cbn [parse_tokens arg_tokens length].
    split; [reflexivity|]. split; [lia|]. split; [|reflexivity].
    intros k. destruct (k <? _); [reflexivity|]. destruct (k - _); reflexivity.
  - rewrite parse_tokens_cons, (arg_tokens_last _ Ht).
    destruct (is_redirect_true _ Ht); subst t; cbn [String.eqb Ascii.eqb Bool.eqb];
      eexists; (split; [reflexivity|]); cbn [argCount set_inFile set_outFile
        set_isInput set_isOutput args exitStatus length];
      (split; [lia|]); (split; [|reflexivity]);
      intros k; destruct (k <? _); try reflexivity; destruct (k - _); reflexivity.
  - rewrite parse_tokens_cons, (arg_tokens_redirect _ p rest Ht).
    rewrite (arg_tokens_redirect _ p rest Ht) in Hb.
    destruct (is_redirect_true _ Ht); subst t.
    + exact (IH (set_inFile (Some p) (set_isInput true j)) Hb).
    + exact (IH (set_outFile (Some p) (set_isOutput true j)) Hb).
  - rewrite parse_tokens_cons, (arg_tokens_other _ rest Ht).
    rewrite (arg_tokens_other _ rest Ht) in Hb. revert Hb.
    destruct (is_redirect_false _ Ht) as [-> ->].
    destruct (t =? "&")%string; intros Hb.
    + exact (IH (set_isBackground true j) Hb).
    + cbn [length] in Hb. rewrite store_arg_in by lia.
      destruct (IH (set_argCount (S (argCount j))
                      (set_args (array_store (argCount j) (Some t) (args j)) j)))
        as (jp & Hp & Hc & Ha & Hs); [cbn [argCount set_argCount]; lia|].
      exists jp. split; [exact Hp|].
      cbn [argCount set_argCount set_args args exitStatus] in Hc, Ha, Hs.
      split; [cbn [length]; lia|]. split; [|exact Hs].
      intros k. rewrite Ha. unfold array_store.
      destruct (k <? S (argCount j)) eqn:E1.
      * apply Nat.ltb_lt in E1.
        destruct (Nat.eqb k (argCount j)) eqn:E2.
        -- apply Nat.eqb_eq in E2. subst k.
           rewrite Nat.ltb_irrefl, Nat.sub_diag. reflexivity.
        -- apply Nat.eqb_neq in E2.
           assert (Hlt : (k <? argCount j) = true) by (apply Nat.ltb_lt; lia).
           rewrite Hlt. reflexivity.
      * apply Nat.ltb_ge in E1.
        assert (Hlt : (k <? argCount j) = false) by (apply Nat.ltb_ge; lia).
        rewrite Hlt.
        replace (k - argCount j) with (S (k - S (argCount j))) by lia.
        cbn [nth_error].
        assert (Hne : Nat.eqb k (argCount j) = false) by (apply Nat.eqb_neq; lia).
        rewrite Hne. reflexivity.
Qed.

(** With more arguments than cells, the parser comes to store the argument
    that follows the last cell at [args[COMMAND_LINE_ARG]]. *)
Lemma parse_tokens_past toks : forall j,
  argCount j <= COMMAND_LINE_ARG ->
  COMMAND_LINE_ARG < argCount j + length (arg_tokens toks) ->
  parse_tokens toks j = PastArray COMMAND_LINE_ARG.
Proof.
  induction toks as [|t Ht|t p rest Ht IH|t rest Ht IH] using token_ind;
    intros j Hj Hb.
  - cbn [arg_tokens length] in Hb. lia.
  - rewrite (arg_tokens_last _ Ht) in Hb. cbn [length] in Hb. lia.
  - rewrite parse_tokens_cons. rewrite (arg_tokens_redirect _ p rest Ht) in Hb.
    destruct (is_redirect_true _ Ht); subst t.
    + exact (IH (set_inFile (Some p) (set_isInput true j)) Hj Hb).
    + exact (IH (set_outFile (Some p) (set_isOutput true j)) Hj Hb).
  - rewrite parse_tokens_cons. rewrite (arg_tokens_other _ rest Ht) in Hb. revert Hb.
    destruct (is_redirect_false _ Ht) as [-> ->].
    destruct (t =? "&")%string; intros Hb.
    + exact (IH (set_isBackground true j) Hj Hb).
    + cbn [length] in Hb.
      destruct (Nat.eq_dec (argCount j) COMMAND_LINE_ARG) as [E|E].
      * rewrite store_arg_out by lia. rewrite E. reflexivity.
      * rewrite store_arg_in by lia.
        apply (IH (set_argCount (S (argCount j))
                     (set_args (array_store (argCount j) (Some t) (args j)) j)));
          cbn [argCount set_argCount]; lia.
Qed.

Lemma read_argv_prefix (a : nat -> option string) l : forall i n,
  (forall k, k < length l -> a (i + k) = nth_error l k) ->
  a (i + length l) = None ->
  length l < n ->
  read_argv a i n = l.
Proof.
  induction l as [|s l IH]; intros i n Hcells Hnull Hn.
  - destruct n; [simpl in Hn; lia|]. simpl in *.
    rewrite Nat.add_0_r in Hnull. rewrite Hnull. reflexivity.
  - destruct n; [simpl in Hn; lia|]. simpl.
    pose proof (Hcells 0 ltac:(simpl; lia)) as H0.
    rewrite Nat.add_0_r in H0. simpl in H0. rewrite H0. f_equal.
    apply IH.
    + intros k Hk. replace (S i + k) with (i + S k) by lia.
      apply (Hcells (S k)). simpl. lia.
    + replace (S i + length l) with (i + length (s :: l)) by (simpl; lia).
      exact Hnull.
    + simpl in Hn. lia.
Qed.

(** The parser on a line whose arguments and closing null cell fit the array,
    from any job. *)
Lemma then_cap_stored toks j :
  argCount j + length (arg_tokens toks) < COMMAND_LINE_ARG ->
  exists jp,
    then_cap (parse_tokens toks j) = Stored jp
    /\ argCount jp = argCount j + length (arg_tokens toks)
    /\ (forall k, k < length (arg_tokens toks) ->
                  args jp (argCount j + k) = nth_error (arg_tokens toks) k)
    /\ args jp (argCount jp) = None
    /\ exitStatus jp = exitStatus j.
Proof.
  intros Hb.
  destruct (parse_tokens_stored toks j ltac:(lia)) as (jt & Hp & Hc & Ha & Hs).
  rewrite Hp. cbn [then_cap]. unfold cap_args. rewrite store_arg_in by lia.
  eexists. split; [reflexivity|].
  cbn [argCount set_args args exitStatus]. split; [exact Hc|].
  split; [|split; [|exact Hs]].
  - intros k Hk. unfold array_store.
    assert (Hne : Nat.eqb (argCount j + k) (argCount jt) = false)
      by (apply Nat.eqb_neq; lia).
    rewrite Hne, Ha.
    assert (Hlt : (argCount j + k <? argCount j) = false) by (apply Nat.ltb_ge; lia).
    rewrite Hlt. replace (argCount j + k - argCount j) with k by lia.
    destruct (nth_error (arg_tokens toks) k) eqn:En; [reflexivity|].
    apply nth_error_None in En. lia.
  - unfold array_store. rewrite Nat.eqb_refl. reflexivity.
Qed.

(** What [parseCommandLine] returns on the job [main] hands it, for a line of
    fewer arguments than the array has cells: the argument tokens counted,
    stored in order from cell 0 and capped with a null cell. *)
Lemma parseCommandLine_stores rawInput j :
  length (arg_tokens (tokenize rawInput)) < COMMAND_LINE_ARG ->
  exists jp,
    parseCommandLine rawInput (main_reset j) = Some (Stored jp)
    /\ argCount jp = length (arg_tokens (tokenize rawInput))
    /\ (forall k, k < argCount jp ->
                  args jp k = nth_error (arg_tokens (tokenize rawInput)) k)
    /\ args jp (argCount jp) = None
    /\ exitStatus jp = exitStatus j.
Proof.
  intros Hb. rewrite parseCommandLine_tokens.
  destruct (then_cap_stored (tokenize rawInput) (main_reset j) Hb)
    as (jp & Hp & Hc & Hcells & Hnull & Hs).
  cbn [argCount main_reset set_argCount Nat.add] in Hc, Hcells.
  exists jp. split; [rewrite Hp; reflexivity|]. split; [exact Hc|].
  split; [|split; [exact Hnull | exact Hs]].
  intros k Hk. apply Hcells. lia.
Qed.

(** On a line with as many arguments as the array has cells, or more, the
    parser stores at [args[COMMAND_LINE_ARG]]: the argument that follows the
    last cell, or the closing null. *)
Lemma parseCommandLine_past rawInput j :
  COMMAND_LINE_ARG <= length (arg_tokens (tokenize rawInput)) ->
  parseCommandLine rawInput (main_reset j) = Some (PastArray COMMAND_LINE_ARG).
Proof.
  intros Hb. rewrite parseCommandLine_tokens. f_equal.
  destruct (Nat.eq_dec (length (arg_tokens (tokenize rawInput))) COMMAND_LINE_ARG)
    as [E|E].
  - destruct (parse_tokens_stored (tokenize rawInput) (main_reset j))
      as (jt & Hp & Hc & _); [cbn [argCount main_reset set_argCount]; lia|].
    cbn [argCount main_reset set_argCount Nat.add] in Hc.
    rewrite Hp. cbn [then_cap]. unfold cap_args.
    rewrite store_arg_out by lia. rewrite Hc, E. reflexivity.
  - rewrite parse_tokens_past; [reflexivity | |];
      cbn [argCount main_reset set_argCount]; lia.
Qed.

Lemma arguments_stored jp l :
  argCount jp = length l ->
  (forall k, k < argCount jp -> args jp k = nth_error l k) ->
  args jp (argCount jp) = None ->
  length l < COMMAND_LINE_ARG ->
  arguments jp = l.
Proof.
  intros Hc Hcells Hnull Hb. unfold arguments. apply read_argv_prefix.
  - intros k Hk. cbn [Nat.add]. apply Hcells. lia.
  - cbn [Nat.add]. rewrite <- Hc. exact Hnull.
  - exact Hb.
Qed.

(** ** Every list of well-formed tokens is the token sequence of a line *)

Lemma scan_token_join t : forall s,
  token_chars t = true ->
  scan_token TOKEN_DELIMITERS (t ++ String " " s) = (t, s).
Proof.
  induction t as [|c t IH]; intros s Hok; [reflexivity|].
  cbn [token_chars] in Hok. apply andb_true_iff in Hok. destruct Hok as [Hc Ht].
  apply negb_true_iff in Hc.
  change (String c t ++ String " " s)%string with (String c (t ++ String " " s)).
  cbn [scan_token]. rewrite Hc, (IH s Ht). reflexivity.
Qed.

Lemma strtok_join t s :
  token_ok t = true ->
  strtok TOKEN_DELIMITERS (t ++ String " " s) = (Some t, s).
Proof.
  unfold token_ok. destruct t as [|c t]; [discriminate|].
  intros Hok. pose proof (scan_token_join (String c t) s Hok) as Hscan.
  cbn [token_chars] in Hok. apply andb_true_iff in Hok. destruct Hok as [Hc _].
  apply negb_true_iff in Hc.
  unfold strtok.
  change (String c t ++ String " " s)%string with (String c (t ++ String " " s)) in *.
  cbn [skip_delims]. rewrite Hc, Hscan. reflexivity.
Qed.

Lemma tokenize_join toks :
  Forall (fun t => token_ok t = true) toks -> tokenize (join_tokens toks) = toks.
Proof.
  induction 1 as [|t toks Ht _ IH]; [reflexivity|].
  rewrite tokenize_unfold. cbn [join_tokens].
  rewrite (strtok_join t _ Ht), IH. reflexivity.
Qed.

Lemma scan_token_chars s :
  token_chars (fst (scan_token TOKEN_DELIMITERS s)) = true.
Proof.
  induction s as [|c s IH]; [reflexivity|].
  cbn [scan_token]. destruct (strchr TOKEN_DELIMITERS c) eqn:Ec; [reflexivity|].
  destruct (scan_token TOKEN_DELIMITERS s) as [tok save].
  cbn [fst token_chars] in *. rewrite Ec, IH. reflexivity.
Qed.

Lemma skip_delims_head s c s' :
  skip_delims TOKEN_DELIMITERS s = String c s' -> strchr TOKEN_DELIMITERS c = false.
Proof.
  induction s as [|x s IH]; [discriminate|].
  cbn [skip_delims]. destruct (strchr TOKEN_DELIMITERS x) eqn:Ex; [exact IH|].
  intros H. injection H as -> _. exact Ex.
Qed.

Lemma strtok_token_ok s t r :
  strtok TOKEN_DELIMITERS s = (Some t, r) -> token_ok t = true.
Proof.
  unfold strtok.
  destruct (skip_delims TOKEN_DELIMITERS s) as [|c s'] eqn:E; [discriminate|].
  apply skip_delims_head in E.
  pose proof (scan_token_chars (String c s')) as Hc.
  cbn [scan_token] in *. rewrite E in *.
  destruct (scan_token TOKEN_DELIMITERS s') as [tok save].
  intros H. injection H as <- _. exact Hc.
Qed.

(** The tokens [strtok] cuts are well formed. *)
Lemma tokenize_ok s : Forall (fun t => token_ok t = true) (tokenize s).
Proof.
  remember (String.length s) as n eqn:Hn.
  revert s Hn. induction n as [n IH] using lt_wf_ind. intros s Hn.
  rewrite tokenize_unfold.
  destruct (strtok TOKEN_DELIMITERS s) as [[t|] r] eqn:E; [|constructor].
  constructor.
  - exact (strtok_token_ok _ _ _ E).
  - apply strtok_shorter in E. apply (IH (String.length r)); [lia | reflexivity].
Qed.

(** ** The parser: claims *)

(** C2, as amended.  On every line of at most 511 arguments (the tokens that
    are neither an operator nor the path after a redirection operator) the
    parser writes nowhere outside [args]: it returns normally, every store,
    the closing null cell included, having fallen inside the 512 cells; the
    arguments are counted and the cells hold exactly the argument tokens, in
    order, up to the null cell. *)
Theorem parseCommandLine_within_array rawInput j :
  length (arg_tokens (tokenize rawInput)) <= 511 ->
  exists jp,
    parseCommandLine rawInput (main_reset j) = Some (Stored jp)
    /\ argCount jp = length (arg_tokens (tokenize rawInput))
    /\ arguments jp = arg_tokens (tokenize rawInput).
Proof.
  intros Hle.
  assert (Hb : length (arg_tokens (tokenize rawInput)) < COMMAND_LINE_ARG)
    by (unfold COMMAND_LINE_ARG; lia).
  destruct (parseCommandLine_stores rawInput j Hb) as (jp & Hp & Hc & Hcells & Hnull & _).
  exists jp. split; [exact Hp|]. split; [exact Hc|].
  exact (arguments_stored _ _ Hc Hcells Hnull Hb).
Qed.

Lemma parseCommandLine_within_array_witness :
  exists jp,
    parseCommandLine ("ls -l" ++ newline) (main_reset empty_job) = Some (Stored jp)
    /\ argCount jp = 2 /\ arguments jp = ["ls"; "-l"].
Proof.
  apply (parseCommandLine_within_array ("ls -l" ++ newline) empty_job).
  vm_compute. lia.
Defined.

Lemma many_args_tokens n :
  arg_tokens (tokenize (many_args n)) = repeat "a" n
  /\ tokenize (many_args n) = repeat "a" n.
Proof.
  assert (H : tokenize (many_args n) = repeat "a" n).
  { induction n as [|n IH]; [reflexivity|].
    rewrite tokenize_unfold. simpl. rewrite IH. reflexivity. }
  split; [|exact H]. rewrite H. clear H.
  induction n as [|n IH]; [reflexivity|]. simpl. rewrite IH. reflexivity.
Qed.

(** C2, counterexample.  A line of 513 arguments is not refused: the parser
    comes to store its 513th argument at [args[512]], past the last cell.  A
    line of 512 arguments, all of them non-operator tokens, has its closing
    null stored at [args[512]]. *)
Lemma parseCommandLine_overflow :
  (tokenize (many_args 513) = repeat "a" 513
   /\ parseCommandLine (many_args 513) (main_reset empty_job) = Some (PastArray 512))
  /\ (tokenize (many_args 512) = repeat "a" 512
      /\ parseCommandLine (many_args 512) (main_reset empty_job) = Some (PastArray 512)).
Proof.
  split; (split; [apply many_args_tokens|]).
  - apply (parseCommandLine_past (many_args 513) empty_job).
    destruct (many_args_tokens 513) as [-> _]. rewrite repeat_length.
    unfold COMMAND_LINE_ARG. lia.
  - apply (parseCommandLine_past (many_args 512) empty_job).
    destruct (many_args_tokens 512) as [-> _]. rewrite repeat_length.
    unfold COMMAND_LINE_ARG. lia.
Qed.

(** C9.  The line [ls -l > out.txt &], with or without the newline [getline]
    leaves at its end, is parsed into the arguments [ls], [-l], the output
    redirection [out.txt], the background flag set and no input redirection,
    whatever the job held before. *)
Theorem parseCommandLine_ls_example j :
  parsed_as_ls (parseCommandLine "ls -l > out.txt &" (main_reset j))
  /\ parsed_as_ls (parseCommandLine ("ls -l > out.txt &" ++ newline) (main_reset j)).
Proof.
  split; eexists; (split; [reflexivity|]); repeat split; reflexivity.
Qed.

(** A redirection operator at the end of the tokens, reached as an operator,
    only sets its flag and a null path on what the tokens before it gave. *)
Lemma parse_tokens_dangling op pre :
  is_redirect op = true ->
  awaiting_path pre = false ->
  forall j,
    parse_tokens (pre ++ [op]) j = on_parsed (dangling_redirect op) (parse_tokens pre j).
Proof.
  intros Hop.
  induction pre as [|t Ht|t p rest Ht IH|t rest Ht IH] using token_ind;
    intros Hpre j.
  - destruct (is_redirect_true _ Hop); subst op; reflexivity.
  - simpl in Hpre. rewrite Ht in Hpre. discriminate.
  - simpl in Hpre. rewrite Ht in Hpre.
    change ((t :: p :: rest) ++ [op]) with (t :: p :: (rest ++ [op])).
    rewrite !parse_tokens_cons.
    destruct (is_redirect_true _ Ht); subst t; simpl; apply IH; exact Hpre.
  - simpl in Hpre. rewrite Ht in Hpre.
    change ((t :: rest) ++ [op]) with (t :: (rest ++ [op])).
    rewrite !parse_tokens_cons.
    destruct (is_redirect_false _ Ht) as [-> ->].
    destruct (t =? "&")%string; [apply IH; exact Hpre|].
    destruct (store_arg (argCount j) (Some t) j) as [j1|i]; [|reflexivity].
    apply IH; exact Hpre.
Qed.

Lemma then_cap_dangling op p :
  then_cap (on_parsed (dangling_redirect op) p)
  = on_parsed (dangling_redirect op) (then_cap p).
Proof.
  destruct p as [j|i]; [|reflexivity].
  cbn [then_cap on_parsed]. unfold cap_args, store_arg, dangling_redirect.
  destruct (op =? "<")%string;
    cbn [argCount set_inFile set_isInput set_outFile set_isOutput args];
    destruct (argCount j <? COMMAND_LINE_ARG); reflexivity.
Qed.

(** C10, counterexample.  In [cat < <] the final token is [<] and nothing
    follows it, yet the parser leaves the input path set, to ["<"]: the first
    [<] took the second one as its path.  In [cat > <] the final [<] does not
    set the input flag at all. *)
Lemma parseCommandLine_final_operator_as_path :
  (exists jp,
      tokenize "cat < <" = ["cat"; "<"; "<"]
      /\ parseCommandLine "cat < <" (main_reset empty_job) = Some (Stored jp)
      /\ isInput jp = true /\ inFile jp = Some "<" /\ inFile jp <> None)
  /\ (exists jp,
      tokenize "cat > <" = ["cat"; ">"; "<"]
      /\ parseCommandLine "cat > <" (main_reset empty_job) = Some (Stored jp)
      /\ isInput jp = false /\ outFile jp = Some "<").
Proof.
  split; eexists; (split; [reflexivity|]); (split; [reflexivity|]);
    repeat split; try reflexivity; discriminate.
Qed.

(** C10, as amended.  When the final token of a line is [<] or [>], the
    tokens before it do not themselves end in a redirection operator waiting
    for its path, and the arguments fit the array (at most 511 of them from a
    job reset by [main]), the parser returns normally (the call of [strtok]
    past the last token yields null and the loop ends), and the job is the one
    the tokens before the operator give on their own, with the operator's flag
    set and its path null: cells, count and arguments are the same. *)
Theorem parseCommandLine_dangling_redirect rawInput pre op j :
  tokenize rawInput = pre ++ [op] ->
  op = "<" \/ op = ">" ->
  awaiting_path pre = false ->
  argCount j + length (arg_tokens pre) <= 511 ->
  exists jp,
    parseCommandLine (join_tokens pre) j = Some (Stored jp)
    /\ parseCommandLine rawInput j = Some (Stored (dangling_redirect op jp))
    /\ (op = "<" -> isInput (dangling_redirect op jp) = true
                    /\ inFile (dangling_redirect op jp) = None)
    /\ (op = ">" -> isOutput (dangling_redirect op jp) = true
                    /\ outFile (dangling_redirect op jp) = None)
    /\ args (dangling_redirect op jp) = args jp
    /\ argCount (dangling_redirect op jp) = argCount jp
    /\ arguments (dangling_redirect op jp) = arguments jp
    /\ argCount jp = argCount j + length (arg_tokens pre).
Proof.
  intros Htok Hop Hpre Hle.
  assert (Hr : is_redirect op = true) by (destruct Hop; subst op; reflexivity).
  assert (Hjoin : tokenize (join_tokens pre) = pre).
  { apply tokenize_join. pose proof (tokenize_ok rawInput) as Hok.
    rewrite Htok in Hok. apply Forall_app in Hok. apply Hok. }
  rewrite !parseCommandLine_tokens, Htok, Hjoin.
  rewrite (parse_tokens_dangling op _ Hr Hpre), then_cap_dangling.
  destruct (then_cap_stored pre j) as (jp & Hp & Hc & _);
    [unfold COMMAND_LINE_ARG; lia|].
  rewrite Hp. exists jp. split; [reflexivity|]. split; [reflexivity|].
  destruct Hop; subst op; repeat split; try reflexivity; try discriminate; exact Hc.
Qed.

Lemma parseCommandLine_dangling_redirect_witness :
  exists jp,
    parseCommandLine "cat " (main_reset empty_job) = Some (Stored jp)
    /\ parseCommandLine ("cat <" ++ newline) (main_reset empty_job)
       = Some (Stored (dangling_redirect "<" jp))
    /\ isInput (dangling_redirect "<" jp) = true
    /\ inFile (dangling_redirect "<" jp) = None.
Proof.
  destruct (parseCommandLine_dangling_redirect ("cat <" ++ newline) ["cat"] "<"
              (main_reset empty_job))
    as (jp & H1 & H2 & H3 & _).
  - reflexivity.
  - left. reflexivity.
  - reflexivity.
  - simpl. lia.
  - exists jp. split; [exact H1|]. split; [exact H2|]. apply H3. reflexivity.
Defined.

(** ** The forked child *)

Local Open Scope Z_scope.

Lemma child_input_sigint e j c :
  match child_input e j c with
  | inl ended => c_sigint (child_of ended) = c_sigint c
  | inr c' => c_sigint c' = c_sigint c
  end.
Proof.
  unfold child_input, c_open, c_dup2.
  destruct (isInput j).
  - destruct (open_ret e (inFile j) =? -1); [reflexivity|].
    destruct (dup2_ret e (open_ret e (inFile j)) 0 =? -1); reflexivity.
  - destruct (isBackground j); [|reflexivity].
    destruct (open_ret e (Some "/dev/null") =? -1);
      destruct (dup2_ret e (open_ret e (Some "/dev/null")) 0 =? -1); reflexivity.
Qed.

Lemma child_output_sigint e j c :
  c_sigint (child_output e j c) = c_sigint c.
Proof.
  unfold child_output, c_open, c_dup2.
  destruct (isOutput j); [|reflexivity].
  destruct (open_ret e (outFile j) =? -1);
    destruct (dup2_ret e (open_ret e (outFile j)) 1 =? -1); reflexivity.
Qed.

(** Whatever the job, the child runs its command (or exits) with the handler
    of the global [foreground]: the call of [sigaction] is not guarded. *)
Lemma runCommand_child_sigint g inherited e j :
  c_sigint (child_of (runCommand_child g inherited e j)) = foreground g.
Proof.
  unfold runCommand_child.
  pose proof (child_input_sigint e j
                (c_sigaction (foreground g) (mkChild inherited EmptyString [] [] []))) as Hi.
  destruct (child_input e j _) as [ended|c2]; [exact Hi|].
  destruct (execvp_fails e); simpl; rewrite ?child_output_sigint; exact Hi.
Qed.

(** C1, on the code.  The shell runs under Ignore, and the child of a
    background job nevertheless ends up with the default disposition of the
    interrupt signal, like the child of a foreground job. *)
Theorem background_child_is_interruptible e j :
  snd init = SIG_IGN
  /\ isBackground (set_isBackground true j) = true
  /\ c_sigint (child_of (runCommand_child (fst init) (snd init) e
                                          (set_isBackground true j))) = SIG_DFL
  /\ c_sigint (child_of (runCommand_child (fst init) (snd init) e
                                          (set_isBackground false j))) = SIG_DFL.
Proof.
  repeat split; apply runCommand_child_sigint.
Qed.

(** ** The built-in commands *)

(** C8.  [status] prints the stored status text as it is, followed by a
    newline, and stores [exit value 0]; every other field of the job and of
    the world is left alone: the directory stays, and no [fork] or [waitpid]
    is made. *)
Theorem status_builtin j w :
  args j 0%nat = Some "status" ->
  runBuiltIn j w
  = (set_exitStatus "exit value 0" j, printf (exitStatus j ++ newline) w)
  /\ stdout (snd (runBuiltIn j w)) = (stdout w ++ exitStatus j ++ newline)%string
  /\ exitStatus (fst (runBuiltIn j w)) = "exit value 0"
  /\ calls (snd (runBuiltIn j w)) = calls w
  /\ cwd (snd (runBuiltIn j w)) = cwd w.
Proof.
  intros H0. unfold runBuiltIn. rewrite H0. simpl. repeat split.
Qed.

Lemma status_builtin_witness :
  runBuiltIn (set_exitStatus "exit value 3" (job_of_tokens ["status"])) example_world
  = (set_exitStatus "exit value 0" (job_of_tokens ["status"]),
     printf ("exit value 3" ++ newline) example_world).
Proof.
  apply (status_builtin (set_exitStatus "exit value 3" (job_of_tokens ["status"]))
                        example_world).
  reflexivity.
Defined.

(** C7.  [cd] on a path [chdir] does not find prints
    [<path>: no such file or directory], stores [exit value 1] and leaves the
    working directory where it was.  [cd] without an argument calls [chdir]
    on the value of [HOME] and stores [exit value 0] whatever that call
    returns; when [HOME] names a directory, that is the new working
    directory. *)
Theorem cd_builtin j w :
  args j 0%nat = Some "cd" ->
  (forall path,
      args j 1%nat = Some path -> dir_of w (cwd w) path = None ->
      runBuiltIn j w
      = (set_exitStatus "exit value 1" j,
         printf (path ++ ": no such file or directory" ++ newline) w)
      /\ cwd (snd (runBuiltIn j w)) = cwd w
      /\ exitStatus (fst (runBuiltIn j w)) = "exit value 1")
  /\ (args j 1%nat = None ->
      runBuiltIn j w = (set_exitStatus "exit value 0" j, snd (chdir (HOME w) w))
      /\ exitStatus (fst (runBuiltIn j w)) = "exit value 0"
      /\ (forall home d,
             HOME w = Some home -> dir_of w (cwd w) home = Some d ->
             snd (runBuiltIn j w) = set_cwd d w)).
Proof.
  intros H0. unfold runBuiltIn. rewrite H0. simpl. split.
  - intros path H1 Hdir. rewrite H1. simpl. rewrite Hdir. simpl. repeat split.
  - intros H1. rewrite H1. unfold getenv_HOME.
    destruct (chdir (HOME w) w) as [r w1] eqn:E. simpl. repeat split.
    intros home d Hh Hd. unfold chdir in E. rewrite Hh, Hd in E.
    inversion E. reflexivity.
Qed.

Lemma cd_builtin_witness :
  (runBuiltIn (job_of_tokens ["cd"; "/nope"]) example_world
   = (set_exitStatus "exit value 1" (job_of_tokens ["cd"; "/nope"]),
      printf ("/nope: no such file or directory" ++ newline) example_world))
  /\ snd (runBuiltIn (job_of_tokens ["cd"]) example_world)
     = set_cwd "/home" example_world.
Proof.
  split.
  - destruct (cd_builtin (job_of_tokens ["cd"; "/nope"]) example_world eq_refl)
      as [Hfail _].
    destruct (Hfail "/nope" eq_refl eq_refl) as [H _]. exact H.
  - destruct (cd_builtin (job_of_tokens ["cd"]) example_world eq_refl)
      as [_ Hhome].
    destruct (Hhome eq_refl) as (_ & _ & H).
    apply (H "/home" "/home"); reflexivity.
Defined.

(** ** The wait loop *)

Lemma WIFEXITED_not_signaled status :
  WIFEXITED status = true -> WIFSIGNALED status = false.
Proof.
  unfold WIFEXITED, WIFSIGNALED, WTERMSIG. intros H.
  apply Z.eqb_eq in H. rewrite H. reflexivity.
Qed.

Lemma WEXITSTATUS_range status : 0 <= WEXITSTATUS status <= 255.
Proof.
  unfold WEXITSTATUS. rewrite Z.shiftr_land.
  change (Z.shiftr 65280 8) with (Z.ones 8).
  rewrite Z.land_ones by lia.
  pose proof (Z.mod_pos_bound (Z.shiftr status 8) (2 ^ 8) ltac:(lia)). lia.
Qed.

(** The status of a child that called [exit(n)], [W_EXITCODE(n, 0)], and of
    one killed by signal [sig], [W_EXITCODE(0, sig)]. *)
Lemma W_EXITCODE_exit n :
  0 <= n <= 255 ->
  WIFEXITED (W_EXITCODE n 0) = true /\ WEXITSTATUS (W_EXITCODE n 0) = n.
Proof.
  intros Hn. unfold WIFEXITED, WTERMSIG, WEXITSTATUS, W_EXITCODE.
  rewrite Z.lor_0_r. split.
  - apply Z.eqb_eq. change 127 with (Z.ones 7).
    rewrite Z.land_ones, Z.shiftl_mul_pow2 by lia.
    change (2 ^ 8) with (2 * 2 ^ 7). rewrite Z.mul_assoc. apply Z.mod_mul. lia.
  - rewrite Z.shiftr_land, Z.shiftr_shiftl_l by lia.
    change (Z.shiftr 65280 8) with (Z.ones 8).
    replace (8 - 8) with 0 by lia.
    rewrite Z.shiftl_0_r, Z.land_ones by lia. apply Z.mod_small. lia.
Qed.

Lemma string_app_assoc (a b c : string) : ((a ++ b) ++ c = a ++ (b ++ c))%string.
Proof. induction a as [|x a IH]; simpl; [reflexivity | rewrite IH; reflexivity]. Qed.

Lemma string_app_nil_r (a : string) : (a ++ EmptyString = a)%string.
Proof. induction a as [|x a IH]; simpl; [reflexivity | rewrite IH; reflexivity]. Qed.

Lemma add_calls_call l c w : add_calls l (call c w) = add_calls (c :: l) w.
Proof. unfold add_calls, call. simpl. rewrite <- app_assoc. reflexivity. Qed.

Lemma wait_loop_cons pid a rest status j w :
  wait_loop pid (a :: rest) status j w =
  let '(status1, j1, w1) :=
    if negb (isBackground j) then
      (wait_status a status,
       set_exitStatus ("exit value " ++ dec (WEXITSTATUS (wait_status a status))) j,
       call (SysWaitpid pid WUNTRACED) w)
    else (wait_status a status, j, call (SysWaitpid (-1) WNOHANG) w) in
  if negb (WIFEXITED status1) && negb (WIFSIGNALED status1)
  then wait_loop pid rest status1 j1 w1
  else LoopDone rest status1 j1 w1.
Proof. reflexivity. Qed.

Lemma not_terminal status :
  negb (WIFEXITED status) && negb (WIFSIGNALED status) = negb (terminal status).
Proof. unfold terminal. symmetry. apply negb_orb. Qed.

(** The foreground wait: the blocking [waitpid] is repeated while the child is
    only reported stopped, and the loop is left on the first terminal status,
    with the text of that status' exit code stored. *)
Lemma wait_loop_foreground pid status rest stops : forall garbage j w,
  isBackground j = false ->
  Forall (fun s => terminal s = false) stops ->
  terminal status = true ->
  wait_loop pid (map (Reaped pid) stops ++ Reaped pid status :: rest) garbage j w
  = LoopDone rest status
             (set_exitStatus ("exit value " ++ dec (WEXITSTATUS status)) j)
             (add_calls (repeat (SysWaitpid pid WUNTRACED) (S (length stops))) w).
Proof.
  induction stops as [|s stops IH]; intros garbage j w Hfg Hstops Hterm.
  - simpl app. rewrite wait_loop_cons, Hfg. simpl negb. cbv iota beta.
    rewrite not_terminal. simpl wait_status. rewrite Hterm. reflexivity.
  - inversion Hstops as [|? ? Hs Hrest]; subst.
    simpl map. simpl app. rewrite wait_loop_cons, Hfg. simpl negb. cbv iota beta.
    rewrite not_terminal. simpl wait_status. rewrite Hs. simpl negb. cbv iota.
    rewrite IH by assumption.
    rewrite add_calls_call. reflexivity.
Qed.

(** The background "wait": while the status variable holds no terminal status
    and the polls find no child that changed state, the loop goes on polling. *)
Lemma wait_loop_background_polls pid status n : forall j w,
  isBackground j = true ->
  terminal status = false ->
  wait_loop pid (repeat NoChange n) status j w
  = LoopPending status j (add_calls (repeat (SysWaitpid (-1) WNOHANG) n) w).
Proof.
  induction n as [|n IH]; intros j w Hbg Hterm.
  - simpl. unfold add_calls. rewrite app_nil_r. destruct w; reflexivity.
  - simpl repeat. rewrite wait_loop_cons, Hbg. simpl negb. cbv iota beta.
    rewrite not_terminal. simpl wait_status. rewrite Hterm. simpl negb. cbv iota.
    rewrite IH by assumption. rewrite add_calls_call. reflexivity.
Qed.

Lemma runCommand_parent_pid g h e j w :
  0 < fork_ret e ->
  runCommand g h e j w = runCommand_parent (fork_ret e) e j (call (SysFork (fork_ret e)) w).
Proof.
  intros Hpid. unfold runCommand.
  destruct (Z.eqb_spec (fork_ret e) 0); [lia|].
  destruct (Z.ltb_spec (fork_ret e) 0); [lia|]. reflexivity.
Qed.

(** ** Launch and wait: claims *)

(** C3, on the code.  A background launch whose [status] variable happens to
    hold 127 (no terminal status) prints the launch notice and then stays in
    the loop: however many polls find no child that changed state, the shell
    has not come back to the prompt; it only issues non-blocking [waitpid]
    calls, one after the other. *)
Theorem background_launch_keeps_polling g h n p cenv j w :
  exists w',
    runCommand g h (mkRunEnv (Z.pos p) 127 (repeat NoChange n) cenv)
               (set_isBackground true j) w
    = Pending (set_isBackground true j) w'
    /\ stdout w' = (stdout w ++ "background pid is " ++ dec (Z.pos p) ++ newline)%string
    /\ calls w' = (calls w ++ SysFork (Z.pos p) :: repeat (SysWaitpid (-1) WNOHANG) n)%list.
Proof.
  rewrite runCommand_parent_pid by (simpl; lia).
  unfold runCommand_parent. simpl.
  rewrite wait_loop_background_polls by reflexivity.
  eexists. split; [reflexivity|]. simpl. split; [reflexivity|].
  rewrite <- app_assoc. reflexivity.
Qed.

(** C4, on the code.  A background launch whose first poll reaps an earlier
    child that was killed by signal 15 prints [terminated by signal 15.] and
    stores that text as the status, whatever the status was. *)
Theorem background_launch_overwrites_status g h p q garbage a rest cenv j w :
  exists w',
    runCommand g h (mkRunEnv (Z.pos p) garbage (Reaped q 15 :: a :: rest) cenv)
               (set_isBackground true j) w
    = Returned (set_exitStatus "terminated by signal 15." (set_isBackground true j)) w'
    /\ isBackground (set_isBackground true j) = true.
Proof.
  rewrite runCommand_parent_pid by (simpl; lia).
  unfold runCommand_parent. simpl wait_answers. simpl status_garbage.
  rewrite wait_loop_cons. simpl.
  eexists. split; reflexivity.
Qed.

Lemma reap_poll_frame a status w :
  exists notice,
    stdout (reap_poll a status w) = (stdout w ++ notice)%string
    /\ cwd (reap_poll a status w) = cwd w.
Proof.
  unfold reap_poll.
  destruct (wait_ret a >? 0); [|exists EmptyString; simpl; rewrite string_app_nil_r; auto].
  destruct (WIFEXITED (wait_status a status));
    destruct (WIFSIGNALED (wait_status a status)); simpl;
    rewrite ?string_app_assoc; eexists; split; try reflexivity.
  rewrite string_app_nil_r. reflexivity.
Qed.

(** The foreground path of [runCommand], up to its return to [main]. *)
Lemma runCommand_foreground g h pid stops status a rest garbage cenv j w :
  0 < pid ->
  isBackground j = false ->
  Forall (fun s => terminal s = false) stops ->
  terminal status = true ->
  runCommand g h
    (mkRunEnv pid garbage (map (Reaped pid) stops ++ Reaped pid status :: a :: rest) cenv)
    j w
  = let w2 := add_calls (SysFork pid :: repeat (SysWaitpid pid WUNTRACED) (S (length stops))) w in
    if WIFSIGNALED status then
      Returned
        (set_exitStatus ("terminated by signal " ++ dec (WTERMSIG status) ++ ".") j)
        (reap_poll a status
           (printf ("terminated by signal " ++ dec (WTERMSIG status) ++ "." ++ newline) w2))
    else
      Returned (set_exitStatus ("exit value " ++ dec (WEXITSTATUS status)) j)
               (reap_poll a status w2).
Proof.
  intros Hpid Hfg Hstops Hterm.
  rewrite runCommand_parent_pid by exact Hpid.
  unfold runCommand_parent. simpl fork_ret. simpl wait_answers. simpl status_garbage.
  rewrite Hfg, wait_loop_foreground by assumption.
  rewrite add_calls_call. cbv zeta.
  destruct (WIFSIGNALED status); reflexivity.
Qed.

(** C5, counterexample.  A foreground child killed by signal 2: the text the
    shell stores and prints ends in a full stop; it is not
    [terminated by signal 2]. *)
Lemma signal_text_has_full_stop :
  exists j w,
    runCommand (fst init) (snd init)
               (mkRunEnv 42 0 [Reaped 42 (W_EXITCODE 0 2); NoChange] example_child_env)
               (job_of_tokens ["sleep"; "5"]) example_world
    = Returned j w
    /\ exitStatus j = "terminated by signal 2."
    /\ exitStatus j <> "terminated by signal 2"
    /\ stdout w = ("terminated by signal 2." ++ newline)%string.
Proof.
  do 2 eexists. split; [reflexivity|]. repeat split. discriminate.
Qed.

(** C5, as amended.  When a foreground child is terminated by a signal, the
    shell prints [terminated by signal N.] (with a closing full stop) on a
    line of its own and stores the same text, full stop included, as the
    status.  The other status texts are as the claim has them: the sentinel
    the status starts from is [none], and the same launch stores
    [exit value N] when the child exits normally with code N. *)
Theorem foreground_signal_status g h pid stops status a rest garbage cenv j w :
  0 < pid ->
  isBackground j = false ->
  Forall (fun s => terminal s = false) stops ->
  WIFSIGNALED status = true ->
  exists j' w' notice,
    runCommand g h
      (mkRunEnv pid garbage (map (Reaped pid) stops ++ Reaped pid status :: a :: rest) cenv)
      j w
    = Returned j' w'
    /\ exitStatus j' = ("terminated by signal " ++ dec (WTERMSIG status) ++ ".")%string
    /\ stdout w'
       = (stdout w ++ ("terminated by signal " ++ dec (WTERMSIG status) ++ "." ++ newline)
                   ++ notice)%string
    /\ (forall garbage_job, exitStatus (job_init garbage_job) = "none")
    /\ (forall exited,
          WIFEXITED exited = true ->
          exists j'' w'',
            runCommand g h
              (mkRunEnv pid garbage
                        (map (Reaped pid) stops ++ Reaped pid exited :: a :: rest) cenv)
              j w
            = Returned j'' w''
            /\ exitStatus j'' = ("exit value " ++ dec (WEXITSTATUS exited))%string
            /\ 0 <= WEXITSTATUS exited <= 255).
Proof.
  intros Hpid Hfg Hstops Hsig.
  rewrite runCommand_foreground; try assumption.
  2: { unfold terminal. rewrite Hsig. apply orb_true_r. }
  cbv zeta. rewrite Hsig.
  match goal with |- context [reap_poll a status ?w0] =>
    destruct (reap_poll_frame a status w0) as (notice & Hout & _) end.
  do 2 eexists. exists notice. split; [reflexivity|]. split; [reflexivity|].
  split; [|split; [reflexivity|]].
  - rewrite Hout. unfold printf, add_calls. cbn [stdout]. apply string_app_assoc.
  - intros exited Hexit.
    rewrite runCommand_foreground; try assumption.
    2: { unfold terminal. rewrite Hexit. reflexivity. }
    cbv zeta. rewrite (WIFEXITED_not_signaled _ Hexit).
    do 2 eexists. split; [reflexivity|]. split; [reflexivity|].
    apply WEXITSTATUS_range.
Qed.

Lemma foreground_signal_status_witness :
  (exists j' w' notice,
      runCommand (fst init) (snd init)
        (mkRunEnv 42 0 [Reaped 42 2; NoChange] example_child_env)
        (job_of_tokens ["sleep"; "5"]) example_world
      = Returned j' w'
      /\ exitStatus j' = "terminated by signal 2."
      /\ stdout w' = ("terminated by signal 2." ++ newline ++ notice)%string)
  /\ (exists j'' w'',
        runCommand (fst init) (snd init)
          (mkRunEnv 42 0 [Reaped 42 (W_EXITCODE 3 0); NoChange] example_child_env)
          (job_of_tokens ["sleep"; "5"]) example_world
        = Returned j'' w''
        /\ exitStatus j'' = "exit value 3").
Proof.
  destruct (foreground_signal_status (fst init) (snd init) 42 [] 2 NoChange []
              0 example_child_env (job_of_tokens ["sleep"; "5"]) example_world)
    as (j' & w' & notice & H1 & H2 & H3 & _ & H5).
  - lia.
  - reflexivity.
  - constructor.
  - reflexivity.
  - split.
    + exists j', w', notice. repeat split; assumption.
    + destruct (H5 (W_EXITCODE 3 0) eq_refl) as (j'' & w'' & H6 & H7 & _).
      exists j'', w''. split; [exact H6 | exact H7].
Defined.

(** The line [status]: [main] parses it, finds the built-in and runs it, which
    prints the stored text. *)
Lemma main_iteration_status g h e j w :
  exists j',
    main_iteration g h ("status" ++ newline) e j w
    = Next j' (printf (exitStatus j ++ newline) (printf ": " w))
    /\ exitStatus j' = "exit value 0".
Proof.
  unfold main_iteration. rewrite parseCommandLine_tokens.
  eexists. split; reflexivity.
Qed.

(** C6.  After a foreground command whose child exits normally with code N,
    the status stored is [exit value N], and the next line [status] makes the
    shell print exactly that text (after its prompt, and followed by a
    newline). *)
Theorem foreground_exit_then_status g h pid stops status n a rest garbage cenv e' j w :
  0 < pid ->
  isBackground j = false ->
  Forall (fun s => terminal s = false) stops ->
  WIFEXITED status = true ->
  WEXITSTATUS status = n ->
  exists j1 w1 j2,
    runCommand g h
      (mkRunEnv pid garbage (map (Reaped pid) stops ++ Reaped pid status :: a :: rest) cenv)
      j w
    = Returned j1 w1
    /\ exitStatus j1 = ("exit value " ++ dec n)%string
    /\ main_iteration g h ("status" ++ newline) e' j1 w1
       = Next j2 (printf (("exit value " ++ dec n) ++ newline) (printf ": " w1))
    /\ 0 <= n <= 255.
Proof.
  intros Hpid Hfg Hstops Hexit Hn.
  rewrite runCommand_foreground; try assumption.
  2: { unfold terminal. rewrite Hexit. reflexivity. }
  cbv zeta. rewrite (WIFEXITED_not_signaled _ Hexit), Hn.
  match goal with |- context [Returned ?j1 ?w1] =>
    destruct (main_iteration_status g h e' j1 w1) as (j2 & Hstep & _);
    exists j1, w1, j2 end.
  split; [reflexivity|]. split; [reflexivity|]. split; [exact Hstep|].
  subst n. apply WEXITSTATUS_range.
Qed.

Lemma foreground_exit_then_status_witness :
  exists j1 w1 j2,
    runCommand (fst init) (snd init)
      (mkRunEnv 42 0 [Reaped 42 (W_EXITCODE 3 0); NoChange] example_child_env)
      (job_of_tokens ["ls"; "-l"]) example_world
    = Returned j1 w1
    /\ exitStatus j1 = "exit value 3"
    /\ main_iteration (fst init) (snd init) ("status" ++ newline)
         (mkRunEnv 0 0 [] example_child_env) j1 w1
       = Next j2 (printf ("exit value 3" ++ newline) (printf ": " w1)).
Proof.
  destruct (foreground_exit_then_status (fst init) (snd init) 42 [] (W_EXITCODE 3 0) 3
              NoChange [] 0 example_child_env (mkRunEnv 0 0 [] example_child_env)
              (job_of_tokens ["ls"; "-l"]) example_world)
    as (j1 & w1 & j2 & H1 & H2 & H3 & _).
  - lia.
  - reflexivity.
  - constructor.
  - reflexivity.
  - reflexivity.
  - exists j1, w1, j2. repeat split; assumption.
Defined.

(** ** What does hold of a background launch *)

(** In the loop a background job only polls, and the job is not written. *)
Lemma wait_loop_background pid answers : forall status j w,
  isBackground j = true ->
  exists polls,
    Forall (fun c => c = SysWaitpid (-1) WNOHANG) polls
    /\ match wait_loop pid answers status j w with
       | LoopDone _ _ j' w' => j' = j /\ w' = add_calls polls w
       | LoopPending _ j' w' => j' = j /\ w' = add_calls polls w
       end.
Proof.
  induction answers as [|a answers IH]; intros status j w Hbg.
  - exists []. split; [constructor|]. simpl. split; [reflexivity|].
    unfold add_calls. rewrite app_nil_r. destruct w; reflexivity.
  - rewrite wait_loop_cons, Hbg. simpl negb. cbv iota beta.
    destruct (negb (WIFEXITED (wait_status a status))
              && negb (WIFSIGNALED (wait_status a status))).
    + destruct (IH (wait_status a status) j (call (SysWaitpid (-1) WNOHANG) w) Hbg)
        as (polls & Hall & Hres).
      exists (SysWaitpid (-1) WNOHANG :: polls). split; [constructor; auto|].
      rewrite <- add_calls_call. exact Hres.
    + exists [SysWaitpid (-1) WNOHANG]. split; [repeat constructor|]. split; reflexivity.
Qed.

(** No blocking [waitpid] is ever made for a background job, and the launch
    notice is the first thing printed; the stored status is either left as it
    was or replaced by a signal text. *)
Lemma runCommand_parent_background pid e j w :
  isBackground j = true ->
  exists j' w' polls out,
    (runCommand_parent pid e j w = Returned j' w'
     \/ runCommand_parent pid e j w = Pending j' w')
    /\ Forall (fun c => c = SysWaitpid (-1) WNOHANG) polls
    /\ calls w' = (calls w ++ polls)%list
    /\ stdout w' = (stdout w ++ ("background pid is " ++ dec pid ++ newline) ++ out)%string
    /\ (j' = j
        \/ exists status, WIFSIGNALED status = true
             /\ j' = set_exitStatus
                       ("terminated by signal " ++ dec (WTERMSIG status) ++ ".") j).
Proof.
  intros Hbg. unfold runCommand_parent. rewrite Hbg.
  set (w1 := printf ("background pid is " ++ dec pid ++ newline) w).
  destruct (wait_loop_background pid (wait_answers e) (status_garbage e) j w1 Hbg)
    as (polls & Hall & Hres).
  destruct (wait_loop pid (wait_answers e) (status_garbage e) j w1)
    as [rest status j2 w2 | status j2 w2]; destruct Hres as [-> ->].
  - assert (Hsig : exists j3 w3 out3,
               (if WIFSIGNALED status
                then (set_exitStatus
                        ("terminated by signal " ++ dec (WTERMSIG status) ++ ".") j,
                      printf ("terminated by signal " ++ dec (WTERMSIG status)
                              ++ "." ++ newline) (add_calls polls w1))
                else (j, add_calls polls w1)) = (j3, w3)
               /\ calls w3 = (calls w ++ polls)%list
               /\ stdout w3 = (stdout w1 ++ out3)%string
               /\ (j3 = j \/ exists s, WIFSIGNALED s = true
                     /\ j3 = set_exitStatus
                               ("terminated by signal " ++ dec (WTERMSIG s) ++ ".") j)).
    { destruct (WIFSIGNALED status) eqn:Es.
      - do 3 eexists. split; [reflexivity|]. split; [reflexivity|].
        split; [reflexivity|]. right. exists status. split; [exact Es | reflexivity].
      - exists j, (add_calls polls w1), EmptyString. split; [reflexivity|].
        split; [reflexivity|]. split; [simpl; rewrite string_app_nil_r; reflexivity|].
        left. reflexivity. }
    destruct Hsig as (j3 & w3 & out3 & -> & Hc & Ho & Hj).
    destruct rest as [|a rest].
    + exists j3, w3, polls, out3. split; [right; reflexivity|].
      split; [exact Hall|]. split; [exact Hc|]. split; [|exact Hj].
      rewrite Ho. unfold w1, printf. cbn [stdout]. apply string_app_assoc.
    + destruct (reap_poll_frame a status w3) as (notice & Hn & _).
      exists j3, (reap_poll a status w3), (polls ++ [SysWaitpid (-1) WNOHANG])%list,
             (out3 ++ notice)%string.
      split; [left; reflexivity|].
      split; [apply Forall_app; split; [exact Hall | repeat constructor]|].
      split.
      * unfold reap_poll.
        destruct (wait_ret a >? 0);
          [destruct (WIFEXITED (wait_status a status));
           destruct (WIFSIGNALED (wait_status a status))|];
          simpl; rewrite Hc, app_assoc; reflexivity.
      * split; [|exact Hj]. rewrite Hn, Ho. unfold w1, printf. cbn [stdout].
        rewrite !string_app_assoc. reflexivity.
  - exists j, (add_calls polls w1), polls, EmptyString.
    split; [right; reflexivity|]. split; [exact Hall|].
    split; [reflexivity|]. split; [|left; reflexivity].
    simpl. rewrite string_app_nil_r. reflexivity.
Qed.

(** ** Stopped children *)

(** A status that reports a stopped child is not terminal: the foreground wait
    is repeated on it. *)
Lemma WIFSTOPPED_not_terminal status :
  WIFSTOPPED status = true -> terminal status = false.
Proof.
  unfold WIFSTOPPED, terminal, WIFEXITED, WIFSIGNALED, WTERMSIG. intros H.
  apply Z.eqb_eq in H.
  assert (H7 : Z.land status 127 = 127).
  { change 127 with (Z.land 255 127) at 1. rewrite Z.land_assoc, H. reflexivity. }
  rewrite H7. reflexivity.
Qed.

(** ** Sessions

    Runs of [main] on whole command lines, each with what the system answers
    while the line is handled. *)

(** A foreground command that exits with code 3, then [status] twice. *)
Example session_status :
  exists j w,
    main [("ls -l" ++ newline,
           mkRunEnv 42 0 [Reaped 42 (W_EXITCODE 3 0); NoChange] example_child_env);
          ("status" ++ newline, mkRunEnv 0 0 [] example_child_env);
          ("status" ++ newline, mkRunEnv 0 0 [] example_child_env)]%string
         empty_job example_world
    = Next j w
    /\ stdout w = (": : exit value 3" ++ newline ++ ": exit value 0" ++ newline)%string
    /\ calls w = [SysFork 42; SysWaitpid 42 WUNTRACED; SysWaitpid (-1) WNOHANG].
Proof. do 2 eexists. split; [vm_compute; reflexivity|]. split; reflexivity. Qed.

(** [status] first: the sentinel is printed. *)
Example session_sentinel :
  exists j w,
    main [("status" ++ newline, mkRunEnv 0 0 [] example_child_env)]%string
         empty_job example_world
    = Next j w
    /\ stdout w = (": none" ++ newline)%string.
Proof. do 2 eexists. split; [vm_compute; reflexivity | reflexivity]. Qed.

(** [sleep 5 &] when [status] starts as 127 and nothing changes state: after
    three polls the shell is still inside [runCommand]. *)
Example session_background_polls :
  exists j w,
    main [("sleep 5 &" ++ newline,
           mkRunEnv 42 127 [NoChange; NoChange; NoChange] example_child_env)]%string
         empty_job example_world
    = Waits j w
    /\ stdout w = (": background pid is 42" ++ newline)%string
    /\ calls w = [SysFork 42; SysWaitpid (-1) WNOHANG; SysWaitpid (-1) WNOHANG;
                  SysWaitpid (-1) WNOHANG].
Proof. do 2 eexists. split; [vm_compute; reflexivity|]. split; reflexivity. Qed.

(** The same line when [status] starts as 0: the shell is back at once. *)
Example session_background_returns :
  exists j w,
    main [("sleep 5 &" ++ newline,
           mkRunEnv 42 0 [NoChange; NoChange] example_child_env)]%string
         empty_job example_world
    = Next j w
    /\ stdout w = (": background pid is 42" ++ newline)%string
    /\ exitStatus j = "none".
Proof. do 2 eexists. split; [vm_compute; reflexivity|]. split; reflexivity. Qed.

(** Two background launches; the second one reaps the first, killed by signal
    15 in between, and the text lands in the status [status] then prints. *)
Example session_background_status :
  exists j w,
    main [("sleep 100 &" ++ newline,
           mkRunEnv 41 0 [NoChange; NoChange] example_child_env);
          ("sleep 5 &" ++ newline,
           mkRunEnv 42 0 [Reaped 41 (W_EXITCODE 0 15); NoChange] example_child_env);
          ("status" ++ newline, mkRunEnv 0 0 [] example_child_env)]%string
         empty_job example_world
    = Next j w
    /\ stdout w = (": background pid is 41" ++ newline
                   ++ ": background pid is 42" ++ newline
                   ++ "terminated by signal 15." ++ newline
                   ++ ": terminated by signal 15." ++ newline)%string.
Proof. do 2 eexists. split; [vm_compute; reflexivity | reflexivity]. Qed.

(** In the forked child of [sleep 5 &]: the command is run with the default
    disposition of SIGINT and its input taken from [/dev/null]. *)
Example session_background_child :
  exists c,
    main [("sleep 5 &" ++ newline, mkRunEnv 0 0 [] example_child_env)]%string
         empty_job example_world
    = Child (Execed c (Some "sleep") ["sleep"; "5"])
    /\ c_sigint c = SIG_DFL
    /\ c_opened c = [Some "/dev/null"]
    /\ c_dups c = [(3, 0)].
Proof. eexists. split; [vm_compute; reflexivity|]. repeat split. Qed.

(** [cd] to a directory that is not there, then [cd] alone. *)
Example session_cd :
  exists j w,
    main [("cd /nope" ++ newline, mkRunEnv 0 0 [] example_child_env);
          ("status" ++ newline, mkRunEnv 0 0 [] example_child_env);
          ("cd" ++ newline, mkRunEnv 0 0 [] example_child_env)]%string
         empty_job example_world
    = Next j w
    /\ stdout w = (": /nope: no such file or directory" ++ newline
                   ++ ": exit value 1" ++ newline ++ ": ")%string
    /\ cwd w = "/home" /\ exitStatus j = "exit value 0" /\ calls w = [].
Proof. do 2 eexists. split; [vm_compute; reflexivity|]. repeat split. Qed.

(** Blank lines, comments and lines of operators only are skipped; [exit] and
    the end of the input stop the shell. *)
Example session_skips :
  (exists w,
      main [(newline, mkRunEnv 0 0 [] example_child_env);
            ("# status" ++ newline, mkRunEnv 0 0 [] example_child_env);
            ("&" ++ newline, mkRunEnv 0 0 [] example_child_env);
            ("exit" ++ newline, mkRunEnv 0 0 [] example_child_env);
            ("status" ++ newline, mkRunEnv 0 0 [] example_child_env)]%string
           empty_job example_world
      = Halt w /\ stdout w = ": : : : " /\ calls w = [])
  /\ (exists w,
      main [(EmptyString, mkRunEnv 0 0 [] example_child_env)]%string empty_job example_world
      = Halt w).
Proof.
  split; eexists; [split; [vm_compute; reflexivity|]; split; reflexivity | reflexivity].
Qed.

(** * Further properties of the shell *)

(** ** Lines that dispatch nothing *)

Local Open Scope nat_scope.

Lemma runBuiltIn_calls j w : calls (snd (runBuiltIn j w)) = calls w.
Proof.
  unfold runBuiltIn, chdir, getenv_HOME.
  destruct (strcmp0 (args j 0) "status"); [reflexivity|].
  destruct (args j 1) as [path|].
  - destruct (dir_of w (cwd w) path); reflexivity.
  - destruct (HOME w) as [home|]; [|reflexivity].
    destruct (dir_of w (cwd w) home); reflexivity.
Qed.

(** What [main] sees of a parsed line whose arguments fit the array: the
    count and the first cell. *)
Lemma parseCommandLine_first rawInput j :
  length (arg_tokens (tokenize rawInput)) < COMMAND_LINE_ARG ->
  exists jp,
    parseCommandLine rawInput (main_reset j) = Some (Stored jp)
    /\ argCount jp = length (arg_tokens (tokenize rawInput))
    /\ (arg_tokens (tokenize rawInput) <> [] ->
        args jp 0 = nth_error (arg_tokens (tokenize rawInput)) 0)
    /\ exitStatus jp = exitStatus j.
Proof.
  intros Hb.
  destruct (parseCommandLine_stores rawInput j Hb) as (jp & Hp & Hc & Hcells & _ & Hs).
  exists jp. split; [exact Hp|]. split; [exact Hc|]. split; [|exact Hs].
  intros Hne. apply Hcells. rewrite Hc.
  destruct (arg_tokens (tokenize rawInput)); [contradiction | simpl; lia].
Qed.

(** X1.  A blank line, a comment line, and a line without any argument (only
    operators and redirection paths) make [main] print its prompt and go
    round: nothing is run, no call is made and the stored status stays. *)
Theorem no_dispatch_lines g h c rest e j w :
  c = "010"%char \/ c = "#"%char \/ arg_tokens (tokenize (String c rest)) = [] ->
  exists j',
    main_iteration g h (String c rest) e j w = Next j' (printf ": " w)
    /\ exitStatus j' = exitStatus j
    /\ calls (printf ": " w) = calls w.
Proof.
  intros H. unfold main_iteration.
  destruct (Ascii.eqb c "010" || Ascii.eqb c "#")%bool eqn:Ec.
  - exists (main_reset j). repeat split.
  - destruct H as [-> | [-> | Hnil]]; try discriminate.
    destruct (parseCommandLine_first (String c rest) j)
      as (jp & Hp & Hc & _ & Hs);
      [rewrite Hnil; unfold COMMAND_LINE_ARG; simpl; lia|].
    rewrite Hp. rewrite Hnil in Hc. rewrite Hc. exists jp. repeat split. exact Hs.
Qed.

Lemma no_dispatch_lines_witness :
  exists j',
    main_iteration (fst init) (snd init) ("> out.txt &" ++ newline)
                   (mkRunEnv 42 0 [] example_child_env)
                   (set_exitStatus "exit value 3" empty_job) example_world
    = Next j' (printf ": " example_world)
    /\ exitStatus j' = "exit value 3".
Proof.
  destruct (no_dispatch_lines (fst init) (snd init) ">"%char
              (" out.txt &" ++ newline) (mkRunEnv 42 0 [] example_child_env)
              (set_exitStatus "exit value 3" empty_job) example_world)
    as (j' & H1 & H2 & _).
  - right. right. reflexivity.
  - exists j'. split; assumption.
Defined.

(** X2.  A line of at most 511 arguments whose first argument is [exit] stops
    the shell, whatever else is on the line: no child is forked, nothing is
    waited for. *)
Theorem exit_line_halts g h c rest e j w :
  c <> "010"%char -> c <> "#"%char ->
  nth_error (arg_tokens (tokenize (String c rest))) 0 = Some "exit" ->
  length (arg_tokens (tokenize (String c rest))) <= 511 ->
  main_iteration g h (String c rest) e j w = Halt (printf ": " w)
  /\ calls (printf ": " w) = calls w.
Proof.
  intros Hn Hh Hexit Hle. split; [|reflexivity]. unfold main_iteration.
  apply Ascii.eqb_neq in Hn, Hh. rewrite Hn, Hh. simpl orb. cbv iota.
  destruct (parseCommandLine_first (String c rest) j)
    as (jp & Hp & Hc & H0 & _); [unfold COMMAND_LINE_ARG; lia|].
  rewrite Hp.
  assert (Hne : arg_tokens (tokenize (String c rest)) <> [])
    by (intros E; rewrite E in Hexit; discriminate).
  rewrite (H0 Hne), Hexit, Hc.
  destruct (arg_tokens (tokenize (String c rest))); [contradiction|]. reflexivity.
Qed.

Lemma exit_line_halts_witness :
  main_iteration (fst init) (snd init) ("exit now &" ++ newline)
                 (mkRunEnv 42 0 [] example_child_env) empty_job example_world
  = Halt (printf ": " example_world).
Proof.
  apply (exit_line_halts (fst init) (snd init) "e"%char ("xit now &" ++ newline));
    [discriminate | discriminate | reflexivity | vm_compute; lia].
Defined.

(** X3.  A line of at most 511 arguments whose first argument is [cd] or
    [status] is handled inside the shell: whatever redirections or [&] the
    line carries, no [fork] and no [waitpid] is made and the shell goes on to
    the next prompt. *)
Theorem builtin_lines_never_fork g h c rest e j w name :
  c <> "010"%char -> c <> "#"%char ->
  nth_error (arg_tokens (tokenize (String c rest))) 0 = Some name ->
  name = "cd" \/ name = "status" ->
  length (arg_tokens (tokenize (String c rest))) <= 511 ->
  exists j' w',
    main_iteration g h (String c rest) e j w = Next j' w'
    /\ calls w' = calls w.
Proof.
  intros Hn Hh Hname Hb Hle. unfold main_iteration.
  apply Ascii.eqb_neq in Hn, Hh. rewrite Hn, Hh. simpl orb. cbv iota.
  destruct (parseCommandLine_first (String c rest) j)
    as (jp & Hp & Hc & H0 & _); [unfold COMMAND_LINE_ARG; lia|].
  rewrite Hp.
  assert (Hne : arg_tokens (tokenize (String c rest)) <> [])
    by (intros E; rewrite E in Hname; discriminate).
  rewrite (H0 Hne), Hname, Hc.
  destruct (arg_tokens (tokenize (String c rest))); [contradiction|].
  pose proof (runBuiltIn_calls jp (printf ": " w)) as Hcalls.
  destruct (runBuiltIn jp (printf ": " w)) as [j2 w2].
  destruct Hb; subst name; simpl; exists j2, w2; split; try reflexivity; exact Hcalls.
Qed.

Lemma builtin_lines_never_fork_witness :
  exists j' w',
    main_iteration (fst init) (snd init) ("status > out.txt &" ++ newline)
                   (mkRunEnv 42 0 [] example_child_env) empty_job example_world
    = Next j' w'
    /\ calls w' = [].
Proof.
  apply (builtin_lines_never_fork (fst init) (snd init) "s"%char
           ("tatus > out.txt &" ++ newline) (mkRunEnv 42 0 [] example_child_env)
           empty_job example_world "status");
    [discriminate | discriminate | reflexivity | right; reflexivity | vm_compute; lia].
Defined.

(** ** The background marker *)

Lemma arg_tokens_plain toks :
  Forall (fun t => is_redirect t = false) toks ->
  arg_tokens toks = filter (fun t => negb (t =? "&")%string) toks.
Proof.
  induction 1 as [|t toks Ht _ IH]; [reflexivity|].
  rewrite (arg_tokens_other _ _ Ht). cbn [filter].
  destruct (t =? "&")%string; cbn [negb]; rewrite IH; reflexivity.
Qed.

(** The flags the parser leaves on tokens without a redirection operator. *)
Lemma parse_tokens_plain toks : forall j jp,
  Forall (fun t => is_redirect t = false) toks ->
  parse_tokens toks j = Stored jp ->
  isBackground jp = (isBackground j || existsb (String.eqb "&") toks)%bool
  /\ isInput jp = isInput j
  /\ isOutput jp = isOutput j.
Proof.
  induction toks as [|t toks IH]; intros j jp Hplain Hp.
  - cbn [parse_tokens] in Hp. injection Hp as <-.
    cbn [existsb]. rewrite orb_false_r. repeat split.
  - inversion Hplain as [|? ? Ht Hrest]; subst.
    rewrite parse_tokens_cons in Hp. cbn [existsb].
    destruct (is_redirect_false _ Ht) as [E1 E2]. rewrite E1, E2 in Hp.
    rewrite (String.eqb_sym "&" t).
    destruct (t =? "&")%string.
    + destruct (IH _ _ Hrest Hp) as (Hb & Hi & Ho).
      rewrite Hb, Hi, Ho. cbn [isBackground isInput isOutput set_isBackground orb].
      rewrite orb_true_r. repeat split.
    + unfold store_arg in Hp.
      destruct (argCount j <? COMMAND_LINE_ARG); [|discriminate].
      destruct (IH _ _ Hrest Hp) as (Hb & Hi & Ho).
      rewrite Hb, Hi, Ho. repeat split.
Qed.

Lemma then_cap_flags p jp :
  then_cap p = Stored jp ->
  exists jt,
    p = Stored jt
    /\ isBackground jp = isBackground jt
    /\ isInput jp = isInput jt
    /\ isOutput jp = isOutput jt.
Proof.
  destruct p as [jt|i]; [|discriminate].
  cbn [then_cap]. unfold cap_args, store_arg.
  destruct (argCount jt <? COMMAND_LINE_ARG); [|discriminate].
  intros H. injection H as <-. exists jt. repeat split.
Qed.

(** X4.  On a line without redirection operators and with at most 511 tokens
    other than [&], [&] is taken as the background marker wherever it stands,
    not only at the end: the job is a background job exactly when some token
    is [&], and the arguments the job holds are all the other tokens, in
    order. *)
Theorem ampersand_anywhere rawInput j :
  Forall (fun t => is_redirect t = false) (tokenize rawInput) ->
  length (filter (fun t => negb (t =? "&")%string) (tokenize rawInput)) <= 511 ->
  exists jp,
    parseCommandLine rawInput (main_reset j) = Some (Stored jp)
    /\ isBackground jp = existsb (String.eqb "&") (tokenize rawInput)
    /\ isInput jp = false /\ isOutput jp = false
    /\ arguments jp = filter (fun t => negb (t =? "&")%string) (tokenize rawInput)
    /\ argCount jp
       = length (filter (fun t => negb (t =? "&")%string) (tokenize rawInput))
    /\ forall k, k < argCount jp ->
         args jp k
         = nth_error (filter (fun t => negb (t =? "&")%string) (tokenize rawInput)) k.
Proof.
  intros Hplain Hle.
  pose proof (arg_tokens_plain _ Hplain) as Ha. rewrite <- Ha in *.
  assert (Hb : length (arg_tokens (tokenize rawInput)) < COMMAND_LINE_ARG)
    by (unfold COMMAND_LINE_ARG; lia).
  destruct (parseCommandLine_stores rawInput j Hb) as (jp & Hp & Hc & Hcells & Hnull & _).
  exists jp. split; [exact Hp|].
  rewrite parseCommandLine_tokens in Hp. injection Hp as Hp.
  destruct (then_cap_flags _ _ Hp) as (jt & Ht & Fb & Fi & Fo).
  destruct (parse_tokens_plain _ _ _ Hplain Ht) as (Gb & Gi & Go).
  rewrite Fb, Fi, Fo, Gb, Gi, Go.
  repeat split; try reflexivity; try assumption.
  exact (arguments_stored _ _ Hc Hcells Hnull Hb).
Qed.

Lemma ampersand_anywhere_witness :
  exists jp,
    parseCommandLine ("sleep & 5" ++ newline) (main_reset empty_job) = Some (Stored jp)
    /\ isBackground jp = true /\ arguments jp = ["sleep"; "5"] /\ argCount jp = 2.
Proof.
  destruct (ampersand_anywhere ("sleep & 5" ++ newline) empty_job)
    as (jp & H1 & H2 & _ & _ & H3 & H4 & _).
  - repeat constructor.
  - vm_compute. lia.
  - exists jp. split; [exact H1|]. split; [exact H2|]. split; [exact H3 | exact H4].
Defined.

(** ** [cd] from the prompt *)

(** X5.  A line [cd <path>] of at most 511 arguments, with or without further
    modifiers, moves the shell to the directory [chdir] finds for the path,
    stores [exit value 0] and prints nothing but the prompt. *)
Theorem cd_line_changes_directory g h c rest e j w path more d :
  c <> "010"%char -> c <> "#"%char ->
  arg_tokens (tokenize (String c rest)) = "cd" :: path :: more ->
  length (arg_tokens (tokenize (String c rest))) <= 511 ->
  dir_of w (cwd w) path = Some d ->
  exists j',
    main_iteration g h (String c rest) e j w
    = Next j' (set_cwd d (printf ": " w))
    /\ exitStatus j' = "exit value 0".
Proof.
  intros Hn Hh Htoks Hle Hdir. unfold main_iteration.
  apply Ascii.eqb_neq in Hn, Hh. rewrite Hn, Hh. simpl orb. cbv iota.
  destruct (parseCommandLine_stores (String c rest) j)
    as (jp & Hp & Hc & Hcells & _); [unfold COMMAND_LINE_ARG; lia|].
  rewrite Hp. rewrite Htoks in Hc, Hcells. simpl in Hc.
  pose proof (Hcells 0 ltac:(lia)) as H0. pose proof (Hcells 1 ltac:(lia)) as H1.
  simpl in H0, H1. rewrite Hc. cbn [Nat.eqb]. rewrite H0. simpl.
  unfold runBuiltIn. rewrite H0, H1. simpl. rewrite Hdir. simpl.
  eexists. split; reflexivity.
Qed.

Lemma cd_line_changes_directory_witness :
  exists j',
    main_iteration (fst init) (snd init) ("cd /home &" ++ newline)
                   (mkRunEnv 42 0 [] example_child_env) empty_job example_world
    = Next j' (set_cwd "/home" (printf ": " example_world))
    /\ exitStatus j' = "exit value 0".
Proof.
  apply (cd_line_changes_directory (fst init) (snd init) "c"%char
           ("d /home &" ++ newline) (mkRunEnv 42 0 [] example_child_env)
           empty_job example_world "/home" []);
    [discriminate | discriminate | reflexivity | vm_compute; lia | reflexivity].
Defined.

(** ** The forked child: redirection and the end of the child *)

Local Open Scope Z_scope.

(** X6.  When the input file of the job cannot be opened, the child prints
    [smallsh: cannot open <path> for input] and exits with code 1: the command
    is not run, and the output file, if any, is not opened (so neither created
    nor truncated). *)
Theorem child_input_open_failure g inherited e j path :
  isInput j = true ->
  inFile j = Some path ->
  open_ret e (Some path) = -1 ->
  exists c,
    runCommand_child g inherited e j = Exited c 1
    /\ c_stdout c = ("smallsh: cannot open " ++ path ++ " for input" ++ newline)%string
    /\ c_opened c = [Some path]
    /\ c_dups c = [].
Proof.
  intros Hin Hpath Hopen.
  unfold runCommand_child, child_input, c_open. rewrite Hin, Hpath, Hopen. simpl.
  eexists. repeat split.
Qed.

Lemma child_input_open_failure_witness :
  exists c,
    runCommand_child (fst init) (snd init)
      (mkChildEnv (fun _ => -1) (fun _ _ => 0) false)
      (set_outFile (Some "out") (set_isOutput true
         (set_inFile (Some "nofile") (set_isInput true (job_of_tokens ["cat"])))))
    = Exited c 1
    /\ c_opened c = [Some "nofile"].
Proof.
  destruct (child_input_open_failure (fst init) (snd init)
              (mkChildEnv (fun _ => -1) (fun _ _ => 0) false)
              (set_outFile (Some "out") (set_isOutput true
                 (set_inFile (Some "nofile") (set_isInput true (job_of_tokens ["cat"])))))
              "nofile" eq_refl eq_refl eq_refl)
    as (c & H1 & _ & H2 & _).
  exists c. split; assumption.
Defined.

(** X7.  Unless the input file fails to open, the child goes on to [execvp]
    whatever happens to the other calls (a failing [dup2], an output file that
    cannot be opened): it runs [args[0]] with the argument list when [execvp]
    succeeds, and otherwise prints [<command>: no such file or directory] and
    exits with code 1. *)
Theorem child_reaches_execvp g inherited e j :
  isInput j = false \/ open_ret e (inFile j) <> -1 ->
  exists c,
    (execvp_fails e = false ->
     runCommand_child g inherited e j = Execed c (args j 0%nat) (arguments j))
    /\ (execvp_fails e = true ->
        runCommand_child g inherited e j
        = Exited (c_printf (opt_str (args j 0%nat) ++ ": no such file or directory"
                            ++ newline) c) 1).
Proof.
  intros Hin. unfold runCommand_child.
  assert (Hi : exists c2,
             child_input e j (c_sigaction (foreground g)
                                (mkChild inherited EmptyString [] [] [])) = inr c2).
  { unfold child_input, c_open, c_dup2.
    destruct (isInput j) eqn:Ei.
    - destruct Hin as [Hin|Hin]; [discriminate|].
      apply Z.eqb_neq in Hin. rewrite Hin.
      destruct (dup2_ret e (open_ret e (inFile j)) 0 =? -1); eexists; reflexivity.
    - destruct (isBackground j); [|eexists; reflexivity].
      destruct (open_ret e (Some "/dev/null") =? -1);
        destruct (dup2_ret e (open_ret e (Some "/dev/null")) 0 =? -1);
        eexists; reflexivity. }
  destruct Hi as [c2 ->].
  exists (child_output e j c2). split; intros ->; reflexivity.
Qed.

Lemma child_reaches_execvp_witness :
  exists c,
    runCommand_child (fst init) (snd init)
      (mkChildEnv (fun _ => -1) (fun _ _ => -1) false)
      (set_outFile (Some "/no/such/dir/out") (set_isOutput true
         (job_of_tokens ["ls"; "-l"])))
    = Execed c (Some "ls") ["ls"; "-l"].
Proof.
  destruct (child_reaches_execvp (fst init) (snd init)
              (mkChildEnv (fun _ => -1) (fun _ _ => -1) false)
              (set_outFile (Some "/no/such/dir/out") (set_isOutput true
                 (job_of_tokens ["ls"; "-l"]))))
    as (c & Hexec & _).
  - left. reflexivity.
  - exists c. apply Hexec. reflexivity.
Defined.



(** ** Waiting and reaping *)

(** X9.  The closing poll of [runCommand] reports at most one child: for a
    child that exited it prints [background pid <p> is done: exit value <n>.],
    for a child killed by a signal
    [background pid <p> is done: terminated by signal <n>.], never both; when
    no child is returned it prints nothing.  It makes one non-blocking
    [waitpid] in every case. *)
Theorem reap_poll_notice a status w :
  stdout (reap_poll a status w)
  = (stdout w ++
     match a with
     | Reaped p s =>
         if p >? 0 then
           if WIFEXITED s then
             "background pid " ++ dec p ++ " is done: exit value "
             ++ dec (WEXITSTATUS s) ++ "." ++ newline
           else if WIFSIGNALED s then
             "background pid " ++ dec p ++ " is done: terminated by signal "
             ++ dec (WTERMSIG s) ++ "." ++ newline
           else EmptyString
         else EmptyString
     | _ => EmptyString
     end)%string
  /\ calls (reap_poll a status w) = (calls w ++ [SysWaitpid (-1) WNOHANG])%list.
Proof.
  unfold reap_poll. destruct a as [p s| |]; simpl.
  - destruct (p >? 0); [|simpl; rewrite string_app_nil_r; auto].
    destruct (WIFEXITED s) eqn:Ee.
    + rewrite (WIFEXITED_not_signaled _ Ee). simpl. auto.
    + destruct (WIFSIGNALED s); simpl; [auto|].
      rewrite string_app_nil_r. auto.
  - rewrite string_app_nil_r. auto.
  - rewrite string_app_nil_r. auto.
Qed.

Lemma wait_loop_stops pid stops : forall garbage j w,
  isBackground j = false ->
  Forall (fun s => terminal s = false) stops ->
  exists status j' w',
    wait_loop pid (map (Reaped pid) stops) garbage j w
    = LoopPending status j' w'
    /\ stdout w' = stdout w
    /\ calls w' = (calls w ++ repeat (SysWaitpid pid WUNTRACED) (length stops))%list.
Proof.
  induction stops as [|s stops IH]; intros garbage j w Hfg Hstops.
  - exists garbage, j, w. simpl. rewrite app_nil_r. repeat split.
  - inversion Hstops as [|? ? Hs Hrest]; subst.
    simpl map. rewrite wait_loop_cons, Hfg. simpl negb. cbv iota beta.
    rewrite not_terminal. simpl wait_status. rewrite Hs. simpl negb. cbv iota.
    destruct (IH s (set_exitStatus ("exit value " ++ dec (WEXITSTATUS s)) j)
                 (call (SysWaitpid pid WUNTRACED) w) Hfg Hrest)
      as (status & j' & w' & Hl & Ho & Hc).
    exists status, j', w'. split; [exact Hl|].
    split; [exact Ho|]. rewrite Hc. simpl. rewrite <- app_assoc. reflexivity.
Qed.

(** X10.  The shell does not come back to the prompt while its foreground
    child has only been reported stopped: as long as every answer to the
    blocking [waitpid] is a stop notification, [runCommand] stays in the wait,
    having printed nothing. *)
Theorem foreground_waits_through_stops g h pid stops garbage cenv j w :
  0 < pid ->
  isBackground j = false ->
  Forall (fun s => WIFSTOPPED s = true) stops ->
  exists j' w',
    runCommand g h (mkRunEnv pid garbage (map (Reaped pid) stops) cenv) j w
    = Pending j' w'
    /\ stdout w' = stdout w
    /\ calls w' = (calls w ++ SysFork pid
                   :: repeat (SysWaitpid pid WUNTRACED) (length stops))%list.
Proof.
  intros Hpid Hfg Hstops.
  rewrite runCommand_parent_pid by exact Hpid.
  unfold runCommand_parent. simpl fork_ret. simpl wait_answers. simpl status_garbage.
  rewrite Hfg.
  assert (Hnt : Forall (fun s => terminal s = false) stops).
  { eapply Forall_impl; [|exact Hstops]. intros s. apply WIFSTOPPED_not_terminal. }
  destruct (wait_loop_stops pid stops garbage j (call (SysFork pid) w) Hfg Hnt)
    as (status & j' & w' & -> & Ho & Hc).
  exists j', w'. split; [reflexivity|]. split; [exact Ho|].
  rewrite Hc. simpl. rewrite <- app_assoc. reflexivity.
Qed.

Lemma foreground_waits_through_stops_witness :
  exists j' w',
    runCommand (fst init) (snd init)
      (mkRunEnv 42 0 [Reaped 42 (W_EXITCODE 19 127); Reaped 42 (W_EXITCODE 20 127)]
                example_child_env)
      (job_of_tokens ["vi"]) example_world
    = Pending j' w'
    /\ stdout w' = EmptyString.
Proof.
  destruct (foreground_waits_through_stops (fst init) (snd init) 42
              [W_EXITCODE 19 127; W_EXITCODE 20 127] 0 example_child_env
              (job_of_tokens ["vi"]) example_world)
    as (j' & w' & H1 & H2 & _).
  - lia.
  - reflexivity.
  - repeat constructor.
  - exists j', w'. split; assumption.
Defined.

(** X11.  A background launch in the ordinary case: when the uninitialised
    [status] holds an exited status and no child has changed state, the shell
    prints the launch notice, polls twice without blocking and is back at the
    prompt with the stored status untouched. *)
Theorem background_launch_returns g h pid garbage rest cenv j w :
  0 < pid ->
  isBackground j = true ->
  WIFEXITED garbage = true ->
  runCommand g h (mkRunEnv pid garbage (NoChange :: NoChange :: rest) cenv) j w
  = Returned j
      (add_calls [SysFork pid; SysWaitpid (-1) WNOHANG; SysWaitpid (-1) WNOHANG]
                 (printf ("background pid is " ++ dec pid ++ newline) w)).
Proof.
  intros Hpid Hbg Hex.
  rewrite runCommand_parent_pid by exact Hpid.
  unfold runCommand_parent. simpl fork_ret. simpl wait_answers. simpl status_garbage.
  rewrite Hbg, wait_loop_cons, Hbg. simpl negb. cbv iota beta.
  simpl wait_status. rewrite Hex. cbn [negb andb]. cbv iota beta.
  rewrite (WIFEXITED_not_signaled _ Hex). cbv iota beta. f_equal.
  unfold reap_poll. cbn [wait_ret]. change (0 >? 0) with false. cbv iota beta zeta.
  unfold add_calls, printf, call. cbn [stdout cwd HOME dir_of calls].
  rewrite <- !app_assoc. reflexivity.
Qed.

Lemma background_launch_returns_witness :
  exists w',
    runCommand (fst init) (snd init)
      (mkRunEnv 42 0 [NoChange; NoChange] example_child_env)
      (set_exitStatus "exit value 3" (set_isBackground true (job_of_tokens ["sleep"; "5"])))
      example_world
    = Returned
        (set_exitStatus "exit value 3" (set_isBackground true (job_of_tokens ["sleep"; "5"])))
        w'
    /\ stdout w' = ("background pid is 42" ++ newline)%string.
Proof.
  eexists. split.
  - apply (background_launch_returns (fst init) (snd init) 42 0 [] example_child_env);
      [lia | reflexivity | reflexivity].
  - reflexivity.
Defined.

(** X12.  A background child that ends before the next background launch and
    is picked up by the poll inside the launch loop is reaped without any
    notice: after the launch notice nothing is printed for it, and the stored
    status stays. *)
Theorem child_reaped_in_loop_unreported g h pid q status garbage rest cenv j w :
  0 < pid ->
  isBackground j = true ->
  WIFEXITED status = true ->
  exists w',
    runCommand g h (mkRunEnv pid garbage (Reaped q status :: NoChange :: rest) cenv) j w
    = Returned j w'
    /\ stdout w' = (stdout w ++ "background pid is " ++ dec pid ++ newline)%string
    /\ calls w' = (calls w ++ [SysFork pid; SysWaitpid (-1) WNOHANG;
                               SysWaitpid (-1) WNOHANG])%list.
Proof.
  intros Hpid Hbg Hex.
  rewrite runCommand_parent_pid by exact Hpid.
  unfold runCommand_parent. simpl fork_ret. simpl wait_answers. simpl status_garbage.
  rewrite Hbg, wait_loop_cons, Hbg. simpl negb. cbv iota beta.
  simpl wait_status. rewrite Hex. cbn [negb andb]. cbv iota beta.
  rewrite (WIFEXITED_not_signaled _ Hex). cbv iota beta.
  eexists. split; [reflexivity|].
  unfold reap_poll. cbn [wait_ret]. change (0 >? 0) with false. cbv iota beta zeta.
  unfold printf, call. cbn [stdout cwd HOME dir_of calls].
  rewrite <- !app_assoc. split; reflexivity.
Qed.

Lemma child_reaped_in_loop_unreported_witness :
  exists w',
    runCommand (fst init) (snd init)
      (mkRunEnv 42 0 [Reaped 41 (W_EXITCODE 0 0); NoChange] example_child_env)
      (set_isBackground true (job_of_tokens ["sleep"; "5"])) example_world
    = Returned (set_isBackground true (job_of_tokens ["sleep"; "5"])) w'
    /\ stdout w' = ("background pid is 42" ++ newline)%string.
Proof.
  destruct (child_reaped_in_loop_unreported (fst init) (snd init) 42 41
              (W_EXITCODE 0 0) 0 [] example_child_env
              (set_isBackground true (job_of_tokens ["sleep"; "5"])) example_world)
    as (w' & H1 & H2 & _); [lia | reflexivity | reflexivity |].
  exists w'. split; assumption.
Defined.

(** ** The tokenizer *)

Lemma skip_delims_empty_iff s :
  skip_delims TOKEN_DELIMITERS s = EmptyString <-> all_delims s = true.
Proof.
  induction s as [|c s IH]; [split; reflexivity|].
  cbn [skip_delims all_delims].
  destruct (strchr TOKEN_DELIMITERS c); [exact IH|].
  split; discriminate.
Qed.

(** X13.  A line has no token exactly when it consists of delimiters (space,
    tab, carriage return, newline, bell) only; the empty line included. *)
Theorem tokenize_nil_iff rawInput :
  tokenize rawInput = [] <-> all_delims rawInput = true.
Proof.
  rewrite tokenize_unfold, <- skip_delims_empty_iff. unfold strtok.
  destruct (skip_delims TOKEN_DELIMITERS rawInput) as [|c s'].
  - split; reflexivity.
  - destruct (scan_token TOKEN_DELIMITERS (String c s')). split; discriminate.
Qed.

(** X14.  The token sequences of lines are exactly the lists of well-formed
    tokens: every token [strtok] cuts is non-empty and free of delimiters, and
    every list of such tokens is what the line made of them (a space after
    each) is cut into. *)
Theorem token_sequences toks :
  (exists rawInput, tokenize rawInput = toks)
  <-> Forall (fun t => token_ok t = true) toks.
Proof.
  split.
  - intros [rawInput <-]. apply tokenize_ok.
  - intros Hok. exists (join_tokens toks). apply tokenize_join. exact Hok.
Qed.

(** * The one-time pad programs: properties *)

(** ** Buffers *)

Local Open Scope Z_scope.

Lemma to_char_small x : -128 <= x < 128 -> Buf.to_char x = x.
Proof.
  intros Hx. unfold Buf.to_char, signed_char.
  destruct (Z_lt_ge_dec x 0) as [Hneg|Hpos].
  - replace (x mod 256) with (x + 256).
    + destruct (Z.ltb_spec (x + 256) 128); lia.
    + apply Z.mod_unique with (q := -1); lia.
  - rewrite Z.mod_small by lia. destruct (Z.ltb_spec x 128); lia.
Qed.

Lemma upd_length i v buf : length (Buf.upd i v buf) = length buf.
Proof.
  revert i. induction buf as [|x buf IH]; intros [|i]; simpl; auto.
Qed.

Lemma upd_nth i v buf : forall j d,
  nth j (Buf.upd i v buf) d
  = if (Nat.eqb j i && Nat.ltb i (length buf))%bool then v else nth j buf d.
Proof.
  revert i. induction buf as [|x buf IH]; intros i j d.
  - simpl. rewrite andb_false_r. destruct i; reflexivity.
  - destruct i as [|i], j as [|j]; simpl; try reflexivity.
    rewrite IH. reflexivity.
Qed.

Lemma upd_upd i v u buf : Buf.upd i v (Buf.upd i u buf) = Buf.upd i v buf.
Proof.
  revert i. induction buf as [|x buf IH]; intros [|i]; simpl; auto.
  rewrite IH. reflexivity.
Qed.

Lemma store_nat_upd i v buf :
  Buf.store_nat i v buf
  = if Nat.ltb i (length buf) then Some (Buf.upd i v buf) else None.
Proof.
  revert i. induction buf as [|x buf IH]; intros [|i]; simpl; auto.
  rewrite IH. change (S i <? S (length buf))%nat with (i <? length buf)%nat.
  destruct (i <? length buf)%nat; reflexivity.
Qed.

Lemma store_in i v buf :
  (i < length buf)%nat ->
  Buf.store (Z.of_nat i) v buf = Some (Buf.upd i v buf).
Proof.
  intros Hi. unfold Buf.store.
  destruct (Z.ltb_spec (Z.of_nat i) 0); [lia|].
  rewrite Nat2Z.id, store_nat_upd.
  apply Nat.ltb_lt in Hi. rewrite Hi. reflexivity.
Qed.

Lemma load_in i buf :
  (i < length buf)%nat ->
  Buf.load (Z.of_nat i) buf = Some (nth i buf 0).
Proof.
  intros Hi. unfold Buf.load.
  destruct (Z.ltb_spec (Z.of_nat i) 0); [lia|].
  rewrite Nat2Z.id. apply nth_error_nth'. exact Hi.
Qed.

Lemma load_out i buf :
  (length buf <= i)%nat -> Buf.load (Z.of_nat i) buf = None.
Proof.
  intros Hi. unfold Buf.load.
  destruct (Z.ltb_spec (Z.of_nat i) 0); [reflexivity|].
  rewrite Nat2Z.id. apply nth_error_None. exact Hi.
Qed.

Lemma load_upd_same i v buf :
  (i < length buf)%nat -> Buf.load (Z.of_nat i) (Buf.upd i v buf) = Some v.
Proof.
  intros Hi. rewrite load_in by (rewrite upd_length; exact Hi).
  rewrite upd_nth, Nat.eqb_refl. apply Nat.ltb_lt in Hi. rewrite Hi. reflexivity.
Qed.

(** ** [encrypt] of the decoding daemon *)

Lemma store_code i x buf :
  (i < length buf)%nat ->
  (if x =? 32 then Buf.store (Z.of_nat i) 26 buf
   else Buf.store (Z.of_nat i) (Buf.to_char (x - 65)) buf)
  = Some (Buf.upd i (OtpDecD.key_code x) buf).
Proof.
  intros Hi. unfold OtpDecD.key_code.
  destruct (x =? 32); apply store_in; exact Hi.
Qed.

Lemma store_letter i x buf :
  (i < length buf)%nat ->
  (if x =? 26 then Buf.store (Z.of_nat i) 32 buf
   else Buf.store (Z.of_nat i) (Buf.to_char (x + 65)) buf)
  = Some (Buf.upd i (if x =? 26 then 32 else Buf.to_char (x + 65)) buf).
Proof.
  intros Hi. destruct (x =? 26); apply store_in; exact Hi.
Qed.

Lemma encrypt_at_in i c k :
  (i < length c)%nat -> (i < length k)%nat ->
  OtpDecD.encrypt_at (Z.of_nat i) (c, k)
  = Some (Buf.upd i (OtpDecD.decode_char (nth i c 0) (nth i k 0)) c,
          Buf.upd i (OtpDecD.key_code (nth i k 0)) k).
Proof.
  intros Hc Hk. unfold OtpDecD.encrypt_at, Buf.bind.
  rewrite (load_in i c Hc), (store_code i _ c Hc).
  rewrite (load_in i k Hk), (store_code i _ k Hk).
  rewrite (load_upd_same i _ c Hc), (load_upd_same i _ k Hk).
  rewrite store_in by (rewrite upd_length; exact Hc).
  rewrite upd_upd, (load_upd_same i _ c Hc).
  rewrite store_letter by (rewrite upd_length; exact Hc).
  rewrite upd_upd. reflexivity.
Qed.

Lemma encrypt_at_out i c k :
  (length c <= i)%nat \/ (length k <= i)%nat ->
  OtpDecD.encrypt_at (Z.of_nat i) (c, k) = None.
Proof.
  intros Hout. unfold OtpDecD.encrypt_at, Buf.bind.
  destruct (Nat.lt_ge_cases i (length c)) as [Hc|Hc].
  - destruct Hout as [Hout|Hk]; [lia|].
    rewrite (load_in i c Hc), (store_code i _ c Hc), (load_out i k Hk). reflexivity.
  - rewrite (load_out i c Hc). reflexivity.
Qed.

Lemma encrypt_loop_in n : forall i c k,
  (i + n <= length c)%nat -> (i + n <= length k)%nat ->
  exists c' k',
    OtpDecD.encrypt_loop n (Z.of_nat i) (c, k) = Some (c', k')
    /\ length c' = length c /\ length k' = length k
    /\ (forall j, nth j c' 0
                  = if OtpDecD.in_range i n j
                    then OtpDecD.decode_char (nth j c 0) (nth j k 0) else nth j c 0)
    /\ (forall j, nth j k' 0
                  = if OtpDecD.in_range i n j then OtpDecD.key_code (nth j k 0) else nth j k 0).
Proof.
  induction n as [|n IH]; intros i c k Hc Hk.
  - exists c, k. simpl. repeat split; intros j; unfold OtpDecD.in_range;
      destruct (Nat.leb_spec i j); destruct (Nat.ltb_spec j (i + 0)); simpl;
      try reflexivity; lia.
  - cbn [OtpDecD.encrypt_loop]. unfold Buf.bind.
    rewrite encrypt_at_in by lia.
    replace (Z.of_nat i + 1) with (Z.of_nat (S i)) by lia.
    destruct (IH (S i) (Buf.upd i (OtpDecD.decode_char (nth i c 0) (nth i k 0)) c)
                 (Buf.upd i (OtpDecD.key_code (nth i k 0)) k))
      as (c' & k' & Hl & Hlc & Hlk & Hnc & Hnk);
      try (rewrite upd_length; lia).
    exists c', k'. rewrite upd_length in Hlc, Hlk.
    split; [exact Hl|]. split; [exact Hlc|]. split; [exact Hlk|].
    assert (Hic : (i <? length c)%nat = true) by (apply Nat.ltb_lt; lia).
    assert (Hik : (i <? length k)%nat = true) by (apply Nat.ltb_lt; lia).
    split; intros j; [rewrite Hnc | rewrite Hnk]; rewrite !upd_nth, ?Hic, ?Hik;
      unfold OtpDecD.in_range;
      destruct (Nat.leb_spec (S i) j); destruct (Nat.ltb_spec j (S i + n));
      destruct (Nat.leb_spec i j); destruct (Nat.ltb_spec j (i + S n));
      destruct (Nat.eqb_spec j i); simpl; try reflexivity; try lia; subst; reflexivity.
Qed.

Lemma encrypt_loop_out n : forall i c k,
  (i <= length c)%nat -> (i <= length k)%nat ->
  (length c < i + n)%nat \/ (length k < i + n)%nat ->
  OtpDecD.encrypt_loop n (Z.of_nat i) (c, k) = None.
Proof.
  induction n as [|n IH]; intros i c k Hc Hk Hout; [lia|].
  cbn [OtpDecD.encrypt_loop]. unfold Buf.bind.
  destruct (Nat.lt_ge_cases i (length c)) as [Hc'|Hc'];
    [destruct (Nat.lt_ge_cases i (length k)) as [Hk'|Hk']|].
  - rewrite encrypt_at_in by assumption.
    replace (Z.of_nat i + 1) with (Z.of_nat (S i)) by lia.
    apply IH; rewrite ?upd_length; lia.
  - rewrite encrypt_at_out by (right; exact Hk'). reflexivity.
  - rewrite encrypt_at_out by (left; exact Hc'). reflexivity.
Qed.

Lemma code_range c : OtpDecD.in_alphabet c -> 0 <= OtpDecD.code c <= 26.
Proof.
  unfold OtpDecD.in_alphabet, OtpDecD.code. intros [H|H].
  - destruct (Z.eqb_spec c 32); lia.
  - subst c. simpl. lia.
Qed.

Lemma key_code_alphabet c : OtpDecD.in_alphabet c -> OtpDecD.key_code c = OtpDecD.code c.
Proof.
  unfold OtpDecD.in_alphabet, OtpDecD.key_code, OtpDecD.code. intros H.
  destruct (Z.eqb_spec c 32); [reflexivity|].
  apply to_char_small. lia.
Qed.

Lemma letter_alphabet m : 0 <= m < 27 -> OtpDecD.in_alphabet (OtpDecD.letter m).
Proof.
  unfold OtpDecD.in_alphabet, OtpDecD.letter. intros H.
  destruct (Z.eqb_spec m 26); [right; reflexivity | left; lia].
Qed.

Lemma code_letter m : 0 <= m < 27 -> OtpDecD.code (OtpDecD.letter m) = m.
Proof.
  unfold OtpDecD.code, OtpDecD.letter. intros H.
  destruct (Z.eqb_spec m 26) as [->|Hm]; [reflexivity|].
  destruct (Z.eqb_spec (m + 65) 32); lia.
Qed.

Lemma letter_code c : OtpDecD.in_alphabet c -> OtpDecD.letter (OtpDecD.code c) = c.
Proof.
  unfold OtpDecD.in_alphabet, OtpDecD.code, OtpDecD.letter. intros H.
  destruct (Z.eqb_spec c 32) as [->|Hc]; [reflexivity|].
  destruct (Z.eqb_spec (c - 65) 26); lia.
Qed.

(** On letters of the pad, one pass of the loop subtracts the numbers of the
    letters modulo 27. *)
Lemma decode_char_alphabet c k :
  OtpDecD.in_alphabet c -> OtpDecD.in_alphabet k ->
  OtpDecD.decode_char c k
  = OtpDecD.letter ((OtpDecD.code c - OtpDecD.code k) mod 27).
Proof.
  intros Hc Hk. unfold OtpDecD.decode_char.
  rewrite (key_code_alphabet c Hc), (key_code_alphabet k Hk).
  pose proof (code_range c Hc) as Rc. pose proof (code_range k Hk) as Rk.
  rewrite Z.rem_mod_nonneg by lia.
  replace (OtpDecD.code c - OtpDecD.code k + 27)
    with (OtpDecD.code c - OtpDecD.code k + 1 * 27) by lia.
  rewrite Z.mod_add by lia.
  pose proof (Z.mod_pos_bound (OtpDecD.code c - OtpDecD.code k) 27 ltac:(lia)) as Rm.
  rewrite (to_char_small ((OtpDecD.code c - OtpDecD.code k) mod 27)) by lia.
  unfold OtpDecD.letter.
  destruct (Z.eqb_spec ((OtpDecD.code c - OtpDecD.code k) mod 27) 26); [reflexivity|].
  apply to_char_small. lia.
Qed.

(** X15.  [encrypt] stays inside its buffers exactly when the length is at
    least 1 and at most the size of both: with a length of 0 (or less) the
    closing store of the newline goes to the cell before the text, with a
    length beyond a buffer the loop runs past it. *)
Theorem encrypt_defined_iff c k n :
  OtpDecD.encrypt c k n = None
  <-> n <= 0 \/ Z.of_nat (length c) < n \/ Z.of_nat (length k) < n.
Proof.
  unfold OtpDecD.encrypt, Buf.bind.
  destruct (Z_le_gt_dec n 0) as [Hn|Hn].
  - replace (Z.to_nat n) with O by lia. simpl.
    replace (Z.max n 0) with 0 by lia. split; [intros _; left; exact Hn | reflexivity].
  - replace (Z.max n 0) with n by lia.
    destruct (le_gt_dec (Z.to_nat n) (length c)) as [Hc|Hc];
      [destruct (le_gt_dec (Z.to_nat n) (length k)) as [Hk|Hk]|].
    + destruct (encrypt_loop_in (Z.to_nat n) 0 c k Hc Hk)
        as (c' & k' & Hl & Hlc & _).
      change (Z.of_nat 0) with 0 in Hl. rewrite Hl. simpl fst.
      replace (n - 1) with (Z.of_nat (Z.to_nat n - 1)) by lia.
      rewrite store_in by lia. split; [discriminate | lia].
    + pose proof (encrypt_loop_out (Z.to_nat n) 0 c k ltac:(lia) ltac:(lia)
                    ltac:(simpl; lia)) as Ho.
      change (Z.of_nat 0) with 0 in Ho. rewrite Ho.
      split; [intros _; lia | reflexivity].
    + pose proof (encrypt_loop_out (Z.to_nat n) 0 c k ltac:(lia) ltac:(lia)
                    ltac:(simpl; lia)) as Ho.
      change (Z.of_nat 0) with 0 in Ho. rewrite Ho.
      split; [intros _; lia | reflexivity].
Qed.

(** X16.  On a chunk of [n] characters whose first [n - 1] are letters of the
    pad (A to Z, space), with as many letters of key, [encrypt] replaces each
    letter by the letter whose number is the difference of the two numbers
    modulo 27, puts a newline in the last cell whatever it held, leaves the
    cells after the chunk alone, and overwrites the key with the numbers of
    its letters. *)
Theorem encrypt_decodes c k n :
  (1 <= n <= length c)%nat -> (n <= length k)%nat ->
  (forall j, (j < n - 1)%nat ->
             OtpDecD.in_alphabet (nth j c 0) /\ OtpDecD.in_alphabet (nth j k 0)) ->
  exists c' k',
    OtpDecD.encrypt c k (Z.of_nat n) = Some (c', k')
    /\ length c' = length c
    /\ (forall j, (j < n - 1)%nat ->
          nth j c' 0
          = OtpDecD.letter ((OtpDecD.code (nth j c 0) - OtpDecD.code (nth j k 0)) mod 27)
          /\ OtpDecD.in_alphabet (nth j c' 0)
          /\ nth j k' 0 = OtpDecD.code (nth j k 0))
    /\ nth (n - 1) c' 0 = 10
    /\ (forall j, (n <= j)%nat -> nth j c' 0 = nth j c 0).
Proof.
  intros Hn Hk Hab. unfold OtpDecD.encrypt, Buf.bind.
  rewrite Nat2Z.id.
  destruct (encrypt_loop_in n 0 c k ltac:(lia) ltac:(lia))
    as (c1 & k1 & Hl & Hlc & Hlk & Hnc & Hnk).
  change (Z.of_nat 0) with 0 in Hl. rewrite Hl. simpl fst. simpl snd.
  replace (Z.max (Z.of_nat n) 0 - 1) with (Z.of_nat (n - 1)) by lia.
  rewrite store_in by lia.
  exists (Buf.upd (n - 1) 10 c1), k1. split; [reflexivity|].
  split; [rewrite upd_length; exact Hlc|].
  assert (Hlast : (n - 1 <? length c1)%nat = true) by (apply Nat.ltb_lt; lia).
  split; [|split].
  - intros j Hj. destruct (Hab j Hj) as [Hcj Hkj].
    rewrite upd_nth, Hnc, Hnk. unfold OtpDecD.in_range.
    destruct (Nat.eqb_spec j (n - 1)); [lia|].
    destruct (Nat.leb_spec 0 j); [|lia]. destruct (Nat.ltb_spec j (0 + n)); [|lia].
    simpl. rewrite (decode_char_alphabet _ _ Hcj Hkj), (key_code_alphabet _ Hkj).
    split; [reflexivity|]. split; [|reflexivity].
    apply letter_alphabet. apply Z.mod_pos_bound. lia.
  - rewrite upd_nth, Nat.eqb_refl, Hlast. reflexivity.
  - intros j Hj. rewrite upd_nth, Hnc. unfold OtpDecD.in_range.
    destruct (Nat.eqb_spec j (n - 1)); [lia|].
    destruct (Nat.ltb_spec j (0 + n)); [lia|]. rewrite andb_false_r. reflexivity.
Qed.

Lemma encrypt_decodes_witness :
  exists c' k',
    OtpDecD.encrypt [72; 73; 10; 0] [65; 66; 10; 0] 3 = Some (c', k')
    /\ nth 0%nat c' 0 = 72 /\ nth 1%nat c' 0 = 72 /\ nth 2%nat c' 0 = 10.
Proof.
  destruct (encrypt_decodes [72; 73; 10; 0] [65; 66; 10; 0] 3)
    as (c' & k' & H1 & _ & H2 & H3 & _).
  - simpl. lia.
  - simpl. lia.
  - intros [|[|j]] Hj; simpl in *; try lia;
      unfold OtpDecD.in_alphabet; split; left; lia.
  - exists c', k'. split; [exact H1|].
    destruct (H2 0%nat ltac:(simpl; lia)) as [H20 _].
    destruct (H2 1%nat ltac:(simpl; lia)) as [H21 _].
    split; [exact H20|]. split; [exact H21 | exact H3].
Defined.

(** X17.  [encrypt] undoes the pad: when every letter of the text is the
    letter whose number is the sum, modulo 27, of the numbers of a plain
    letter and of the key letter, the call gives the plain letters back (the
    last cell of the chunk excepted, which becomes a newline). *)
Theorem encrypt_inverts_pad p c k n :
  (1 <= n <= length c)%nat -> (n <= length k)%nat ->
  (forall j, (j < n - 1)%nat ->
             OtpDecD.in_alphabet (nth j p 0) /\ OtpDecD.in_alphabet (nth j k 0)
             /\ nth j c 0
                = OtpDecD.letter ((OtpDecD.code (nth j p 0)
                                   + OtpDecD.code (nth j k 0)) mod 27)) ->
  exists c' k',
    OtpDecD.encrypt c k (Z.of_nat n) = Some (c', k')
    /\ (forall j, (j < n - 1)%nat -> nth j c' 0 = nth j p 0)
    /\ nth (n - 1) c' 0 = 10.
Proof.
  intros Hn Hk Hpad. unfold OtpDecD.encrypt, Buf.bind.
  rewrite Nat2Z.id.
  destruct (encrypt_loop_in n 0 c k ltac:(lia) ltac:(lia))
    as (c1 & k1 & Hl & Hlc & Hlk & Hnc & Hnk).
  change (Z.of_nat 0) with 0 in Hl. rewrite Hl. simpl fst. simpl snd.
  replace (Z.max (Z.of_nat n) 0 - 1) with (Z.of_nat (n - 1)) by lia.
  rewrite store_in by lia.
  exists (Buf.upd (n - 1) 10 c1), k1. split; [reflexivity|].
  assert (Hlast : (n - 1 <? length c1)%nat = true) by (apply Nat.ltb_lt; lia).
  split.
  - intros j Hj. destruct (Hpad j Hj) as (Hp & Hkj & Hc).
    rewrite upd_nth, Hnc. unfold OtpDecD.in_range.
    destruct (Nat.eqb_spec j (n - 1)); [lia|].
    destruct (Nat.leb_spec 0 j); [|lia]. destruct (Nat.ltb_spec j (0 + n)); [|lia].
    simpl. pose proof (code_range _ Hp) as Rp. pose proof (code_range _ Hkj) as Rk.
    assert (Hm : 0 <= (OtpDecD.code (nth j p 0) + OtpDecD.code (nth j k 0)) mod 27 < 27)
      by (apply Z.mod_pos_bound; lia).
    rewrite decode_char_alphabet; [|rewrite Hc; apply letter_alphabet; exact Hm | exact Hkj].
    rewrite Hc, (code_letter _ Hm), Zminus_mod_idemp_l.
    replace (OtpDecD.code (nth j p 0) + OtpDecD.code (nth j k 0) - OtpDecD.code (nth j k 0))
      with (OtpDecD.code (nth j p 0)) by lia.
    rewrite Z.mod_small by lia. apply letter_code. exact Hp.
  - rewrite upd_nth, Nat.eqb_refl, Hlast. reflexivity.
Qed.

Lemma encrypt_inverts_pad_witness :
  exists c' k',
    OtpDecD.encrypt [73; 32; 10] [66; 32; 10] 3 = Some (c', k')
    /\ nth 0%nat c' 0 = 72 /\ nth 1%nat c' 0 = 65.
Proof.
  destruct (encrypt_inverts_pad [72; 65; 10] [73; 32; 10] [66; 32; 10] 3)
    as (c' & k' & H1 & H2 & _).
  - simpl. lia.
  - simpl. lia.
  - intros [|[|j]] Hj; simpl in *; try lia;
      unfold OtpDecD.in_alphabet; repeat split; (left; lia) || (right; lia) || reflexivity.
  - exists c', k'. split; [exact H1|].
    split; [exact (H2 0%nat ltac:(simpl; lia)) | exact (H2 1%nat ltac:(simpl; lia))].
Defined.

(** ** [validateInput] and the checks of the decoding client *)

Lemma bad_char_false_iff c :
  OtpDec.bad_char c = false <-> 65 <= c <= 90 \/ c = 32 \/ c = 10.
Proof.
  unfold OtpDec.bad_char.
  destruct (Z.ltb_spec c 65), (Z.gtb_spec c 90), (Z.eqb_spec c 32), (Z.eqb_spec c 10);
    simpl; split; intros Hc; try reflexivity; try discriminate; lia.
Qed.

(** On clean bytes the counter goes up by one per byte, as long as it stays
    an [int]. *)
Lemma validate_loop_good unread : forall off len,
  existsb OtpDec.bad_char unread = false ->
  len + Z.of_nat (length unread) <= OtpDec.INT_MAX ->
  OtpDec.validate_loop unread off len = Some (len + Z.of_nat (length unread), O).
Proof.
  induction unread as [|c rest IH]; intros off len Hgood Hmax.
  - simpl. do 2 f_equal. lia.
  - cbn [existsb] in Hgood. apply orb_false_elim in Hgood. destruct Hgood as [Hc Hrest].
    cbn [length] in Hmax. cbn [OtpDec.validate_loop]. rewrite Hc.
    assert (Hlt : (len <? OtpDec.INT_MAX) = true) by (apply Z.ltb_lt; lia).
    rewrite Hlt, IH by (exact Hrest || lia).
    do 2 f_equal. cbn [length]. lia.
Qed.

(** The loop stops on the first bad byte, the offset just past it. *)
Lemma validate_loop_bad good c rest : forall off len,
  existsb OtpDec.bad_char good = false ->
  OtpDec.bad_char c = true ->
  len + Z.of_nat (length good) <= OtpDec.INT_MAX ->
  OtpDec.validate_loop (good ++ c :: rest) off len
  = Some (-1, S (off + length good)%nat).
Proof.
  induction good as [|x good IH]; intros off len Hgood Hc Hmax.
  - cbn [app OtpDec.validate_loop length]. rewrite Hc, Nat.add_0_r. reflexivity.
  - cbn [existsb] in Hgood. apply orb_false_elim in Hgood. destruct Hgood as [Hx Hgood].
    cbn [length] in Hmax. cbn [app OtpDec.validate_loop]. rewrite Hx.
    assert (Hlt : (len <? OtpDec.INT_MAX) = true) by (apply Z.ltb_lt; lia).
    rewrite Hlt, IH by (assumption || lia).
    do 3 f_equal. cbn [length]. lia.
Qed.

Lemma first_bad_char text :
  existsb OtpDec.bad_char text = true ->
  exists good c rest,
    text = good ++ c :: rest
    /\ existsb OtpDec.bad_char good = false /\ OtpDec.bad_char c = true.
Proof.
  induction text as [|x text IH]; [discriminate|].
  cbn [existsb]. destruct (OtpDec.bad_char x) eqn:Ex.
  - intros _. exists [], x, text. repeat split. exact Ex.
  - cbn [orb]. intros H. destruct (IH H) as (good & c & rest & -> & Hg & Hc).
    exists (x :: good), c, rest. cbn [existsb]. rewrite Ex. repeat split; assumption.
Qed.

Lemma existsb_bad_char_false text :
  existsb OtpDec.bad_char text = false
  <-> Forall (fun c => 65 <= c <= 90 \/ c = 32 \/ c = 10) text.
Proof.
  induction text as [|c text IH]; simpl.
  - split; [constructor | reflexivity].
  - rewrite orb_false_iff, IH, bad_char_false_iff. split.
    + intros [Hc Ht]. constructor; assumption.
    + intros H. inversion H; subst. split; assumption.
Qed.

Lemma validateInput_good text :
  existsb OtpDec.bad_char text = false ->
  Z.of_nat (length text) <= OtpDec.INT_MAX ->
  OtpDec.validateInput (OtpDec.mkFile text O)
  = Some (Z.of_nat (length text), OtpDec.mkFile text O).
Proof.
  intros Hgood Hmax. unfold OtpDec.validateInput. simpl.
  rewrite validate_loop_good by (exact Hgood || lia). reflexivity.
Qed.

Lemma validateInput_bad good c rest :
  existsb OtpDec.bad_char good = false ->
  OtpDec.bad_char c = true ->
  Z.of_nat (length good) <= OtpDec.INT_MAX ->
  OtpDec.validateInput (OtpDec.mkFile (good ++ c :: rest) O)
  = Some (-1, OtpDec.mkFile (good ++ c :: rest) (S (length good))).
Proof.
  intros Hgood Hc Hmax. unfold OtpDec.validateInput. simpl.
  rewrite validate_loop_bad by (assumption || lia). reflexivity.
Qed.

(** X18.  [validateInput] on a freshly opened file of less than 2^31 bytes:
    when every byte is a capital letter, a space or a newline it returns the
    number of bytes and leaves the file rewound to its start; as soon as one
    byte is anything else it returns -1, and the file is left where the
    reading stopped, just past that byte. *)
Theorem validateInput_result text :
  Z.of_nat (length text) <= OtpDec.INT_MAX ->
  (Forall (fun c => 65 <= c <= 90 \/ c = 32 \/ c = 10) text ->
   OtpDec.validateInput (OtpDec.mkFile text O)
   = Some (Z.of_nat (length text), OtpDec.mkFile text O))
  /\ (forall good c rest,
        text = good ++ c :: rest ->
        Forall (fun c => 65 <= c <= 90 \/ c = 32 \/ c = 10) good ->
        ~ (65 <= c <= 90 \/ c = 32 \/ c = 10) ->
        OtpDec.validateInput (OtpDec.mkFile text O)
        = Some (-1, OtpDec.mkFile text (S (length good)))).
Proof.
  intros Hmax. split.
  - intros Hgood. apply existsb_bad_char_false in Hgood.
    exact (validateInput_good _ Hgood Hmax).
  - intros good c rest -> Hgood Hc.
    apply existsb_bad_char_false in Hgood.
    rewrite length_app in Hmax.
    apply validateInput_bad; [exact Hgood | | lia].
    apply not_false_is_true. intros Hf. apply Hc, bad_char_false_iff, Hf.
Qed.

Lemma validateInput_result_witness :
  OtpDec.validateInput (OtpDec.mkFile [72; 73; 32; 10] O)
  = Some (4, OtpDec.mkFile [72; 73; 32; 10] O)
  /\ OtpDec.validateInput (OtpDec.mkFile [72; 105; 10] O)
     = Some (-1, OtpDec.mkFile [72; 105; 10] 2%nat).
Proof.
  split.
  - destruct (validateInput_result [72; 73; 32; 10]) as [H _];
      [vm_compute; discriminate|].
    apply H. repeat constructor; lia.
  - destruct (validateInput_result [72; 105; 10]) as [_ H];
      [vm_compute; discriminate|].
    apply (H [72] 105 [10]); [reflexivity | repeat constructor; lia | lia].
Defined.

Lemma validateInput_fst text :
  Z.of_nat (length text) <= OtpDec.INT_MAX ->
  exists off,
    OtpDec.validateInput (OtpDec.mkFile text O)
    = if existsb OtpDec.bad_char text
      then Some (-1, OtpDec.mkFile text off)
      else Some (Z.of_nat (length text), OtpDec.mkFile text O).
Proof.
  intros Hmax. destruct (existsb OtpDec.bad_char text) eqn:E.
  - destruct (first_bad_char _ E) as (good & c & rest & -> & Hg & Hc).
    rewrite length_app in Hmax. exists (S (length good)).
    apply validateInput_bad; [exact Hg | exact Hc | lia].
  - exists O. exact (validateInput_good _ E Hmax).
Qed.

Lemma check_files_eq ctext ktext :
  Z.of_nat (length ctext) <= OtpDec.INT_MAX ->
  Z.of_nat (length ktext) <= OtpDec.INT_MAX ->
  OtpDec.check_files (Some ctext) (Some ktext)
  = if (existsb OtpDec.bad_char ctext || existsb OtpDec.bad_char ktext)%bool
    then OtpDec.BadCharacters
    else if (length ktext <? length ctext)%nat then OtpDec.KeyTooShort
    else OtpDec.Connects (OtpDec.mkFile ctext O) (OtpDec.mkFile ktext O).
Proof.
  intros Hc Hk. unfold OtpDec.check_files.
  destruct (validateInput_fst ctext Hc) as (offc & ->).
  destruct (validateInput_fst ktext Hk) as (offk & ->).
  destruct (existsb OtpDec.bad_char ctext);
    [destruct (existsb OtpDec.bad_char ktext); reflexivity|].
  destruct (existsb OtpDec.bad_char ktext).
  - simpl. destruct (Z.eqb_spec (Z.of_nat (length ctext)) (-1)); [lia|]. reflexivity.
  - simpl.
    destruct (Z.eqb_spec (Z.of_nat (length ctext)) (-1)); [lia|].
    destruct (Z.eqb_spec (Z.of_nat (length ktext)) (-1)); [lia|]. simpl.
    destruct (Z.gtb_spec (Z.of_nat (length ctext)) (Z.of_nat (length ktext)));
      destruct (Nat.ltb_spec (length ktext) (length ctext)); try reflexivity; lia.
Qed.

(** X19.  On two files of less than 2^31 bytes each, the decoding client goes
    on to the network exactly when both files hold nothing but capital
    letters, spaces and newlines and the key file is at least as long as the
    text file; it stops on the key being too short only when both files are
    clean, a bad byte in either file being reported first. *)
Theorem check_files_cases ctext ktext :
  Z.of_nat (length ctext) <= OtpDec.INT_MAX ->
  Z.of_nat (length ktext) <= OtpDec.INT_MAX ->
  let clean := Forall (fun c => 65 <= c <= 90 \/ c = 32 \/ c = 10) in
  (OtpDec.check_files (Some ctext) (Some ktext)
   = OtpDec.Connects (OtpDec.mkFile ctext O) (OtpDec.mkFile ktext O)
   <-> clean ctext /\ clean ktext /\ (length ctext <= length ktext)%nat)
  /\ (OtpDec.check_files (Some ctext) (Some ktext) = OtpDec.KeyTooShort
      <-> clean ctext /\ clean ktext /\ (length ktext < length ctext)%nat)
  /\ (OtpDec.check_files (Some ctext) (Some ktext) = OtpDec.BadCharacters
      <-> ~ (clean ctext /\ clean ktext)).
Proof.
  intros Hc Hk. cbv zeta.
  rewrite (check_files_eq _ _ Hc Hk), <- !existsb_bad_char_false.
  destruct (existsb OtpDec.bad_char ctext), (existsb OtpDec.bad_char ktext); simpl;
    try destruct (Nat.ltb_spec (length ktext) (length ctext));
    intuition (try discriminate; try lia; try reflexivity).
Qed.

Lemma check_files_cases_witness :
  OtpDec.check_files (Some [72; 73; 10]) (Some [88; 89; 90; 10])
  = OtpDec.Connects (OtpDec.mkFile [72; 73; 10] O) (OtpDec.mkFile [88; 89; 90; 10] O)
  /\ OtpDec.check_files (Some [72; 73; 10]) (Some [88; 10]) = OtpDec.KeyTooShort
  /\ OtpDec.check_files (Some [72; 73; 10]) (Some [120; 10]) = OtpDec.BadCharacters.
Proof.
  split; [|split].
  - apply (check_files_cases [72; 73; 10] [88; 89; 90; 10]);
      [vm_compute; discriminate | vm_compute; discriminate|].
    split; [repeat constructor; lia|]. split; [repeat constructor; lia | simpl; lia].
  - apply (check_files_cases [72; 73; 10] [88; 10]);
      [vm_compute; discriminate | vm_compute; discriminate|].
    split; [repeat constructor; lia|]. split; [repeat constructor; lia | simpl; lia].
  - apply (check_files_cases [72; 73; 10] [120; 10]);
      [vm_compute; discriminate | vm_compute; discriminate|].
    intros [_ Hk]. inversion Hk as [|x l Hx Hl]; subst. lia.
Defined.

(** ** [keygen] *)

Lemma key_loop_length n : forall i rand, length (Keygen.key_loop n i rand) = n.
Proof.
  induction n as [|n IH]; intros i rand; simpl; [reflexivity|]. rewrite IH. reflexivity.
Qed.

Lemma key_loop_letters n : forall i rand,
  (forall k, 0 <= rand k) ->
  Forall (fun c => 65 <= c <= 90 \/ c = 32) (Keygen.key_loop n i rand).
Proof.
  induction n as [|n IH]; intros i rand Hrand; simpl; constructor.
  - pose proof (Hrand i) as Hi.
    rewrite Z.rem_mod_nonneg by lia.
    pose proof (Z.mod_pos_bound (rand i) 27 ltac:(lia)) as Hm.
    destruct (Z.eqb_spec (rand i mod 27) 26); [right; reflexivity | left; lia].
  - apply IH. exact Hrand.
Qed.

Lemma keygen_clean keyLength rand :
  (forall k, 0 <= rand k) ->
  existsb OtpDec.bad_char (Keygen.keygen keyLength rand) = false.
Proof.
  intros Hrand. apply existsb_bad_char_false. unfold Keygen.keygen.
  apply Forall_app. split.
  - eapply Forall_impl; [|exact (key_loop_letters _ O rand Hrand)].
    intros c [H|H]; auto.
  - constructor; [right; right; reflexivity | constructor].
Qed.

Lemma keygen_length keyLength rand :
  keyLength < OtpDec.INT_MAX ->
  Z.of_nat (length (Keygen.keygen keyLength rand)) = Z.of_nat (Z.to_nat keyLength) + 1
  /\ Z.of_nat (length (Keygen.keygen keyLength rand)) <= OtpDec.INT_MAX.
Proof.
  intros Hmax. unfold Keygen.keygen. rewrite length_app, key_loop_length.
  cbn [length]. unfold OtpDec.INT_MAX in *. lia.
Qed.

(** X20.  Whatever [rand] returns, [keygen] prints as many letters of the pad
    (A to Z, space) as the length asks for (none for a length of 0 or less)
    and then a newline; for a length below [INT_MAX], [validateInput] accepts
    the result and returns its length with the newline counted. *)
Theorem keygen_key keyLength rand :
  (forall k, 0 <= rand k) ->
  keyLength < OtpDec.INT_MAX ->
  exists letters,
    Keygen.keygen keyLength rand = letters ++ [10]
    /\ length letters = Z.to_nat keyLength
    /\ Forall OtpDecD.in_alphabet letters
    /\ OtpDec.validateInput (OtpDec.mkFile (Keygen.keygen keyLength rand) O)
       = Some (Z.of_nat (Z.to_nat keyLength) + 1,
               OtpDec.mkFile (Keygen.keygen keyLength rand) O).
Proof.
  intros Hrand Hmax.
  exists (Keygen.key_loop (Z.to_nat keyLength) O rand).
  pose proof (key_loop_letters (Z.to_nat keyLength) O rand Hrand) as Hl.
  split; [reflexivity|]. split; [apply key_loop_length|]. split; [exact Hl|].
  destruct (keygen_length keyLength rand Hmax) as [Hlen Hle].
  rewrite validateInput_good; [rewrite Hlen; reflexivity | | exact Hle].
  exact (keygen_clean _ _ Hrand).
Qed.

Lemma keygen_key_witness :
  exists letters,
    Keygen.keygen 3 (fun k => Z.of_nat k + 25) = letters ++ [10]
    /\ length letters = 3%nat
    /\ OtpDec.validateInput (OtpDec.mkFile (Keygen.keygen 3 (fun k => Z.of_nat k + 25)) O)
       = Some (4, OtpDec.mkFile (Keygen.keygen 3 (fun k => Z.of_nat k + 25)) O).
Proof.
  destruct (keygen_key 3 (fun k => Z.of_nat k + 25)) as (letters & H1 & H2 & _ & H3).
  - intros k. lia.
  - reflexivity.
  - exists letters. split; [exact H1|]. split; [exact H2 | exact H3].
Defined.

(** X21.  A key written by [keygen] for a length below [INT_MAX] that is at
    least the number of characters of a clean text before its final newline
    passes the checks of the decoding client together with that text. *)
Theorem keygen_key_accepted keyLength rand ctext :
  (forall k, 0 <= rand k) ->
  keyLength < OtpDec.INT_MAX ->
  Forall (fun c => 65 <= c <= 90 \/ c = 32 \/ c = 10) ctext ->
  Z.of_nat (length ctext) <= keyLength + 1 ->
  OtpDec.check_files (Some ctext) (Some (Keygen.keygen keyLength rand))
  = OtpDec.Connects (OtpDec.mkFile ctext O)
                    (OtpDec.mkFile (Keygen.keygen keyLength rand) O).
Proof.
  intros Hrand Hmax Hclean Hlen.
  destruct (keygen_length keyLength rand Hmax) as [Hkl Hkle].
  rewrite check_files_eq, (keygen_clean _ _ Hrand); [|lia|exact Hkle].
  apply existsb_bad_char_false in Hclean. rewrite Hclean. simpl.
  destruct (Nat.ltb_spec (length (Keygen.keygen keyLength rand)) (length ctext));
    [lia | reflexivity].
Qed.

Lemma keygen_key_accepted_witness :
  OtpDec.check_files (Some [72; 73; 10]) (Some (Keygen.keygen 2 (fun k => Z.of_nat k)))
  = OtpDec.Connects (OtpDec.mkFile [72; 73; 10] O)
                    (OtpDec.mkFile (Keygen.keygen 2 (fun k => Z.of_nat k)) O).
Proof.
  apply (keygen_key_accepted 2 (fun k => Z.of_nat k) [72; 73; 10]).
  - intros k. lia.
  - reflexivity.
  - repeat (constructor; [lia|]). constructor.
  - simpl. lia.
Defined.

(** * The adventure game: properties *)

Local Open Scope nat_scope.

Lemma set_length j r rooms : length (Adventure.set j r rooms) = length rooms.
Proof.
  revert j. induction rooms as [|x rooms IH]; intros [|j]; simpl; auto.
Qed.

Lemma get_set_same j r rooms :
  j < length rooms -> Adventure.get j (Adventure.set j r rooms) = r.
Proof.
  unfold Adventure.get. revert j.
  induction rooms as [|x rooms IH]; intros [|j] Hj; simpl in *; try lia; auto.
  apply IH. lia.
Qed.

Lemma get_set_other a j r rooms :
  a <> j -> Adventure.get a (Adventure.set j r rooms) = Adventure.get a rooms.
Proof.
  unfold Adventure.get. revert a j.
  induction rooms as [|x rooms IH]; intros [|a] [|j] Hne; simpl; try reflexivity; try lia.
  apply IH. lia.
Qed.

Lemma firstn_upd_snoc i v buf :
  i < length buf -> firstn (S i) (Buf.upd i v buf) = firstn i buf ++ [v].
Proof.
  revert i. induction buf as [|x buf IH]; intros [|i] Hi; simpl in *; try lia.
  - reflexivity.
  - f_equal. apply IH. lia.
Qed.

(** What [add_connection] does when the counter is below the array size. *)
Lemma add_connection_in dest r :
  Adventure.counter r < length (Adventure.adjacentRooms r) ->
  exists r',
    Adventure.add_connection dest r = Some r'
    /\ Adventure.adj r' = Adventure.adj r ++ [Z.of_nat dest]
    /\ Adventure.id r' = Adventure.id r
    /\ Adventure.name r' = Adventure.name r
    /\ Adventure.roomType r' = Adventure.roomType r
    /\ Adventure.counter r' = S (Adventure.counter r)
    /\ length (Adventure.adjacentRooms r') = length (Adventure.adjacentRooms r).
Proof.
  intros Hc. unfold Adventure.add_connection. rewrite store_nat_upd.
  apply Nat.ltb_lt in Hc. rewrite Hc. apply Nat.ltb_lt in Hc.
  eexists. split; [reflexivity|]. unfold Adventure.adj. simpl.
  rewrite upd_length. repeat split.
  destruct (Adventure.adjacentRooms r) as [|x cells] eqn:E; [simpl in Hc; lia|].
  rewrite <- E in *. exact (firstn_upd_snoc _ _ _ Hc).
Qed.

(** The rooms a room can be connected to: the six others. *)
Lemma others_bound a l :
  a < 7 -> NoDup l ->
  (forall y, In y l -> exists b, b < 7 /\ b <> a /\ y = Z.of_nat b) ->
  length l <= 6.
Proof.
  intros Ha Hnd Hin.
  assert (Hincl : incl l (map Z.of_nat (remove Nat.eq_dec a (seq 0 7)))).
  { intros y Hy. destruct (Hin y Hy) as (b & Hb & Hne & ->).
    apply in_map. apply in_in_remove; [exact Hne|]. apply in_seq. lia. }
  apply (NoDup_incl_length Hnd) in Hincl.
  rewrite length_map in Hincl.
  assert (Hlen : length (remove Nat.eq_dec a (seq 0 7)) = 6).
  { do 7 (destruct a as [|a]; [reflexivity|]). lia. }
  lia.
Qed.

Lemma NoDup_snoc {A} (l : list A) v : NoDup l -> ~ In v l -> NoDup (l ++ [v]).
Proof.
  induction l as [|x l IH]; intros Hnd Hv; simpl.
  - constructor; [intros [] | constructor].
  - inversion Hnd as [|? ? Hx Hl]; subst. constructor.
    + intros Hin. apply in_app_or in Hin. destruct Hin as [Hin|[Hin|[]]].
      * contradiction.
      * subst. apply Hv. left. reflexivity.
    + apply IH; [exact Hl|]. intros Hin. apply Hv. right. exact Hin.
Qed.

(** A link, room by room: both stores fit, and the room [a] keeps all it had
    and gains what [linked_to] says. *)
Lemma link_rooms rooms j x :
  length rooms = 7 -> j < 7 -> x < 7 -> x <> j ->
  Adventure.counter (Adventure.get j rooms)
  < length (Adventure.adjacentRooms (Adventure.get j rooms)) ->
  Adventure.counter (Adventure.get x rooms)
  < length (Adventure.adjacentRooms (Adventure.get x rooms)) ->
  exists rooms',
    Adventure.link j x rooms = Some rooms'
    /\ length rooms' = 7
    /\ forall a,
         Adventure.adj (Adventure.get a rooms')
         = Adventure.adj (Adventure.get a rooms) ++ Adventure.linked_to j x a
         /\ Adventure.counter (Adventure.get a rooms')
            = Adventure.counter (Adventure.get a rooms)
              + length (Adventure.linked_to j x a)
         /\ Adventure.id (Adventure.get a rooms') = Adventure.id (Adventure.get a rooms)
         /\ Adventure.name (Adventure.get a rooms') = Adventure.name (Adventure.get a rooms)
         /\ Adventure.roomType (Adventure.get a rooms')
            = Adventure.roomType (Adventure.get a rooms)
         /\ length (Adventure.adjacentRooms (Adventure.get a rooms'))
            = length (Adventure.adjacentRooms (Adventure.get a rooms)).
Proof.
  intros Hlen Hj Hx Hne Hcj Hcx. unfold Adventure.link.
  destruct (add_connection_in x _ Hcj) as (rj & -> & Haj & Hij & Hnj & Htj & Hkj & Hlj).
  rewrite (get_set_other x j rj rooms Hne).
  destruct (add_connection_in j _ Hcx) as (rc & -> & Hac & Hic & Hnc & Htc & Hkc & Hlc).
  eexists. split; [reflexivity|]. split; [rewrite !set_length; exact Hlen|].
  intros a. unfold Adventure.linked_to.
  destruct (Nat.eqb_spec a j) as [->|Haj'].
  - rewrite (get_set_other j x) by auto.
    rewrite get_set_same by lia. simpl. repeat split; auto. lia.
  - destruct (Nat.eqb_spec a x) as [->|Hax].
    + rewrite get_set_same by (rewrite set_length; lia). simpl. repeat split; auto. lia.
    + rewrite !get_set_other by auto. rewrite app_nil_r. simpl. repeat split; auto.
Qed.

Lemma adj_length r :
  Adventure.counter r <= length (Adventure.adjacentRooms r) ->
  length (Adventure.adj r) = Adventure.counter r.
Proof. intros H. unfold Adventure.adj. apply firstn_length_le. exact H. Qed.

(** Linking two different rooms that are not linked yet keeps the rooms well
    linked; in particular both stores fall inside the six cells. *)
Lemma link_well_linked rooms j x :
  Adventure.well_linked rooms ->
  j < 7 -> x < 7 -> x <> j ->
  ~ In (Z.of_nat x) (Adventure.adj (Adventure.get j rooms)) ->
  exists rooms',
    Adventure.link j x rooms = Some rooms'
    /\ Adventure.well_linked rooms'
    /\ (forall a,
          Adventure.counter (Adventure.get a rooms')
          = Adventure.counter (Adventure.get a rooms)
            + length (Adventure.linked_to j x a)
          /\ Adventure.name (Adventure.get a rooms') = Adventure.name (Adventure.get a rooms)
          /\ Adventure.roomType (Adventure.get a rooms')
             = Adventure.roomType (Adventure.get a rooms)).
Proof.
  intros [Hlen Hall] Hj Hx Hne Hnew.
  destruct (Hall j Hj) as (Hidj & Hcj & Hkj & Hndj & Hinj).
  destruct (Hall x Hx) as (Hidx & Hcx & Hkx & Hndx & Hinx).
  assert (Hback : ~ In (Z.of_nat j) (Adventure.adj (Adventure.get x rooms))).
  { intros Hin. destruct (Hinx _ Hin) as (b & _ & _ & Heq & Hb).
    apply Nat2Z.inj in Heq. subst b. contradiction. }
  assert (Hroom : forall a y, a < 7 -> y < 7 -> y <> a ->
            ~ In (Z.of_nat y) (Adventure.adj (Adventure.get a rooms)) ->
            Adventure.counter (Adventure.get a rooms)
            < length (Adventure.adjacentRooms (Adventure.get a rooms))).
  { intros a y Ha Hy Hya Hny.
    destruct (Hall a Ha) as (_ & Hca & Hka & Hnda & Hina).
    assert (Hb : length (Adventure.adj (Adventure.get a rooms) ++ [Z.of_nat y]) <= 6).
    { apply (others_bound a); [exact Ha | apply NoDup_snoc; assumption |].
      intros z Hz. apply in_app_or in Hz. destruct Hz as [Hz|[<-|[]]].
      - destruct (Hina z Hz) as (b & Hb & Hba & Hzb & _). exists b. auto.
      - exists y. auto. }
    rewrite length_app, adj_length in Hb by lia. simpl in Hb. lia. }
  destruct (link_rooms rooms j x Hlen Hj Hx Hne
              (Hroom j x Hj Hx Hne Hnew) (Hroom x j Hx Hj (not_eq_sym Hne) Hback))
    as (rooms' & Hlink & Hlen' & Hfacts).
  exists rooms'. split; [exact Hlink|]. split.
  - split; [exact Hlen'|]. intros a Ha.
    destruct (Hfacts a) as (Hadj & Hcnt & Hid & _ & _ & Hcells).
    destruct (Hall a Ha) as (Hida & Hca & Hka & Hnda & Hina).
    assert (Hadjlen : length (Adventure.adj (Adventure.get a rooms'))
                      = Adventure.counter (Adventure.get a rooms')).
    { rewrite Hadj, length_app, adj_length, Hcnt by lia. reflexivity. }
    assert (Hnd' : NoDup (Adventure.adj (Adventure.get a rooms'))).
    { rewrite Hadj. unfold Adventure.linked_to.
      destruct (Nat.eqb_spec a j) as [->|Haj]; [apply NoDup_snoc; assumption|].
      destruct (Nat.eqb_spec a x) as [->|Hax]; [apply NoDup_snoc; assumption|].
      rewrite app_nil_r. exact Hnda. }
    assert (Hin' : forall y, In y (Adventure.adj (Adventure.get a rooms')) ->
              exists b, b < 7 /\ b <> a /\ y = Z.of_nat b
                        /\ In (Z.of_nat a) (Adventure.adj (Adventure.get b rooms'))).
    { intros y Hy. rewrite Hadj in Hy. apply in_app_or in Hy. destruct Hy as [Hy|Hy].
      - destruct (Hina y Hy) as (b & Hb & Hba & Hyb & Hab).
        exists b. repeat split; auto.
        destruct (Hfacts b) as (Hadjb & _). rewrite Hadjb. apply in_or_app. left. exact Hab.
      - unfold Adventure.linked_to in Hy.
        destruct (Nat.eqb_spec a j) as [->|Haj].
        + destruct Hy as [<-|[]]. exists x. repeat split; auto.
          destruct (Hfacts x) as (Hadjx & _). rewrite Hadjx. apply in_or_app. right.
          unfold Adventure.linked_to.
          destruct (Nat.eqb_spec x j); [contradiction|].
          rewrite Nat.eqb_refl. left. reflexivity.
        + destruct (Nat.eqb_spec a x) as [->|Hax]; [|destruct Hy].
          destruct Hy as [<-|[]]. exists j. repeat split; auto.
          destruct (Hfacts j) as (Hadjj & _). rewrite Hadjj. apply in_or_app. right.
          unfold Adventure.linked_to. rewrite Nat.eqb_refl. left. reflexivity. }
    split; [rewrite Hid; exact Hida|]. split; [rewrite Hcells; exact Hca|].
    split; [|split; assumption].
    rewrite <- Hadjlen. apply (others_bound a); [exact Ha | exact Hnd' |].
    intros y Hy. destruct (Hin' y Hy) as (b & Hb & Hba & Hyb & _). exists b. auto.
  - intros a. destruct (Hfacts a) as (_ & Hcnt & _ & Hn & Ht & _). auto.
Qed.

Lemma roll_cons r y rest :
  Adventure.roll r (y :: rest)
  = if (y mod 7 =? Adventure.id r)
       || (Z.of_nat (y mod 7) =? nth 0 (Adventure.adjacentRooms r) 0%Z)%Z
       || (Z.of_nat (y mod 7) =? nth 1 (Adventure.adjacentRooms r) 0%Z)%Z
    then Adventure.roll r rest
    else Some (y mod 7,
               negb (existsb (Z.eqb (Z.of_nat (y mod 7))) (Adventure.adj r)), rest).
Proof. reflexivity. Qed.

(** The number the [do ... while] keeps is a room other than the current one
    and other than its first two cells; [unique] tells whether it is new. *)
Lemma roll_kept r : forall rands x u rest,
  Adventure.roll r rands = Some (x, u, rest) ->
  x < 7 /\ x <> Adventure.id r
  /\ Z.of_nat x <> nth 0 (Adventure.adjacentRooms r) 0%Z
  /\ Z.of_nat x <> nth 1 (Adventure.adjacentRooms r) 0%Z
  /\ u = negb (existsb (Z.eqb (Z.of_nat x)) (Adventure.adj r)).
Proof.
  induction rands as [|y rands IH]; intros x u rest Hroll; [discriminate|].
  rewrite roll_cons in Hroll.
  destruct (Nat.eqb_spec (y mod 7) (Adventure.id r)) as [|Hid];
    [apply (IH _ _ _ Hroll)|].
  destruct (Z.eqb_spec (Z.of_nat (y mod 7)) (nth 0 (Adventure.adjacentRooms r) 0%Z))
    as [|H0]; [apply (IH _ _ _ Hroll)|].
  destruct (Z.eqb_spec (Z.of_nat (y mod 7)) (nth 1 (Adventure.adjacentRooms r) 0%Z))
    as [|H1]; [apply (IH _ _ _ Hroll)|].
  pose proof (Nat.mod_upper_bound y 7 ltac:(lia)) as Hb.
  cbn [orb] in Hroll. injection Hroll as <- <- <-.
  split; [exact Hb|]. auto.
Qed.

(** With at most two connections, all of them are in the first two cells: the
    number kept is new. *)
Lemma unique_when_few r x :
  Adventure.counter r <= 2 ->
  Z.of_nat x <> nth 0 (Adventure.adjacentRooms r) 0%Z ->
  Z.of_nat x <> nth 1 (Adventure.adjacentRooms r) 0%Z ->
  existsb (Z.eqb (Z.of_nat x)) (Adventure.adj r) = false.
Proof.
  unfold Adventure.adj. intros Hc H0 H1.
  apply Z.eqb_neq in H0, H1.
  destruct (Adventure.counter r) as [|[|[|c]]]; [| | |lia];
    destruct (Adventure.adjacentRooms r) as [|c0 [|c1 cells]]; simpl in *;
    rewrite ?H0, ?H1; reflexivity.
Qed.

Lemma existsb_eqb_false x l :
  existsb (Z.eqb x) l = false -> ~ In x l.
Proof.
  intros He Hin. assert (Ht : existsb (Z.eqb x) l = true).
  { apply existsb_exists. exists x. split; [exact Hin | apply Z.eqb_refl]. }
  congruence.
Qed.

(** One pass for the room [j]: never a store outside the cells; the rooms stay
    well linked, no room loses a connection, names and types stay, and the
    room [j] gains a connection when it had fewer than three. *)
Lemma connect_room_step rooms rands j :
  Adventure.well_linked rooms -> j < 7 ->
  match Adventure.connect_room j (rooms, rands) with
  | Adventure.Done (rooms', rest) =>
      Adventure.well_linked rooms'
      /\ (forall a,
            Adventure.counter (Adventure.get a rooms)
            <= Adventure.counter (Adventure.get a rooms')
            /\ Adventure.name (Adventure.get a rooms') = Adventure.name (Adventure.get a rooms)
            /\ Adventure.roomType (Adventure.get a rooms')
               = Adventure.roomType (Adventure.get a rooms))
      /\ Nat.min 3 (S (Adventure.counter (Adventure.get j rooms)))
         <= Adventure.counter (Adventure.get j rooms')
  | Adventure.NeedsRand => True
  | Adventure.OutOfBounds => False
  end.
Proof.
  intros Hwl Hj. unfold Adventure.connect_room.
  destruct (Adventure.roll (Adventure.get j rooms) rands) as [[[x u] rest]|] eqn:Hroll;
    [|exact I].
  destruct (roll_kept _ _ _ _ _ Hroll) as (Hx & Hid & H0 & H1 & Hu).
  destruct Hwl as [Hlen Hall].
  destruct (Hall j Hj) as (Hidj & _). rewrite Hidj in Hid.
  destruct u.
  - symmetry in Hu. apply negb_true_iff in Hu. apply existsb_eqb_false in Hu.
    destruct (link_well_linked rooms j x (conj Hlen Hall) Hj Hx Hid Hu)
      as (rooms' & -> & Hwl' & Hfacts).
    split; [exact Hwl'|]. split.
    + intros a. destruct (Hfacts a) as (Hc & Hn & Ht). split; [lia | auto].
    + destruct (Hfacts j) as (Hc & _). rewrite Hc.
      unfold Adventure.linked_to. rewrite Nat.eqb_refl. cbn [length]. lia.
  - split; [exact (conj Hlen Hall)|]. split; [intros a; auto|].
    destruct (Nat.le_gt_cases (Adventure.counter (Adventure.get j rooms)) 2) as [Hfew|Hmany];
      [|lia].
    rewrite (unique_when_few _ x Hfew H0 H1) in Hu. discriminate.
Qed.

Lemma connect_rooms_steps js : forall rooms rands,
  Adventure.well_linked rooms -> Forall (fun j => j < 7) js ->
  match Adventure.connect_rooms js (rooms, rands) with
  | Adventure.Done (rooms', rest) =>
      Adventure.well_linked rooms'
      /\ forall a,
           Nat.min 3 (Adventure.counter (Adventure.get a rooms) + count_occ Nat.eq_dec js a)
           <= Adventure.counter (Adventure.get a rooms')
           /\ Adventure.counter (Adventure.get a rooms)
              <= Adventure.counter (Adventure.get a rooms')
           /\ Adventure.name (Adventure.get a rooms') = Adventure.name (Adventure.get a rooms)
           /\ Adventure.roomType (Adventure.get a rooms')
              = Adventure.roomType (Adventure.get a rooms)
  | Adventure.NeedsRand => True
  | Adventure.OutOfBounds => False
  end.
Proof.
  induction js as [|j js IH]; intros rooms rands Hwl Hjs.
  - cbn [Adventure.connect_rooms count_occ]. split; [exact Hwl|]. intros a.
    split; [lia|]. split; [lia|]. split; reflexivity.
  - inversion Hjs as [|? ? Hj Hrest]; subst.
    cbn [Adventure.connect_rooms].
    pose proof (connect_room_step rooms rands j Hwl Hj) as Hstep.
    destruct (Adventure.connect_room j (rooms, rands)) as [[rooms1 rest1]| |];
      [|exact I|exact Hstep].
    destruct Hstep as (Hwl1 & Hmono1 & Hgain).
    specialize (IH rooms1 rest1 Hwl1 Hrest).
    destruct (Adventure.connect_rooms js (rooms1, rest1)) as [[rooms' rest']| |];
      [|exact I|exact IH].
    destruct IH as (Hwl' & Hfacts). split; [exact Hwl'|].
    intros a. destruct (Hfacts a) as (Hmin & Hle & Hn & Ht).
    destruct (Hmono1 a) as (Hle1 & Hn1 & Ht1).
    split; [|split; [lia|split; congruence]].
    cbn [count_occ]. destruct (Nat.eq_dec j a) as [->|Hne]; lia.
Qed.

(** ** Names, start and end *)

Lemma set_flag_length i b l : length (Adventure.set_flag i b l) = length l.
Proof. revert i. induction l as [|x l IH]; intros [|i]; simpl; auto. Qed.

Lemma set_flag_nth i b l : forall k d,
  nth k (Adventure.set_flag i b l) d
  = if (Nat.eqb k i && Nat.ltb i (length l))%bool then b else nth k l d.
Proof.
  revert i. induction l as [|x l IH]; intros i k d.
  - simpl. rewrite andb_false_r. destruct i; reflexivity.
  - destruct i as [|i], k as [|k]; simpl; try reflexivity.
    rewrite IH. reflexivity.
Qed.

Lemma roomNames_inj k k' :
  k < 10 -> k' < 10 ->
  nth k Adventure.roomNames EmptyString = nth k' Adventure.roomNames EmptyString ->
  k = k'.
Proof.
  intros Hk Hk'.
  do 10 (destruct k as [|k]; [do 10 (destruct k' as [|k']; [simpl; intros H; (reflexivity || discriminate)|]); lia|]).
  lia.
Qed.

(** The name the loop settles on is still available. *)
Lemma reroll_name_available avail : forall rands num k rest,
  Adventure.reroll_name avail rands num = Some (k, rest) ->
  nth k avail false = true.
Proof.
  induction rands as [|x rands IH]; intros num k rest H; simpl in H;
    destruct (nth num avail false) eqn:E; try discriminate.
  - injection H as <- _. exact E.
  - injection H as <- _. exact E.
  - apply (IH _ _ _ H).
Qed.

Lemma fresh_rooms_named garbage :
  Adventure.named 0 (Adventure.fresh_rooms garbage) (repeat true 10).
Proof.
  unfold Adventure.named. split; [reflexivity|]. split; [reflexivity|].
  split; [|split; intros; lia].
  intros a Ha. do 7 (destruct a as [|a]; [split; reflexivity|]). lia.
Qed.

Lemma name_room_step m rooms avail k :
  m < 7 -> nth k avail false = true ->
  Adventure.named m rooms avail ->
  Adventure.named (S m)
    (Adventure.set m
       (Adventure.mkRoom m (nth k Adventure.roomNames EmptyString) "MID_ROOM"
          (Adventure.adjacentRooms (Adventure.get m rooms))
          (Adventure.counter (Adventure.get m rooms))) rooms)
    (Adventure.set_flag k false avail).
Proof.
  intros Hm Hk (Hlen & Hav & Hcells & Hnamed & Hdiff).
  assert (Hk10 : k < 10).
  { destruct (Nat.lt_ge_cases k 10) as [H|H]; [exact H|].
    rewrite nth_overflow in Hk by lia. discriminate. }
  assert (Hget : forall a,
            Adventure.get a (Adventure.set m
               (Adventure.mkRoom m (nth k Adventure.roomNames EmptyString) "MID_ROOM"
                  (Adventure.adjacentRooms (Adventure.get m rooms))
                  (Adventure.counter (Adventure.get m rooms))) rooms)
            = if a =? m
              then Adventure.mkRoom m (nth k Adventure.roomNames EmptyString) "MID_ROOM"
                     (Adventure.adjacentRooms (Adventure.get m rooms))
                     (Adventure.counter (Adventure.get m rooms))
              else Adventure.get a rooms).
  { intros a. destruct (Nat.eqb_spec a m) as [->|Hne].
    - apply get_set_same. lia.
    - apply get_set_other. exact Hne. }
  assert (Hold : forall a, a < m ->
            exists k', k' < 10 /\ k' <> k
              /\ Adventure.name (Adventure.get a rooms)
                 = nth k' Adventure.roomNames EmptyString).
  { intros a Ha. destruct (Hnamed a Ha) as (_ & _ & k' & Hk' & Hn & Hf).
    exists k'. repeat split; auto. intros ->. congruence. }
  unfold Adventure.named.
  split; [rewrite set_length; exact Hlen|].
  split; [rewrite set_flag_length; exact Hav|].
  split; [|split].
  - intros a Ha. rewrite Hget. destruct (a =? m); [apply (Hcells m Hm) | apply (Hcells a Ha)].
  - intros a Ha. rewrite Hget. destruct (Nat.eqb_spec a m) as [->|Hne].
    + simpl. repeat split. exists k. repeat split; auto.
      rewrite set_flag_nth, Nat.eqb_refl.
      assert (Hlt : (k <? length avail) = true) by (apply Nat.ltb_lt; lia).
      rewrite Hlt. reflexivity.
    + destruct (Hnamed a ltac:(lia)) as (Hid & Ht & k' & Hk' & Hn & Hf).
      repeat split; auto. exists k'. repeat split; auto.
      rewrite set_flag_nth, Hf. destruct (_ && _)%bool; reflexivity.
  - intros a b Ha Hb Hab. rewrite !Hget.
    destruct (Nat.eqb_spec a m) as [->|Hna]; destruct (Nat.eqb_spec b m) as [->|Hnb];
      try contradiction; simpl.
    + destruct (Hold b ltac:(lia)) as (k' & Hk' & Hne & ->).
      intros Heq. apply roomNames_inj in Heq; auto.
    + destruct (Hold a ltac:(lia)) as (k' & Hk' & Hne & ->).
      intros Heq. apply roomNames_inj in Heq; auto.
    + apply Hdiff; lia.
Qed.

Lemma name_rooms_named n : forall m rooms avail rands,
  m + n = 7 -> Adventure.named m rooms avail ->
  match Adventure.name_rooms (seq m n) (rooms, avail, rands) with
  | Adventure.Done (rooms', avail', _) => Adventure.named 7 rooms' avail'
  | Adventure.NeedsRand => True
  | Adventure.OutOfBounds => False
  end.
Proof.
  induction n as [|n IH]; intros m rooms avail rands Hmn Hnamed.
  - simpl. replace 7 with m by lia. exact Hnamed.
  - cbn [seq Adventure.name_rooms].
    destruct rands as [|x rest]; [exact I|].
    destruct (Adventure.reroll_name avail rest (x mod 10)) as [[k rest']|] eqn:Hre;
      [|exact I].
    apply IH; [lia|].
    apply name_room_step; [lia | exact (reroll_name_available _ _ _ _ _ Hre) | exact Hnamed].
Qed.

(** Named rooms without connections are well linked. *)
Lemma named_well_linked rooms avail :
  Adventure.named 7 rooms avail -> Adventure.well_linked rooms.
Proof.
  intros (Hlen & _ & Hcells & Hnamed & _). split; [exact Hlen|].
  intros a Ha. destruct (Hcells a Ha) as [Hc Hl]. destruct (Hnamed a Ha) as (Hid & _).
  unfold Adventure.adj. rewrite Hc. cbn [firstn].
  split; [exact Hid|]. split; [exact Hl|]. split; [lia|].
  split; [constructor | intros x []].
Qed.

Lemma reroll_end_differs s : forall rands e0 e rest,
  Adventure.reroll_end s rands e0 = Some (e, rest) ->
  e0 < 7 -> e <> s /\ e < 7.
Proof.
  induction rands as [|x rands IH]; intros e0 e rest H He0; simpl in H;
    destruct (Nat.eqb_spec e0 s) as [Heq|Hne]; try discriminate.
  - injection H as <- _. split; assumption.
  - apply (IH _ _ _ H). exact (Nat.mod_upper_bound x 7 ltac:(lia)).
  - injection H as <- _. split; assumption.
Qed.

(** Choosing the start and the end only writes the types of two different
    rooms. *)
Lemma pick_ends_types rooms rands :
  length rooms = 7 ->
  match Adventure.pick_ends (rooms, rands) with
  | Adventure.Done (rooms', _) =>
      length rooms' = 7
      /\ exists s e, s < 7 /\ e < 7 /\ s <> e
         /\ forall a, a < 7 ->
              Adventure.id (Adventure.get a rooms') = Adventure.id (Adventure.get a rooms)
              /\ Adventure.name (Adventure.get a rooms')
                 = Adventure.name (Adventure.get a rooms)
              /\ Adventure.adjacentRooms (Adventure.get a rooms')
                 = Adventure.adjacentRooms (Adventure.get a rooms)
              /\ Adventure.counter (Adventure.get a rooms')
                 = Adventure.counter (Adventure.get a rooms)
              /\ Adventure.roomType (Adventure.get a rooms')
                 = if a =? e then "END_ROOM"%string
                   else if a =? s then "START_ROOM"%string
                   else Adventure.roomType (Adventure.get a rooms)
  | Adventure.NeedsRand => True
  | Adventure.OutOfBounds => False
  end.
Proof.
  intros Hlen. unfold Adventure.pick_ends.
  destruct rands as [|x [|y rest]]; try exact I.
  destruct (Adventure.reroll_end (x mod 7) rest (y mod 7)) as [[e rest']|] eqn:Hre;
    [|exact I].
  assert (Hs : x mod 7 < 7) by (apply Nat.mod_upper_bound; lia).
  destruct (reroll_end_differs _ _ _ _ _ Hre) as [Hne He];
    [apply Nat.mod_upper_bound; lia|].
  split; [rewrite !set_length; exact Hlen|].
  exists (x mod 7), e. split; [exact Hs|]. split; [exact He|]. split; [auto|].
  intros a Ha.
  destruct (Nat.eqb_spec a e) as [->|Hae].
  - rewrite get_set_same by (rewrite set_length; lia).
    rewrite (get_set_other e (x mod 7)) by exact Hne. simpl. repeat split.
  - rewrite (get_set_other a e) by exact Hae.
    destruct (Nat.eqb_spec a (x mod 7)) as [->|Has].
    + rewrite get_set_same by lia. simpl. repeat split.
    + rewrite (get_set_other a (x mod 7)) by exact Has. repeat split.
Qed.

Lemma well_linked_same rooms rooms' :
  length rooms' = 7 ->
  (forall a, a < 7 ->
     Adventure.id (Adventure.get a rooms') = Adventure.id (Adventure.get a rooms)
     /\ Adventure.adjacentRooms (Adventure.get a rooms')
        = Adventure.adjacentRooms (Adventure.get a rooms)
     /\ Adventure.counter (Adventure.get a rooms')
        = Adventure.counter (Adventure.get a rooms)) ->
  Adventure.well_linked rooms -> Adventure.well_linked rooms'.
Proof.
  intros Hlen Hsame [_ Hall]. split; [exact Hlen|].
  assert (Hadj : forall a, a < 7 ->
            Adventure.adj (Adventure.get a rooms') = Adventure.adj (Adventure.get a rooms)).
  { intros a Ha. destruct (Hsame a Ha) as (_ & Hc & Hk).
    unfold Adventure.adj. rewrite Hc, Hk. reflexivity. }
  intros a Ha. destruct (Hsame a Ha) as (Hid & Hc & Hk).
  destruct (Hall a Ha) as (Hida & Hca & Hka & Hnd & Hin).
  rewrite Hid, Hc, Hk, (Hadj a Ha). repeat split; auto.
  intros x Hx. destruct (Hin x Hx) as (b & Hb & Hba & Hxb & Hab).
  exists b. rewrite (Hadj b Hb). auto.
Qed.

Lemma count_rounds a :
  a < 7 -> count_occ Nat.eq_dec (seq 0 7 ++ seq 0 7 ++ seq 0 7) a = 3.
Proof.
  intros Ha. do 7 (destruct a as [|a]; [reflexivity|]). lia.
Qed.

(** All that [createRooms] has built when it starts writing. *)
Lemma build_rooms_built garbage rands :
  match Adventure.build_rooms garbage rands with
  | Adventure.Done (rooms, _) =>
      Adventure.well_linked rooms
      /\ (forall a, a < 7 -> 3 <= Adventure.counter (Adventure.get a rooms) <= 6)
      /\ (forall a b, a < 7 -> b < 7 -> a <> b ->
            Adventure.name (Adventure.get a rooms) <> Adventure.name (Adventure.get b rooms))
      /\ (forall a, a < 7 -> In (Adventure.name (Adventure.get a rooms)) Adventure.roomNames)
      /\ exists s e, s < 7 /\ e < 7 /\ s <> e
           /\ forall a, a < 7 ->
                Adventure.roomType (Adventure.get a rooms)
                = if a =? e then "END_ROOM"%string
                  else if a =? s then "START_ROOM"%string else "MID_ROOM"%string
  | Adventure.NeedsRand => True
  | Adventure.OutOfBounds => False
  end.
Proof.
  unfold Adventure.build_rooms.
  pose proof (name_rooms_named 7 0 (Adventure.fresh_rooms garbage) (repeat true 10) rands
                eq_refl (fresh_rooms_named garbage)) as Hnames.
  destruct (Adventure.name_rooms (seq 0 7) _) as [[[rooms0 avail0] rands0]| |];
    [|exact I|exact Hnames].
  unfold Adventure.connect_all.
  pose proof (connect_rooms_steps (seq 0 7 ++ seq 0 7 ++ seq 0 7) rooms0 rands0
                (named_well_linked _ _ Hnames)) as Hconn.
  assert (Hjs : Forall (fun j => j < 7) (seq 0 7 ++ seq 0 7 ++ seq 0 7)).
  { apply Forall_forall. intros j Hj.
    repeat (apply in_app_or in Hj; destruct Hj as [Hj|Hj]); apply in_seq in Hj; lia. }
  specialize (Hconn Hjs).
  destruct (Adventure.connect_rooms _ (rooms0, rands0)) as [[rooms1 rands1]| |];
    [|exact I|exact Hconn].
  destruct Hconn as (Hwl1 & Hfacts).
  pose proof (pick_ends_types rooms1 rands1 (proj1 Hwl1)) as Hends.
  destruct (Adventure.pick_ends (rooms1, rands1)) as [[rooms rest]| |];
    [|exact I|exact Hends].
  destruct Hends as (Hlen & s & e & Hs & He & Hse & Hsame).
  destruct Hnames as (_ & _ & Hcells0 & Hnamed0 & Hdiff0).
  assert (Hwl : Adventure.well_linked rooms).
  { apply (well_linked_same rooms1); [exact Hlen | | exact Hwl1].
    intros a Ha. destruct (Hsame a Ha) as (H1 & _ & H2 & H3 & _). auto. }
  split; [exact Hwl|]. split; [|split; [|split]].
  - intros a Ha. destruct (Hsame a Ha) as (_ & _ & _ & Hk & _).
    destruct (Hfacts a) as (Hmin & _). destruct (Hcells0 a Ha) as [Hc0 _].
    rewrite Hc0, (count_rounds a Ha) in Hmin. simpl in Hmin.
    destruct Hwl as [_ Hall]. destruct (Hall a Ha) as (_ & _ & Hle & _).
    rewrite Hk in *. lia.
  - intros a b Ha Hb Hab.
    destruct (Hsame a Ha) as (_ & -> & _). destruct (Hsame b Hb) as (_ & -> & _).
    destruct (Hfacts a) as (_ & _ & -> & _). destruct (Hfacts b) as (_ & _ & -> & _).
    apply Hdiff0; assumption.
  - intros a Ha. destruct (Hsame a Ha) as (_ & -> & _).
    destruct (Hfacts a) as (_ & _ & -> & _).
    destruct (Hnamed0 a Ha) as (_ & _ & k & Hk & -> & _).
    apply nth_In. simpl. lia.
  - exists s, e. split; [exact Hs|]. split; [exact He|]. split; [exact Hse|].
    intros a Ha. destruct (Hsame a Ha) as (_ & _ & _ & _ & ->).
    destruct (Hfacts a) as (_ & _ & _ & ->).
    destruct (Hnamed0 a Ha) as (_ & -> & _). reflexivity.
Qed.

(** X22.  Whatever [malloc] left in the cells and whatever [rand] returns,
    [createRooms] never stores a connection outside the six cells of a room,
    and when its loops have ended every room has three to six connections,
    all to different rooms, none to itself, each of them connected back. *)
Theorem createRooms_connections garbage rands :
  match Adventure.build_rooms garbage rands with
  | Adventure.Done (rooms, _) =>
      Adventure.well_linked rooms
      /\ forall a, a < 7 -> 3 <= Adventure.counter (Adventure.get a rooms) <= 6
  | Adventure.NeedsRand => True
  | Adventure.OutOfBounds => False
  end.
Proof.
  pose proof (build_rooms_built garbage rands) as H.
  destruct (Adventure.build_rooms garbage rands) as [[rooms rest]| |]; try exact H.
  destruct H as (Hwl & Hc & _). split; assumption.
Qed.

(** X23.  When the loops of [createRooms] have ended, the seven rooms carry
    seven different names of the table, one room is the start room, another
    one is the end room, and the five others are middle rooms. *)
Theorem createRooms_names_and_types garbage rands :
  match Adventure.build_rooms garbage rands with
  | Adventure.Done (rooms, _) =>
      (forall a b, a < 7 -> b < 7 -> a <> b ->
         Adventure.name (Adventure.get a rooms) <> Adventure.name (Adventure.get b rooms))
      /\ (forall a, a < 7 -> In (Adventure.name (Adventure.get a rooms)) Adventure.roomNames)
      /\ exists s e, s < 7 /\ e < 7 /\ s <> e
           /\ forall a, a < 7 ->
                Adventure.roomType (Adventure.get a rooms)
                = if a =? e then "END_ROOM"%string
                  else if a =? s then "START_ROOM"%string else "MID_ROOM"%string
  | Adventure.NeedsRand => True
  | Adventure.OutOfBounds => False
  end.
Proof.
  pose proof (build_rooms_built garbage rands) as H.
  destruct (Adventure.build_rooms garbage rands) as [[rooms rest]| |]; try exact H.
  destruct H as (_ & _ & Hd & Hn & Ht). repeat split; assumption.
Qed.

(** A run of [createRooms] that ends, on 31 random numbers. *)
Example createRooms_run :
  exists rooms,
    Adventure.build_rooms (fun _ _ => 0%Z) Adventure.example_rands
    = Adventure.Done (rooms, [])
    /\ map Adventure.name rooms
       = ["Ankh-Morpork"; "Pseudopolis"; "Klatch"; "Uberwald"; "Ramtops"; "The Rim";
          "Ephebe"]%string
    /\ map Adventure.adj rooms
       = [[1; 3; 4; 6]; [0; 2; 4; 5]; [1; 3; 6; 5]; [2; 4; 0; 6]; [3; 5; 1; 0];
          [4; 6; 2; 1]; [5; 2; 3; 0]]%Z
    /\ map Adventure.roomType rooms
       = ["START_ROOM"; "MID_ROOM"; "MID_ROOM"; "MID_ROOM"; "MID_ROOM"; "MID_ROOM";
          "END_ROOM"]%string.
Proof. eexists. split; [vm_compute; reflexivity|]. repeat split. Qed.

(** * [playGame]: properties *)

Local Open Scope nat_scope.

(** ** The lines of a room file *)

Lemma name_lines_read :
  forallb (fun n => Game.line_reads (Game.name_line n) true false false 11 n)
          Adventure.roomNames = true.
Proof. vm_compute. reflexivity. Qed.

Lemma connection_lines_read :
  forallb (fun j =>
     forallb (fun n => Game.line_reads (Game.connection_line j n) false true false 14 n)
             Adventure.roomNames) (seq 0 6) = true.
Proof. vm_compute. reflexivity. Qed.

Lemma type_lines_read :
  forallb (fun t => Game.line_reads (Game.type_line t) false false true 11 t)
          Game.roomTypes = true.
Proof. vm_compute. reflexivity. Qed.

Lemma string_app_length (a b : string) :
  String.length (a ++ b) = String.length a + String.length b.
Proof. induction a as [|c a IH]; simpl; [reflexivity | rewrite IH; reflexivity]. Qed.

(** A line shorter than the buffer is what one [fgets] returns. *)
Lemma fgets_lines_line l : forall left acc rest,
  Game.no_newline l = true -> String.length l < left ->
  Game.fgets_lines left acc (l ++ newline ++ rest)
  = (acc ++ l ++ newline)%string :: Game.fgets_lines 99 EmptyString rest.
Proof.
  induction l as [|c l IH]; intros left acc rest Hnl Hlen.
  - reflexivity.
  - cbn [Game.no_newline] in Hnl. apply andb_true_iff in Hnl. destruct Hnl as [Hc Hl].
    apply negb_true_iff in Hc.
    change ((String c l ++ newline ++ rest)%string)
      with (String c (l ++ newline ++ rest)%string).
    cbn [Game.fgets_lines]. rewrite Hc.
    simpl in Hlen. destruct left as [|[|left]]; try lia.
    rewrite IH by (auto; lia).
    rewrite string_app_assoc. reflexivity.
Qed.

Lemma file_lines_line l rest :
  Game.no_newline l = true -> String.length l < 99 ->
  Game.file_lines (l ++ newline ++ rest)
  = (l ++ newline)%string :: Game.file_lines rest.
Proof. intros Hnl Hlen. apply (fgets_lines_line l 99 EmptyString rest Hnl Hlen). Qed.

Lemma chomp_cons c s :
  s <> EmptyString -> Game.chomp (String c s) = String c (Game.chomp s).
Proof. destruct s; [contradiction | reflexivity]. Qed.

Lemma chomp_line l : Game.chomp (l ++ newline) = l.
Proof.
  induction l as [|c l IH]; [reflexivity|].
  change ((String c l ++ newline)%string) with (String c (l ++ newline)%string).
  rewrite chomp_cons, IH; [reflexivity|].
  destruct l; discriminate.
Qed.

Lemma line_reads_facts line a b c label text :
  Game.line_reads line a b c label text = true ->
  Game.no_newline line = true /\ String.length line < 99
  /\ Game.strstr line "ROOM NAME" = a
  /\ Game.strstr line "CONNECTION" = b
  /\ Game.strstr line "ROOM TYPE" = c
  /\ Game.from label line = Some text
  /\ Game.fits text = true
  /\ Game.strstr (line ++ newline) "START_ROOM" = (text =? "START_ROOM")%string.
Proof.
  unfold Game.line_reads. intros H.
  repeat (apply andb_true_iff in H; destruct H as [H ?]).
  repeat match goal with
         | E : Bool.eqb _ _ = true |- _ => apply Bool.eqb_prop in E
         end.
  destruct (Game.from label line) as [s|] eqn:Ef; [|discriminate].
  match goal with E : (s =? text)%string = true |- _ => apply String.eqb_eq in E; subst s end.
  match goal with E : (_ <? 99) = true |- _ => apply Nat.ltb_lt in E end.
  repeat split; assumption.
Qed.

Lemma read_line_name line n d :
  Game.line_reads line true false false 11 n = true ->
  Game.read_line (line ++ newline) d
  = Some (Game.mkDetails n (Game.roomConnections d) (Game.roomType d)).
Proof.
  intros H. destruct (line_reads_facts _ _ _ _ _ _ H) as (_ & _ & Hn & Hc & Ht & Hf & Hfit & _).
  unfold Game.read_line. rewrite chomp_line, Hn, Hc, Ht, Hf, Hfit. reflexivity.
Qed.

Lemma read_line_connection line n d :
  Game.line_reads line false true false 14 n = true ->
  length (Game.roomConnections d) < 6 ->
  Game.read_line (line ++ newline) d
  = Some (Game.mkDetails (Game.roomName d) (Game.roomConnections d ++ [n]) (Game.roomType d)).
Proof.
  intros H Hlen.
  destruct (line_reads_facts _ _ _ _ _ _ H) as (_ & _ & Hn & Hc & Ht & Hf & Hfit & _).
  unfold Game.read_line. rewrite chomp_line, Hn, Hc, Ht, Hf, Hfit.
  apply Nat.ltb_lt in Hlen. simpl. rewrite Hlen. reflexivity.
Qed.

Lemma read_line_type line t d :
  Game.line_reads line false false true 11 t = true ->
  Game.read_line (line ++ newline) d
  = Some (Game.mkDetails (Game.roomName d) (Game.roomConnections d) t).
Proof.
  intros H. destruct (line_reads_facts _ _ _ _ _ _ H) as (_ & _ & Hn & Hc & Ht & Hf & Hfit & _).
  unfold Game.read_line. rewrite chomp_line, Hn, Hc, Ht, Hf, Hfit. reflexivity.
Qed.

Lemma name_line_reads n :
  In n Adventure.roomNames ->
  Game.line_reads (Game.name_line n) true false false 11 n = true.
Proof.
  intros Hn. pose proof name_lines_read as H. rewrite forallb_forall in H. apply H, Hn.
Qed.

Lemma connection_line_reads j n :
  j < 6 -> In n Adventure.roomNames ->
  Game.line_reads (Game.connection_line j n) false true false 14 n = true.
Proof.
  intros Hj Hn. pose proof connection_lines_read as H. rewrite forallb_forall in H.
  specialize (H j ltac:(apply in_seq; lia)). rewrite forallb_forall in H. apply H, Hn.
Qed.

Lemma type_line_reads t :
  In t Game.roomTypes ->
  Game.line_reads (Game.type_line t) false false true 11 t = true.
Proof.
  intros Ht. pose proof type_lines_read as H. rewrite forallb_forall in H. apply H, Ht.
Qed.

Lemma connection_lines_cons rooms j c cells tail :
  (Adventure.connection_lines rooms j (c :: cells) ++ tail)%string
  = (Game.connection_line j (Adventure.name (Adventure.get (Z.to_nat c) rooms))
     ++ newline ++ Adventure.connection_lines rooms (S j) cells ++ tail)%string.
Proof.
  cbn [Adventure.connection_lines]. unfold Game.connection_line.
  rewrite !string_app_assoc. reflexivity.
Qed.

(** Reading the connection lines of a room file adds the names of the
    connected rooms, in order. *)
Lemma read_connection_lines rooms cells : forall j d tail,
  j + length cells <= 6 ->
  length (Game.roomConnections d) = j ->
  (forall c, In c cells ->
             In (Adventure.name (Adventure.get (Z.to_nat c) rooms)) Adventure.roomNames) ->
  Game.read_lines (Game.file_lines (Adventure.connection_lines rooms j cells ++ tail)) d
  = Game.read_lines (Game.file_lines tail)
      (Game.mkDetails (Game.roomName d)
         (Game.roomConnections d ++ Game.connection_names rooms cells) (Game.roomType d)).
Proof.
  induction cells as [|c cells IH]; intros j d tail Hj Hlen Hnames.
  - simpl. rewrite app_nil_r. destruct d; reflexivity.
  - rewrite connection_lines_cons.
    assert (Hr := connection_line_reads j _ ltac:(simpl in Hj; lia)
                    (Hnames c (or_introl eq_refl))).
    destruct (line_reads_facts _ _ _ _ _ _ Hr) as (Hnl & Hl & _).
    rewrite file_lines_line by assumption.
    cbn [Game.read_lines].
    rewrite (read_line_connection _ _ d Hr) by (simpl in Hj; lia).
    rewrite IH.
    + cbn [Game.roomName Game.roomConnections Game.roomType Game.connection_names map].
      rewrite <- app_assoc. reflexivity.
    + simpl in Hj. lia.
    + cbn [Game.roomConnections]. rewrite length_app. simpl. lia.
    + intros c' Hc'. apply Hnames. right. exact Hc'.
Qed.

(** The file [createRooms] writes for a room, read back by the game loop. *)
Lemma read_room_file rooms r d :
  In (Adventure.name r) Adventure.roomNames ->
  In (Adventure.roomType r) Game.roomTypes ->
  length (Adventure.adj r) <= 6 ->
  (forall c, In c (Adventure.adj r) ->
             In (Adventure.name (Adventure.get (Z.to_nat c) rooms)) Adventure.roomNames) ->
  Game.read_room (Adventure.room_file rooms r) d
  = Some (Game.mkDetails (Adventure.name r)
            (Game.connection_names rooms (Adventure.adj r)) (Adventure.roomType r)).
Proof.
  intros Hn Ht Hlen Hadj. unfold Game.read_room, Adventure.room_file.
  assert (Hrn := name_line_reads _ Hn). assert (Hrt := type_line_reads _ Ht).
  destruct (line_reads_facts _ _ _ _ _ _ Hrn) as (Hnl1 & Hl1 & _).
  destruct (line_reads_facts _ _ _ _ _ _ Hrt) as (Hnl2 & Hl2 & _).
  change ("ROOM NAME: " ++ Adventure.name r ++ newline
          ++ Adventure.connection_lines rooms 0 (Adventure.adj r)
          ++ "ROOM TYPE: " ++ Adventure.roomType r ++ newline ++ newline)%string
    with ("ROOM NAME: " ++ (Adventure.name r ++ newline
          ++ Adventure.connection_lines rooms 0 (Adventure.adj r)
          ++ "ROOM TYPE: " ++ Adventure.roomType r ++ newline ++ newline))%string.
  rewrite <- (string_app_assoc "ROOM NAME: " (Adventure.name r)).
  fold (Game.name_line (Adventure.name r)).
  rewrite file_lines_line by assumption.
  cbn [Game.read_lines]. rewrite (read_line_name _ _ _ Hrn).
  rewrite read_connection_lines; [|simpl; lia|reflexivity|exact Hadj].
  rewrite <- (string_app_assoc "ROOM TYPE: " (Adventure.roomType r)).
  fold (Game.type_line (Adventure.roomType r)).
  rewrite file_lines_line by assumption.
  cbn [Game.read_lines]. rewrite (read_line_type _ _ _ Hrt).
  reflexivity.
Qed.

(** ** The files of the rooms [createRooms] has built *)

Lemma build_rooms_done garbage rands rooms rest :
  Adventure.build_rooms garbage rands = Adventure.Done (rooms, rest) ->
  exists s e, Game.built rooms s e.
Proof.
  intros H. pose proof (build_rooms_built garbage rands) as B. rewrite H in B.
  destruct B as (Hwl & Hc & Hd & Hn & s & e & Hs & He & Hse & Ht).
  exists s, e. unfold Game.built. repeat (split; [assumption|]). exact Ht.
Qed.

Lemma built_read_room rooms s e a d :
  Game.built rooms s e -> a < 7 ->
  Game.read_room (Adventure.room_file rooms (Adventure.get a rooms)) d
  = Some (Game.details_of rooms a).
Proof.
  intros (Hwl & Hc & Hd & Hn & Hs & He & Hse & Ht) Ha.
  apply read_room_file.
  - apply Hn, Ha.
  - rewrite (Ht a Ha). unfold Game.roomTypes.
    destruct (a =? e); [right; right; left; reflexivity|].
    destruct (a =? s); [right; left; reflexivity | left; reflexivity].
  - unfold Adventure.adj. rewrite length_firstn. pose proof (Hc a Ha). lia.
  - intros c Hc'. destruct Hwl as [_ Hall]. destruct (Hall a Ha) as (_ & _ & _ & _ & Hin).
    destruct (Hin c Hc') as (b & Hb & _ & -> & _). rewrite Nat2Z.id. apply Hn, Hb.
Qed.

Lemma room_names_not_start :
  forallb (fun n => negb (n =? "START_ROOM")%string) Adventure.roomNames = true.
Proof. vm_compute. reflexivity. Qed.

Lemma room_name_not_start n :
  In n Adventure.roomNames -> (n =? "START_ROOM")%string = false.
Proof.
  intros Hn. pose proof room_names_not_start as H. rewrite forallb_forall in H.
  apply negb_true_iff, H, Hn.
Qed.

(** The lines of the connections of a room file do not hold [START_ROOM]. *)
Lemma start_connection_lines rooms cells : forall j tail,
  j + length cells <= 6 ->
  (forall c, In c cells ->
             In (Adventure.name (Adventure.get (Z.to_nat c) rooms)) Adventure.roomNames) ->
  existsb (fun line => Game.strstr line "START_ROOM")
          (Game.file_lines (Adventure.connection_lines rooms j cells ++ tail))
  = existsb (fun line => Game.strstr line "START_ROOM") (Game.file_lines tail).
Proof.
  induction cells as [|c cells IH]; intros j tail Hj Hnames.
  - reflexivity.
  - rewrite connection_lines_cons.
    assert (Hin := Hnames c (or_introl eq_refl)).
    assert (Hr := connection_line_reads j _ ltac:(simpl in Hj; lia) Hin).
    destruct (line_reads_facts _ _ _ _ _ _ Hr) as (Hnl & Hl & _ & _ & _ & _ & _ & Hst).
    rewrite file_lines_line by assumption.
    cbn [existsb]. rewrite Hst, (room_name_not_start _ Hin). cbn [orb].
    apply IH; [simpl in Hj; lia|].
    intros c' Hc'. apply Hnames. right. exact Hc'.
Qed.

(** A room file holds [START_ROOM] when it is the file of the start room. *)
Lemma built_start_line rooms s e a :
  Game.built rooms s e -> a < 7 ->
  existsb (fun line => Game.strstr line "START_ROOM")
          (Game.file_lines (Adventure.room_file rooms (Adventure.get a rooms)))
  = (a =? s).
Proof.
  intros (Hwl & Hc & Hd & Hn & Hs & He & Hse & Ht) Ha.
  unfold Adventure.room_file.
  set (r := Adventure.get a rooms).
  assert (Hrn := name_line_reads _ (Hn a Ha)). fold r in Hrn.
  assert (Htype : In (Adventure.roomType r) Game.roomTypes).
  { unfold r. rewrite (Ht a Ha). unfold Game.roomTypes.
    destruct (a =? e); [right; right; left; reflexivity|].
    destruct (a =? s); [right; left; reflexivity | left; reflexivity]. }
  assert (Hrt := type_line_reads _ Htype).
  destruct (line_reads_facts _ _ _ _ _ _ Hrn) as (Hnl1 & Hl1 & _ & _ & _ & _ & _ & Hst1).
  destruct (line_reads_facts _ _ _ _ _ _ Hrt) as (Hnl2 & Hl2 & _ & _ & _ & _ & _ & Hst2).
  change ("ROOM NAME: " ++ Adventure.name r ++ newline
          ++ Adventure.connection_lines rooms 0 (Adventure.adj r)
          ++ "ROOM TYPE: " ++ Adventure.roomType r ++ newline ++ newline)%string
    with ("ROOM NAME: " ++ (Adventure.name r ++ newline
          ++ Adventure.connection_lines rooms 0 (Adventure.adj r)
          ++ "ROOM TYPE: " ++ Adventure.roomType r ++ newline ++ newline))%string.
  rewrite <- (string_app_assoc "ROOM NAME: " (Adventure.name r)).
  fold (Game.name_line (Adventure.name r)).
  rewrite file_lines_line by assumption.
  assert (Hns : (Adventure.name r =? "START_ROOM")%string = false)
    by (apply room_name_not_start, Hn, Ha).
  cbn [existsb]. rewrite Hst1, Hns. cbn [orb].
  rewrite start_connection_lines.
  - rewrite <- (string_app_assoc "ROOM TYPE: " (Adventure.roomType r)).
    fold (Game.type_line (Adventure.roomType r)).
    rewrite file_lines_line by assumption.
    cbn [existsb]. rewrite Hst2.
    change (existsb (fun line => Game.strstr line "START_ROOM") (Game.file_lines newline))
      with false.
    rewrite orb_false_r. unfold r. rewrite (Ht a Ha).
    destruct (a =? e) eqn:Eae.
    + apply Nat.eqb_eq in Eae. subst a. symmetry. apply Nat.eqb_neq. auto.
    + destruct (a =? s); reflexivity.
  - unfold r, Adventure.adj. rewrite length_firstn. pose proof (Hc a Ha). simpl. lia.
  - intros c Hc'. destruct Hwl as [_ Hall]. destruct (Hall a Ha) as (_ & _ & _ & _ & Hin).
    destruct (Hin c Hc') as (b & Hb & _ & -> & _). rewrite Nat2Z.id. apply Hn, Hb.
Qed.

(** ** The directory of the room files *)

Lemma lookup_in files : forall n c,
  NoDup (map fst files) -> In (n, c) files -> Game.lookup n files = Some c.
Proof.
  unfold Game.lookup.
  induction files as [|[n' c'] files IH]; intros n c Hnd Hin; [destruct Hin|].
  inversion Hnd as [|x l Hnotin Hnd' E]; subst.
  cbn [find fst]. destruct (n' =? n)%string eqn:En.
  - apply String.eqb_eq in En. subst n'. destruct Hin as [Hin|Hin].
    + inversion Hin. reflexivity.
    + exfalso. apply Hnotin. change n with (fst (n, c)). apply in_map, Hin.
  - destruct Hin as [Hin|Hin].
    + inversion Hin. subst. rewrite String.eqb_refl in En. discriminate.
    + apply IH; assumption.
Qed.

Lemma directory_names rooms :
  map fst (Game.directory rooms) = map Adventure.name rooms.
Proof. unfold Game.directory. rewrite map_map. reflexivity. Qed.

Lemma built_length rooms s e : Game.built rooms s e -> length rooms = 7.
Proof. intros ([Hlen _] & _). exact Hlen. Qed.

Lemma built_names_nodup rooms s e :
  Game.built rooms s e -> NoDup (map Adventure.name rooms).
Proof.
  intros B. pose proof (built_length _ _ _ B) as Hlen.
  destruct B as (_ & _ & Hd & _).
  apply (NoDup_nth _ (Adventure.name Adventure.no_room)).
  rewrite length_map, Hlen. intros i j Hi Hj E.
  rewrite !(map_nth Adventure.name) in E.
  destruct (Nat.eq_dec i j) as [|Hij]; [assumption|].
  exfalso. exact (Hd i j Hi Hj Hij E).
Qed.

Lemma built_file_in rooms s e files a :
  Game.built rooms s e -> Permutation files (Game.directory rooms) -> a < 7 ->
  In (Adventure.name (Adventure.get a rooms),
      Adventure.room_file rooms (Adventure.get a rooms)) files.
Proof.
  intros B P Ha. apply (Permutation_in _ (Permutation_sym P)).
  unfold Game.directory.
  apply (in_map (fun r => (Adventure.name r, Adventure.room_file rooms r))).
  apply nth_In. rewrite (built_length _ _ _ B). exact Ha.
Qed.

Lemma built_file_of rooms s e files f :
  Game.built rooms s e -> Permutation files (Game.directory rooms) -> In f files ->
  exists a, a < 7
    /\ f = (Adventure.name (Adventure.get a rooms),
            Adventure.room_file rooms (Adventure.get a rooms)).
Proof.
  intros B P Hin. apply (Permutation_in _ P) in Hin.
  unfold Game.directory in Hin. apply in_map_iff in Hin. destruct Hin as (r & <- & Hr).
  destruct (In_nth _ _ Adventure.no_room Hr) as (a & Ha & <-).
  rewrite (built_length _ _ _ B) in Ha. exists a. split; [exact Ha | reflexivity].
Qed.

(** Opening the file of a room of the array. *)
Lemma built_lookup rooms s e files a :
  Game.built rooms s e -> Permutation files (Game.directory rooms) -> a < 7 ->
  Game.lookup (Adventure.name (Adventure.get a rooms)) files
  = Some (Adventure.room_file rooms (Adventure.get a rooms)).
Proof.
  intros B P Ha. apply lookup_in; [|exact (built_file_in _ _ _ _ _ B P Ha)].
  apply (Permutation_NoDup (l := map fst (Game.directory rooms))).
  - apply Permutation_map, Permutation_sym, P.
  - rewrite directory_names. exact (built_names_nodup _ _ _ B).
Qed.

Lemma room_names_fit : forallb Game.fits Adventure.roomNames = true.
Proof. vm_compute. reflexivity. Qed.

(** The search for the start room keeps the name of the file of the start
    room when it meets it, and the name it had otherwise. *)
Lemma find_start_files rooms s e (B : Game.built rooms s e) files : forall name0,
  (forall f, In f files ->
     exists a, a < 7
       /\ f = (Adventure.name (Adventure.get a rooms),
               Adventure.room_file rooms (Adventure.get a rooms))) ->
  Game.find_start files name0
  = Some (if existsb (fun f => (fst f =? Adventure.name (Adventure.get s rooms))%string) files
          then Adventure.name (Adventure.get s rooms) else name0).
Proof.
  induction files as [|f files IH]; intros name0 Hfiles; [reflexivity|].
  destruct (Hfiles f (or_introl eq_refl)) as (a & Ha & ->).
  assert (Hrest : forall f, In f files ->
     exists a, a < 7
       /\ f = (Adventure.name (Adventure.get a rooms),
               Adventure.room_file rooms (Adventure.get a rooms)))
    by (intros f Hf; apply Hfiles; right; exact Hf).
  cbn [Game.find_start existsb fst].
  rewrite (built_start_line _ _ _ _ B Ha).
  destruct B as (Hwl & Hc & Hd & Hn & Hs & He & Hse & Ht).
  destruct (a =? s) eqn:Eas.
  - apply Nat.eqb_eq in Eas. subst a. rewrite String.eqb_refl. cbn [orb].
    pose proof room_names_fit as Hfit. rewrite forallb_forall in Hfit.
    rewrite (Hfit _ (Hn s Hs)). rewrite IH by exact Hrest.
    destruct (existsb _ files); reflexivity.
  - apply Nat.eqb_neq in Eas.
    assert (En : (Adventure.name (Adventure.get a rooms)
                  =? Adventure.name (Adventure.get s rooms))%string = false)
      by (apply String.eqb_neq; exact (Hd a s Ha Hs Eas)).
    rewrite En. cbn [orb]. apply IH, Hrest.
Qed.

Lemma built_find_start rooms s e files name0 :
  Game.built rooms s e -> Permutation files (Game.directory rooms) ->
  Game.find_start files name0 = Some (Adventure.name (Adventure.get s rooms)).
Proof.
  intros B P.
  rewrite (find_start_files _ _ _ B files name0)
    by (intros f Hf; exact (built_file_of _ _ _ _ _ B P Hf)).
  assert (Hs : s < 7) by (destruct B as (_ & _ & _ & _ & Hs & _); exact Hs).
  assert (Hex : existsb (fun f => (fst f =? Adventure.name (Adventure.get s rooms))%string)
                        files = true).
  { apply existsb_exists. eexists. split; [exact (built_file_in _ _ _ _ _ B P Hs)|].
    apply String.eqb_refl. }
  rewrite Hex. reflexivity.
Qed.

(** ** The game loop on the files of the rooms *)

Lemma built_enter_room rooms s e files a cs t path out :
  Game.built rooms s e -> Permutation files (Game.directory rooms) -> a < 7 ->
  Game.enter_room files (Game.mkDetails (Adventure.name (Adventure.get a rooms)) cs t)
                  path out
  = if length path <? 30 then
      if a =? e
      then inl (Game.Won (out ++ Game.win_text
                                   (path ++ [Adventure.name (Adventure.get a rooms)])))
      else inr (Game.details_of rooms a,
                path ++ [Adventure.name (Adventure.get a rooms)])
    else inl Game.Undefined.
Proof.
  intros B P Ha. unfold Game.enter_room. cbn [Game.roomName].
  rewrite (built_lookup _ _ _ _ _ B P Ha), (built_read_room _ _ _ _ _ B Ha).
  destruct (length path <? 30); [|reflexivity].
  destruct B as (_ & _ & _ & _ & Hs & He & Hse & Ht).
  unfold Game.details_of. cbn [Game.roomName Game.roomType]. rewrite (Ht a Ha).
  destruct (a =? e); [reflexivity|]. destruct (a =? s); reflexivity.
Qed.

Lemma built_arrive rooms s e files a inputs path out :
  Game.built rooms s e -> Permutation files (Game.directory rooms) -> a < 7 ->
  Game.arrive files (Adventure.name (Adventure.get a rooms)) inputs path out
  = if length path <? 30 then
      if a =? e
      then Game.Won (out ++ Game.win_text
                             (path ++ [Adventure.name (Adventure.get a rooms)]))
      else Game.prompts files inputs (Game.details_of rooms a)
             (path ++ [Adventure.name (Adventure.get a rooms)]) out
    else Game.Undefined.
Proof.
  intros B P Ha. unfold Game.arrive. rewrite (built_enter_room _ _ _ _ _ _ _ _ _ B P Ha).
  destruct (length path <? 30); [|reflexivity]. destruct (a =? e); reflexivity.
Qed.

(** A line that names a connection of the room moves the player there. *)
Lemma prompts_move files typed rest d path out :
  Game.roomConnections d <> [] ->
  existsb (String.eqb (Game.chomp typed)) (Game.roomConnections d) = true ->
  Game.prompts files (typed :: rest) d path out
  = match Game.enter_room files
            (Game.mkDetails (Game.chomp typed) (Game.roomConnections d) (Game.roomType d))
            path (out ++ Game.prompt_text d) with
    | inl o => o
    | inr (d', path') => Game.prompts files rest d' path' (out ++ Game.prompt_text d)
    end.
Proof.
  intros Hne Hex. cbn [Game.prompts]. rewrite Hex.
  destruct (Game.roomConnections d); [contradiction|reflexivity].
Qed.

Lemma built_not_end rooms s e a :
  Game.built rooms s e -> a < 7 ->
  Adventure.roomType (Adventure.get a rooms) <> "END_ROOM"%string -> (a =? e) = false.
Proof.
  intros (_ & _ & _ & _ & _ & _ & _ & Ht) Ha Hne. rewrite (Ht a Ha) in Hne.
  destruct (a =? e); [contradiction | reflexivity].
Qed.

(** One move of the player, from the top of the game loop to the next. *)
Lemma built_move rooms s e files a b rest path out :
  Game.built rooms s e -> Permutation files (Game.directory rooms) ->
  a < 7 -> Adventure.roomType (Adventure.get a rooms) <> "END_ROOM"%string ->
  b < 7 -> In (Z.of_nat b) (Adventure.adj (Adventure.get a rooms)) ->
  length path < 30 ->
  Game.arrive files (Adventure.name (Adventure.get a rooms))
              ((Adventure.name (Adventure.get b rooms) ++ newline)%string :: rest) path out
  = Game.arrive files (Adventure.name (Adventure.get b rooms)) rest
                (path ++ [Adventure.name (Adventure.get a rooms)])
                (out ++ Game.prompt_text (Game.details_of rooms a)).
Proof.
  intros B P Ha Hne Hb Hin Hlen.
  rewrite (built_arrive _ _ _ _ _ _ _ _ B P Ha).
  apply Nat.ltb_lt in Hlen. rewrite Hlen, (built_not_end _ _ _ _ B Ha Hne).
  assert (Hex : existsb (String.eqb (Adventure.name (Adventure.get b rooms)))
                        (Game.roomConnections (Game.details_of rooms a)) = true).
  { apply existsb_exists. exists (Adventure.name (Adventure.get b rooms)).
    split; [|apply String.eqb_refl].
    unfold Game.details_of, Game.connection_names. cbn [Game.roomConnections].
    apply in_map_iff. exists (Z.of_nat b). rewrite Nat2Z.id. split; [reflexivity|exact Hin]. }
  rewrite prompts_move.
  - rewrite chomp_line. unfold Game.arrive.
    rewrite !(built_enter_room _ _ _ _ _ _ _ _ _ B P Hb). reflexivity.
  - intros E. rewrite E in Hex. discriminate.
  - rewrite chomp_line. exact Hex.
Qed.

Lemma last_cons (b : nat) w a : last (b :: w) a = last w b.
Proof.
  revert a b. induction w as [|c w IH]; intros a b; [reflexivity|].
  change (last (b :: c :: w) a) with (last (c :: w) a).
  rewrite (IH a c), (IH b c). reflexivity.
Qed.

Lemma built_end rooms s e a :
  Game.built rooms s e -> a < 7 ->
  Adventure.roomType (Adventure.get a rooms) = "END_ROOM"%string -> (a =? e) = true.
Proof.
  intros (_ & _ & _ & _ & _ & _ & _ & Ht) Ha He. rewrite (Ht a Ha) in He.
  destruct (a =? e); [reflexivity|]. destruct (a =? s); discriminate.
Qed.

(** The moves of a walk that ends in the end room, with room left in [path]. *)
Lemma walk_wins rooms s e files (B : Game.built rooms s e)
      (P : Permutation files (Game.directory rooms)) w : forall a path out,
  a < 7 -> Game.moves rooms a w ->
  Adventure.roomType (Adventure.get (last w a) rooms) = "END_ROOM"%string ->
  length path + length w < 30 ->
  Game.arrive files (Adventure.name (Adventure.get a rooms)) (Game.typed rooms w) path out
  = Game.Won (out ++ Game.walk_text rooms a w
              ++ Game.win_text
                   (path ++ map (fun b => Adventure.name (Adventure.get b rooms)) (a :: w))).
Proof.
  induction w as [|b w IH]; intros a path out Ha Hm Hend Hlen.
  - cbn [last] in Hend. rewrite (built_arrive _ _ _ _ _ _ _ _ B P Ha).
    simpl in Hlen. assert (Hl : (length path <? 30) = true) by (apply Nat.ltb_lt; lia).
    rewrite Hl, (built_end _ _ _ _ B Ha Hend). reflexivity.
  - destruct Hm as (Hne & Hb & Hin & Hm). rewrite last_cons in Hend.
    cbn [Game.typed map]. fold (Game.typed rooms w).
    rewrite (built_move _ _ _ _ _ _ _ _ _ B P Ha Hne Hb Hin) by (simpl in Hlen; lia).
    rewrite (IH b _ _ Hb Hm Hend) by (rewrite length_app; simpl in *; lia).
    cbn [Game.walk_text]. rewrite <- app_assoc, !string_app_assoc. reflexivity.
Qed.

(** Thirty moves fill [path] before the thirtieth room is recorded. *)
Lemma walk_overflows rooms s e files (B : Game.built rooms s e)
      (P : Permutation files (Game.directory rooms)) more w : forall a path out,
  a < 7 -> Game.moves rooms a w ->
  length path + length w = 30 ->
  Game.arrive files (Adventure.name (Adventure.get a rooms))
              (Game.typed rooms w ++ more) path out
  = Game.Undefined.
Proof.
  induction w as [|b w IH]; intros a path out Ha Hm Hlen.
  - rewrite (built_arrive _ _ _ _ _ _ _ _ B P Ha).
    simpl in Hlen. assert (Hl : (length path <? 30) = false) by (apply Nat.ltb_ge; lia).
    rewrite Hl. reflexivity.
  - destruct Hm as (Hne & Hb & Hin & Hm).
    cbn [Game.typed map]. fold (Game.typed rooms w). rewrite <- app_comm_cons.
    rewrite (built_move _ _ _ _ _ _ _ _ _ B P Ha Hne Hb Hin) by (simpl in Hlen; lia).
    apply (IH b _ _ Hb Hm). rewrite length_app. simpl in *. lia.
Qed.

Lemma built_start rooms s e a :
  Game.built rooms s e -> a < 7 ->
  Adventure.roomType (Adventure.get a rooms) = "START_ROOM"%string -> a = s.
Proof.
  intros (_ & _ & _ & _ & _ & _ & _ & Ht) Ha Hst. rewrite (Ht a Ha) in Hst.
  destruct (a =? e); [discriminate|].
  destruct (a =? s) eqn:E; [apply Nat.eqb_eq, E | discriminate].
Qed.

(** [playGame] finds the start room and goes to the top of the game loop. *)
Lemma built_playGame rooms s e files inputs garbage :
  Game.built rooms s e -> Permutation files (Game.directory rooms) ->
  Game.playGame files inputs garbage
  = Game.arrive files (Adventure.name (Adventure.get s rooms)) inputs [] EmptyString.
Proof.
  intros B P. unfold Game.playGame, Game.arrive.
  rewrite (built_find_start _ _ _ _ _ B P).
  assert (Hs : s < 7) by (destruct B as (_ & _ & _ & _ & Hs & _); exact Hs).
  rewrite !(built_enter_room _ _ _ _ _ _ _ _ _ B P Hs). reflexivity.
Qed.


(** X24.  The file [createRooms] writes for a room is read back by the game
    loop as the name of the room, the names of the rooms it is connected to,
    in the order of its connections, and its type, whatever the details held
    before. *)
Theorem createRooms_file_read_back garbage rands rooms rest a d :
  Adventure.build_rooms garbage rands = Adventure.Done (rooms, rest) ->
  a < 7 ->
  Game.read_room (Adventure.room_file rooms (Adventure.get a rooms)) d
  = Some (Game.mkDetails
            (Adventure.name (Adventure.get a rooms))
            (map (fun c => Adventure.name (Adventure.get (Z.to_nat c) rooms))
                 (Adventure.adj (Adventure.get a rooms)))
            (Adventure.roomType (Adventure.get a rooms))).
Proof.
  intros Hb Ha. destruct (build_rooms_done _ _ _ _ Hb) as (s & e & B).
  exact (built_read_room _ _ _ _ d B Ha).
Qed.

Lemma createRooms_file_read_back_witness :
  Game.read_room
    (Adventure.room_file Game.example_rooms (Adventure.get 0 Game.example_rooms))
    (Game.mkDetails "garbage" ["more"; "garbage"] EmptyString)
  = Some (Game.mkDetails "Ankh-Morpork" ["Pseudopolis"; "Uberwald"; "Ramtops"; "Ephebe"]
                         "START_ROOM").
Proof.
  apply (createRooms_file_read_back (fun _ _ => 0%Z) Adventure.example_rands
           Game.example_rooms [] 0).
  - vm_compute. reflexivity.
  - lia.
Defined.

(** X25.  On the files of the rooms [createRooms] has built, in whatever order
    the directory gives them, a player who types the names of the rooms of a
    walk from the start room to the end room, each room connected to the one
    before and the end room met last, in at most 29 moves, wins: [playGame]
    prints the prompt of every room left, then the congratulations with the
    number of moves and the names of the rooms entered, and returns. *)
Theorem playGame_walk_wins garbage rands rooms rest files s w held :
  Adventure.build_rooms garbage rands = Adventure.Done (rooms, rest) ->
  Permutation files (Game.directory rooms) ->
  s < 7 ->
  Adventure.roomType (Adventure.get s rooms) = "START_ROOM"%string ->
  Game.moves rooms s w ->
  Adventure.roomType (Adventure.get (last w s) rooms) = "END_ROOM"%string ->
  length w <= 29 ->
  Game.playGame files (Game.typed rooms w) held
  = Game.Won (Game.walk_text rooms s w
              ++ newline ++ "YOU HAVE FOUND THE END ROOM. CONGRATULATIONS!" ++ newline
              ++ "YOU TOOK " ++ dec (Z.of_nat (length w))
              ++ " STEPS. YOUR PATH TO VICTORY WAS:" ++ newline
              ++ Game.path_text (map (fun b => Adventure.name (Adventure.get b rooms)) w)).
Proof.
  intros Hb P Hs Hst Hm Hend Hlen.
  destruct (build_rooms_done _ _ _ _ Hb) as (s' & e & B).
  pose proof (built_start _ _ _ _ B Hs Hst) as E. subst s'.
  rewrite (built_playGame _ _ _ _ _ held B P).
  rewrite (walk_wins _ _ _ _ B P w s [] EmptyString Hs Hm Hend) by (simpl; lia).
  unfold Game.win_text. cbn [app map length tl]. rewrite length_map.
  replace (Z.of_nat (S (length w)) - 1)%Z with (Z.of_nat (length w)) by lia.
  reflexivity.
Qed.

Lemma playGame_walk_wins_witness :
  Game.playGame (Game.directory Game.example_rooms)
                [("Pseudopolis" ++ newline)%string; ("Klatch" ++ newline)%string;
                 ("Ephebe" ++ newline)%string]
                (Game.mkDetails EmptyString [] EmptyString)
  = Game.Won
      (newline ++ "CURRENT LOCATION: Ankh-Morpork" ++ newline
       ++ "POSSIBLE CONNECTIONS: Pseudopolis, Uberwald, Ramtops, Ephebe." ++ newline
       ++ "WHERE TO? >"
       ++ newline ++ "CURRENT LOCATION: Pseudopolis" ++ newline
       ++ "POSSIBLE CONNECTIONS: Ankh-Morpork, Klatch, Ramtops, The Rim." ++ newline
       ++ "WHERE TO? >"
       ++ newline ++ "CURRENT LOCATION: Klatch" ++ newline
       ++ "POSSIBLE CONNECTIONS: Pseudopolis, Uberwald, Ephebe, The Rim." ++ newline
       ++ "WHERE TO? >"
       ++ newline ++ "YOU HAVE FOUND THE END ROOM. CONGRATULATIONS!" ++ newline
       ++ "YOU TOOK 3 STEPS. YOUR PATH TO VICTORY WAS:" ++ newline
       ++ "Pseudopolis" ++ newline ++ "Klatch" ++ newline ++ "Ephebe" ++ newline)%string.
Proof.
  apply (playGame_walk_wins (fun _ _ => 0%Z) Adventure.example_rands
           Game.example_rooms [] (Game.directory Game.example_rooms) 0 [1; 2; 6]).
  - vm_compute. reflexivity.
  - apply Permutation_refl.
  - lia.
  - reflexivity.
  - repeat (split; [intros E; vm_compute in E; discriminate E
                   | split; [lia | split; [vm_compute; auto 10|]]]).
    exact I.
  - reflexivity.
  - simpl. lia.
Defined.

(** X26.  The thirtieth move of a player who has not met the end room writes
    the name of the room entered past the end of [path], which has room for
    the start room and 29 moves: the behaviour of [playGame] is undefined from
    there on. *)
Theorem playGame_thirty_moves garbage rands rooms rest files s w more held :
  Adventure.build_rooms garbage rands = Adventure.Done (rooms, rest) ->
  Permutation files (Game.directory rooms) ->
  s < 7 ->
  Adventure.roomType (Adventure.get s rooms) = "START_ROOM"%string ->
  Game.moves rooms s w ->
  length w = 30 ->
  Game.playGame files (Game.typed rooms w ++ more) held = Game.Undefined.
Proof.
  intros Hb P Hs Hst Hm Hlen.
  destruct (build_rooms_done _ _ _ _ Hb) as (s' & e & B).
  pose proof (built_start _ _ _ _ B Hs Hst) as E. subst s'.
  rewrite (built_playGame _ _ _ _ _ held B P).
  apply (walk_overflows _ _ _ _ B P more w s [] EmptyString Hs Hm). simpl. lia.
Qed.

Lemma playGame_thirty_moves_witness :
  Game.playGame (Game.directory Game.example_rooms)
     (Game.typed Game.example_rooms
        [1; 0; 1; 0; 1; 0; 1; 0; 1; 0; 1; 0; 1; 0; 1; 0; 1; 0; 1; 0; 1; 0; 1; 0; 1; 0;
         1; 0; 1; 0]
      ++ [("Ephebe" ++ newline)%string])
     (Game.mkDetails EmptyString [] EmptyString)
  = Game.Undefined.
Proof.
  apply (playGame_thirty_moves (fun _ _ => 0%Z) Adventure.example_rands
           Game.example_rooms [] (Game.directory Game.example_rooms) 0).
  - vm_compute. reflexivity.
  - apply Permutation_refl.
  - lia.
  - reflexivity.
  - repeat (split; [intros E; vm_compute in E; discriminate E
                   | split; [lia | split; [vm_compute; auto 10|]]]).
    exact I.
  - reflexivity.
Defined.



